(** * PRTG API client: a shallow embedding of [prtg/client.py]

    The client mirrors the sensor tree of a monitoring server
    (probes, groups, devices, sensors, channels) into Python objects and
    reconciles that mirror against freshly fetched tree documents.

    Modelling choices.
    - A Python object is a value carrying its allocation identity [oid]
      (what [is] and [list.remove] compare) and its instance dictionary
      [attrs].  Every object of the mirror is referenced by its parent's
      collection and by its parent's registry only, so collections own
      their elements and registries ([allprobes], ...) and status buckets
      are lists of identities.
    - [BaseConfig.__init__] binds [id], [objid], [sensorid], [type],
      [name], [status], [status_raw], [active] and the connection fields
      before anything reads them, so reading one of them never misses;
      [attr] reads the dictionary and yields [VNone] on a name that is not
      bound, a case no constructed object reaches.
    - The collections, the registries and the methods live in the same
      Python namespace as the scalars.  A document element named like one
      of them would replace it through [setattr]; the model keeps them in
      record fields of their own, and [reserved] lists those names.
    - The loops give an element without a string the string [""] in
      place ([child.string = ""]) before they read it.  The model reads
      [""] and leaves the document as it is; the document predicates
      ([scalar_ok] and those built on it) describe the sensor tree, where
      only empty elements are without a string and the rewriting cannot
      be seen.
    - Strings are byte strings; [upper], [isdigit] and [strip] act on
      ASCII, and the statements about what [isdigit] accepts or
      [strip] removes are made for texts in ASCII ([is_ascii]).
    - Floats are not values of the model.  The one place that makes
      them, the numeric branch of [Channel.initialize], never completes;
      the model keeps of [int] and [float] there whether they raise.
    - The HTTP server, the markup parser, the CSV reader and [strptime]
      are outside the program: they are variables of the model. *)

From Stdlib Require Import ZArith Lia Ascii String.
From stdpp Require Import base strings gmap list pretty.

Open Scope Z_scope.
Open Scope string_scope.
Open Scope list_scope.

(** ** Python values held in attributes *)

Inductive pyval :=
| VNone
| VInt (z : Z)
| VStr (s : string).

#[global] Instance pyval_eq_dec : EqDecision pyval.
Proof. solve_decision. Defined.

(** [str(v)], as [str.format] applies it. *)
Definition py_str (v : pyval) : string :=
  match v with
  | VNone => "None"
  | VInt z => pretty z
  | VStr s => s
  end.

(** [v == w] on these values. *)
Definition py_eq (v w : pyval) : bool := bool_decide (v = w).

(** [v in l]. *)
Definition py_in (v : pyval) (l : list pyval) : bool := bool_decide (v ∈ l).

(** ** Exceptions and results *)

Inductive exn :=
| AuthenticationError (msg : string)
| ResourceNotFound (msg : string)
| PyException (msg : string)
| AttributeError
| ValueError
| IndexError
| UnboundLocalError
| KeyError
| EOFError
| OverflowError.

Inductive res (A : Type) :=
| Ok (a : A)
| Raise (e : exn).
Arguments Ok {A} a.
Arguments Raise {A} e.

(** ** Documents: the node tree of the markup parser *)

#[warnings="-register-all"]
Inductive Soup :=
| NavStr (s : string)
| Tag (name : string) (tattrs : list (string * string)) (contents : list Soup).

(** [child.name]: [None] on a string node. *)
Definition soup_name (s : Soup) : option string :=
  match s with
  | NavStr _ => None
  | Tag n _ _ => Some n
  end.

(** [tag.children]; callers reach it on tags only. *)
Definition children (s : Soup) : list Soup :=
  match s with
  | NavStr _ => []
  | Tag _ _ cs => cs
  end.

(** [tag.attrs]. *)
Definition soup_attrs (s : Soup) : list (string * string) :=
  match s with
  | NavStr _ => []
  | Tag _ a _ => a
  end.

(** [node.string]: the single string below a chain of only children. *)
Fixpoint soup_string (s : Soup) : option string :=
  match s with
  | NavStr t => Some t
  | Tag _ _ [c] => soup_string c
  | Tag _ _ _ => None
  end.

(** [node.string] as a Python value. *)
Definition string_val (s : Soup) : pyval :=
  match soup_string s with
  | Some t => VStr t
  | None => VNone
  end.

(** The value [setattr] receives: [child.string], after
    [if child.string is None: child.string = ""]. *)
Definition string_or_empty (s : Soup) : pyval :=
  VStr (default "" (soup_string s)).

(** First tag named [name] among [s] and its descendants, document order. *)
Fixpoint find_self (name : string) (s : Soup) : option Soup :=
  match s with
  | NavStr _ => None
  | Tag n _ cs =>
      if String.eqb n name then Some s
      else (fix go (l : list Soup) : option Soup :=
              match l with
              | [] => None
              | c :: l' =>
                  match find_self name c with
                  | Some r => Some r
                  | None => go l'
                  end
              end) cs
  end.

Fixpoint find_first (name : string) (l : list Soup) : option Soup :=
  match l with
  | [] => None
  | c :: l' =>
      match find_self name c with
      | Some r => Some r
      | None => find_first name l'
      end
  end.

(** [tag.find(name)], also [tag.name] used as an attribute. *)
Definition find (name : string) (s : Soup) : option Soup :=
  find_first name (children s).

(** [tag.find_all(name)]: every descendant tag of that name, document
    order, nested ones included. *)
Fixpoint find_all_self (name : string) (s : Soup) : list Soup :=
  match s with
  | NavStr _ => []
  | Tag n _ cs =>
      (if String.eqb n name then [s] else []) ++
      (fix go (l : list Soup) : list Soup :=
         match l with
         | [] => []
         | c :: l' => find_all_self name c ++ go l'
         end) cs
  end.

Definition find_all (name : string) (s : Soup) : list Soup :=
  flat_map (find_all_self name) (children s).

(** [tag.text]: the strings below the tag, concatenated. *)
Fixpoint get_text (s : Soup) : string :=
  match s with
  | NavStr t => t
  | Tag _ _ cs =>
      (fix go (l : list Soup) : string :=
         match l with
         | [] => ""
         | c :: l' => get_text c +:+ go l'
         end) cs
  end.

(** [child.find("id").string]; [None.string] raises. *)
Definition find_string (name : string) (child : Soup) : res pyval :=
  match find name child with
  | None => Raise AttributeError
  | Some t => Ok (string_val t)
  end.

(** ** The world outside the process *)

Record Response := mkResponse { status_code : Z; text : string }.

Record World := mkWorld {
  log : list string;        (* URLs requested so far, oldest first *)
  stdin : list string;      (* lines still to be read by [input] *)
  stdout : list string;     (* lines printed and prompts shown *)
  next_oid : nat            (* identity of the next object allocated *)
}.

Definition log_request (url : string) (w : World) : World :=
  mkWorld (log w ++ [url]) (stdin w) (stdout w) (next_oid w).

Definition print (line : string) (w : World) : World :=
  mkWorld (log w) (stdin w) (stdout w ++ [line]) (next_oid w).

Definition alloc (w : World) : World :=
  mkWorld (log w) (stdin w) (stdout w) (S (next_oid w)).

(** ** Objects *)

Inductive Class := CPRTGApi | CProbe | CGroup | CDevice | CSensor | CChannel.

#[global] Instance Class_eq_dec : EqDecision Class.
Proof. solve_decision. Defined.

(** The connection configuration pack [confdata]. *)
Record ConfData := mkConf {
  c_host : pyval; c_port : pyval; c_user : pyval;
  c_passhash : pyval; c_protocol : pyval; c_verify : bool
}.

Record Node := mkNode {
  oid : nat;
  cls : Class;
  attrs : gmap string pyval;
  attributes : option (list (string * string));
  confdata : ConfData
}.

Definition attr (name : string) (n : Node) : pyval :=
  default VNone (attrs n !! name).

Definition setattr (name : string) (v : pyval) (n : Node) : Node :=
  mkNode (oid n) (cls n) (<[name := v]> (attrs n)) (attributes n)
         (confdata n).

Definition set_attributes (a : list (string * string)) (n : Node) : Node :=
  mkNode (oid n) (cls n) (attrs n) (Some a) (confdata n).

(** Names a document element must not carry: collections, registries and
    bookkeeping of the objects, and the methods. *)
Definition reserved : list string :=
  [ "probes"; "groups"; "devices"; "sensors"; "channels";
    "allprobes"; "allgroups"; "alldevices"; "allsensors";
    "sensors_by_status"; "attributes"; "confdata"; "treesoup";
    "groupsoup"; "devicesoup"; "sensorsoup"; "channelsoup";
    "unpack_config"; "get_request"; "clear_arrays"; "delete";
    "set_property"; "get_property"; "set_interval"; "get_tree"; "rename";
    "pause"; "resume"; "get_status"; "clone"; "add_tags"; "initialize";
    "refresh"; "search_byid"; "get_channels"; "set_additional_param";
    "acknowledge"; "save_graph"; "set_host" ].

(** [ConnectionMethods.__init__] *)
Definition connection_init (a : gmap string pyval) : gmap string pyval :=
  <["url_auth" := VNone]> (<["base_url_no_api" := VNone]>
  (<["base_url" := VNone]> (<["protocol" := VNone]>
  (<["passhash" := VNone]> (<["user" := VNone]>
  (<["port" := VNone]> (<["host" := VNone]> a))))))).

(** [ConnectionMethods.unpack_config]; [verify] stays in the pack. *)
Definition unpack_config (c : ConfData) (a : gmap string pyval)
  : gmap string pyval :=
  let base := py_str (c_protocol c) +:+ "://" +:+ py_str (c_host c) +:+ ":"
              +:+ py_str (c_port c) +:+ "/" in
  <["url_auth" := VStr ("username=" +:+ py_str (c_user c) +:+ "&passhash="
                        +:+ py_str (c_passhash c))]>
  (<["base_url_no_api" := VStr base]>
  (<["base_url" := VStr (base +:+ "api/")]>
  (<["protocol" := c_protocol c]> (<["passhash" := c_passhash c]>
  (<["user" := c_user c]> (<["port" := c_port c]>
  (<["host" := c_host c]> a))))))).

(** [BaseConfig.__init__] *)
Definition baseconfig_init (a : gmap string pyval) : gmap string pyval :=
  <["active" := VNone]> (<["status_raw" := VNone]> (<["status" := VNone]>
  (<["name" := VNone]> (<["type" := VNone]> (<["sensorid" := VNone]>
  (<["objid" := VNone]> (<["id" := VNone]> (connection_init a)))))))).

(** [PRTGApi.__init__] up to the call of [initialize]: [pre] holds what
    a subclass bound before calling it. *)
Definition prtgapi_init (pre : gmap string pyval) (c : ConfData)
    (rootid : pyval) : gmap string pyval :=
  <["id" := rootid]> (unpack_config c (baseconfig_init pre)).


(** ** Loops over document children *)

(** The scalar branch of every loop:
    [if child.string is None: child.string = ""] and
    [setattr(self, child.name, child.string)] for a named child. *)
Definition set_scalar (child : Soup) (n : Node) : Node :=
  match child with
  | NavStr _ => n
  | Tag nm _ _ => setattr nm (string_or_empty child) n
  end.

Definition set_scalars (cs : list Soup) (n : Node) : Node :=
  foldl (λ acc child, set_scalar child acc) n cs.

Section Loops.
Context {St : Type}.

(** [for child in cs: step], left at the first exception. *)
Fixpoint for_children (step : Soup → St → World → World * St * res unit)
    (cs : list Soup) (st : St) (w : World) : World * St * res unit :=
  match cs with
  | [] => (w, st, Ok tt)
  | child :: cs' =>
      let '(w1, st1, r) := step child st w in
      match r with
      | Raise e => (w1, st1, Raise e)
      | Ok _ => for_children step cs' st1 w1
      end
  end.

(** The same loop for a body that cannot raise. *)
Fixpoint build_children (step : Soup → St → World → World * St)
    (cs : list Soup) (st : St) (w : World) : World * St :=
  match cs with
  | [] => (w, st)
  | child :: cs' =>
      let '(w1, st1) := step child st w in
      build_children step cs' st1 w1
  end.
End Loops.

(** ** Reconciling one collection *)

(** [list.remove(x)] on a registry: drops the first occurrence;
    [None] stands for [ValueError]. *)
Fixpoint remove_oid (o : nat) (l : list nat) : option (list nat) :=
  match l with
  | [] => None
  | x :: l' =>
      if bool_decide (x = o) then Some l'
      else match remove_oid o l' with
           | Some r => Some (x :: r)
           | None => None
           end
  end.

Section Collection.
Context {T : Type} (node_of : T → Node).

(** [ids.append(a.id)] for every element. *)
Definition ids_of (l : list T) : list pyval :=
  map (λ a, attr "id" (node_of a)) l.

Definition oids_of (l : list T) : list nat :=
  map (λ a, oid (node_of a)) l.

(** [for a in coll: if a.id == cid: a.refresh(child)] *)
Fixpoint refresh_matching (refresh : T → World → World * T * res unit)
    (cid : pyval) (l : list T) (w : World) : World * list T * res unit :=
  match l with
  | [] => (w, [], Ok tt)
  | a :: l' =>
      if py_eq (attr "id" (node_of a)) cid then
        let '(w1, a1, r) := refresh a w in
        match r with
        | Raise e => (w1, a1 :: l', Raise e)
        | Ok _ =>
            let '(w2, l2, r2) := refresh_matching refresh cid l' w1 in
            (w2, a1 :: l2, r2)
        end
      else
        let '(w2, l2, r2) := refresh_matching refresh cid l' w in
        (w2, a :: l2, r2)
  end.

(** The block every refresh repeats for a structural child:
    [if cid in ids: for a in coll: if a.id == cid: a.refresh(child)
     else: obj = New(child, ...); coll.append(obj); reg.append(obj)]
    and then [newids.append(cid)]. *)
Definition reconcile_child (refresh : T → World → World * T * res unit)
    (new : World → World * T) (ids : list pyval) (cid : pyval)
    (coll : list T) (reg : list nat) (newids : list pyval) (w : World)
  : World * (list T * list nat * list pyval) * res unit :=
  if py_in cid ids then
    let '(w1, l, r) := refresh_matching refresh cid coll w in
    match r with
    | Raise e => (w1, (l, reg, newids), Raise e)
    | Ok _ => (w1, (l, reg, newids ++ [cid]), Ok tt)
    end
  else
    let '(w1, x) := new w in
    (w1, (coll ++ [x], reg ++ [oid (node_of x)], newids ++ [cid]), Ok tt).

(** [list.remove(x)] on a collection of objects. *)
Fixpoint remove_obj (o : nat) (l : list T) : option (list T) :=
  match l with
  | [] => None
  | a :: l' =>
      if bool_decide (oid (node_of a) = o) then Some l'
      else match remove_obj o l' with
           | Some r => Some (a :: r)
           | None => None
           end
  end.

(** [for a in coll: if a.id == idval: toremove = a]; the variable keeps
    its value when nothing matches. *)
Definition last_with_id (idval : pyval) (l : list T) (cur : option nat)
  : option nat :=
  foldl (λ acc a, if py_eq (attr "id" (node_of a)) idval
                  then Some (oid (node_of a)) else acc) cur l.

(** The removal loop of [Device.refresh] and [Group.refresh]. *)
Fixpoint remove_stale (ids newids : list pyval) (toremove : option nat)
    (coll : list T) (reg : list nat) : list T * list nat * res unit :=
  match ids with
  | [] => (coll, reg, Ok tt)
  | idval :: ids' =>
      if negb (py_in idval newids) then
        match last_with_id idval coll toremove with
        | None => (coll, reg, Raise UnboundLocalError)
        | Some o =>
            match remove_obj o coll with
            | None => (coll, reg, Raise ValueError)
            | Some coll' =>
                match remove_oid o reg with
                | None => (coll', reg, Raise ValueError)
                | Some reg' => remove_stale ids' newids (Some o) coll' reg'
                end
            end
        end
      else remove_stale ids' newids toremove coll reg
  end.

(** The removal loops of [PRTGApi.refresh] iterate over the list they
    shrink; the list iterator reads position [i] of the current list.
    [reg.remove(a); coll.remove(a)] for probes and groups. *)
Fixpoint scan_remove (fuel i : nat) (idval : pyval) (coll : list T)
    (reg : list nat) : list T * list nat * res unit :=
  match fuel with
  | O => (coll, reg, Ok tt)
  | S fuel' =>
      match coll !! i with
      | None => (coll, reg, Ok tt)
      | Some a =>
          if py_eq (attr "id" (node_of a)) idval then
            match remove_oid (oid (node_of a)) reg with
            | None => (coll, reg, Raise ValueError)
            | Some reg' =>
                match remove_obj (oid (node_of a)) coll with
                | None => (coll, reg', Raise ValueError)
                | Some coll' => scan_remove fuel' (S i) idval coll' reg'
                end
            end
          else scan_remove fuel' (S i) idval coll reg
      end
  end.

(** [coll.remove(a); coll.remove(a)], the loop for the devices of the
    root. *)
Fixpoint scan_remove_twice (fuel i : nat) (idval : pyval) (coll : list T)
  : list T * res unit :=
  match fuel with
  | O => (coll, Ok tt)
  | S fuel' =>
      match coll !! i with
      | None => (coll, Ok tt)
      | Some a =>
          if py_eq (attr "id" (node_of a)) idval then
            match remove_obj (oid (node_of a)) coll with
            | None => (coll, Raise ValueError)
            | Some coll' =>
                match remove_obj (oid (node_of a)) coll' with
                | None => (coll', Raise ValueError)
                | Some coll'' => scan_remove_twice fuel' (S i) idval coll''
                end
            end
          else scan_remove_twice fuel' (S i) idval coll
      end
  end.

(** [for idval in ids: if idval not in newids: for a in coll: ...] *)
Fixpoint root_remove_stale (ids newids : list pyval) (coll : list T)
    (reg : list nat) : list T * list nat * res unit :=
  match ids with
  | [] => (coll, reg, Ok tt)
  | idval :: ids' =>
      if negb (py_in idval newids) then
        let '(coll', reg', r) :=
          scan_remove (S (length coll)) 0 idval coll reg in
        match r with
        | Raise e => (coll', reg', Raise e)
        | Ok _ => root_remove_stale ids' newids coll' reg'
        end
      else root_remove_stale ids' newids coll reg
  end.

Fixpoint root_remove_stale_twice (ids newids : list pyval) (coll : list T)
  : list T * res unit :=
  match ids with
  | [] => (coll, Ok tt)
  | idval :: ids' =>
      if negb (py_in idval newids) then
        let '(coll', r) :=
          scan_remove_twice (S (length coll)) 0 idval coll in
        match r with
        | Raise e => (coll', Raise e)
        | Ok _ => root_remove_stale_twice ids' newids coll'
        end
      else root_remove_stale_twice ids' newids coll
  end.
End Collection.

(** ** String helpers of [Channel.initialize] *)

Definition is_digit (c : ascii) : bool :=
  let n := Ascii.N_of_ascii c in ((48 <=? n) && (n <=? 57))%N.

Fixpoint all_digits (s : string) : bool :=
  match s with
  | EmptyString => true
  | String c s' => is_digit c && all_digits s'
  end.

(** [s.isdigit()] *)
Definition isdigit (s : string) : bool :=
  negb (String.eqb s "") && all_digits s.

(** [s.replace(c, "")] for a one-character [c]. *)
Fixpoint remove_char (c : ascii) (s : string) : string :=
  match s with
  | EmptyString => EmptyString
  | String x s' =>
      if Ascii.eqb x c then remove_char c s' else String x (remove_char c s')
  end.

Fixpoint count_char (c : ascii) (s : string) : nat :=
  match s with
  | EmptyString => O
  | String x s' =>
      if Ascii.eqb x c then S (count_char c s') else count_char c s'
  end.

(** [s.split(c)] for a one-character separator. *)
Fixpoint split_on (c : ascii) (s : string) : list string :=
  match s with
  | EmptyString => [EmptyString]
  | String x s' =>
      if Ascii.eqb x c then EmptyString :: split_on c s'
      else match split_on c s' with
           | h :: t => String x h :: t
           | [] => [String x EmptyString]
           end
  end.

(** The number a text of digits writes in base ten. *)
Fixpoint digits_value (s : string) (acc : Z) : Z :=
  match s with
  | EmptyString => acc
  | String c s' =>
      digits_value s' (10 * acc + (Z.of_N (Ascii.N_of_ascii c) - 48))%Z
  end.

(** [int(text)] on the texts the numeric branch hands to it, which hold
    digits and dots only: the number a text of digits writes, a
    ValueError on a text with a dot. *)
Definition int_of_text (s : string) : res Z :=
  if isdigit s then Ok (digits_value s 0) else Raise ValueError.

(** A float, as far as the branch tells floats apart: it hands them to
    [int] only, which fails on infinity and on nothing else. *)
Inductive pyfloat := Finite | Infinity.

(** The least integer whose nearest double is infinity: the midpoint of
    the largest double, [2^1024 - 2^971], and [2^1024], from where
    rounding to even goes up. *)
Definition float_overflow : Z := (2 ^ 1024 - 2 ^ 970)%Z.

(** [float(n)] for an integer [n]. *)
Definition float_of_int (n : Z) : res pyfloat :=
  if (n <? float_overflow)%Z then Ok Finite else Raise OverflowError.

(** The digits before the first dot. *)
Definition whole_part (s : string) : string := nth 0 (split_on "." s) "".

(** [float(text)] on a text of digits and dots: a ValueError unless the
    text has a digit and at most one dot, else the nearest double, which
    is infinity from [float_overflow] on. *)
Definition float_of_text (s : string) : res pyfloat :=
  if isdigit (remove_char "." s) && (count_char "." s <=? 1)%nat then
    if (digits_value (whole_part s) 0 <? float_overflow)%Z then Ok Finite
    else Ok Infinity
  else Raise ValueError.

(** [int(x)] for a float [x].  The integer itself is not kept: see
    [numeric_reading]. *)
Definition int_of_float (x : pyfloat) : res unit :=
  match x with
  | Finite => Ok tt
  | Infinity => Raise OverflowError
  end.

(** The numeric branch of [Channel.initialize]:
    [try: int(...), float(...) except ValueError: float(...), int(...)]
    and then [self.unit = self.lastvalue.split(" ")[1]], whose value is
    returned.  Python versions that refuse to convert texts of more than
    4300 digits raise that ValueError inside the [try] block; the
    [except] block then comes to the end the model gives. *)
Definition numeric_reading (lv : string) : res string :=
  let txt := remove_char "," (nth 0 (split_on " " lv) "") in
  let converted :=
    match int_of_text txt with
    | Ok n =>
        match float_of_int n with
        | Ok _ => Ok tt
        | Raise e => Raise e
        end
    | Raise ValueError =>
        match float_of_text txt with
        | Ok x => int_of_float x
        | Raise e => Raise e
        end
    | Raise e => Raise e
    end in
  match converted with
  | Raise e => Raise e
  | Ok _ =>
      match split_on " " lv !! 1%nat with
      | Some unit => Ok unit
      | None => Raise IndexError
      end
  end.

(** ** Objects of the tree *)

Record Sensor := mkSensor {
  s_node : Node;
  s_channels : list Node
}.

Record Device := mkDevice {
  d_node : Node;
  d_sensors : list Sensor;
  d_allsensors : list nat;
  d_sensors_by_status : list (pyval * list nat)
}.

#[warnings="-register-all"]
Inductive Group := mkGroup {
  g_node : Node;
  g_groups : list Group;
  g_devices : list Device;
  g_allgroups : list nat;
  g_alldevices : list nat
}.

Record PRTGApi := mkApi {
  r_node : Node;
  probes : list Group;
  groups : list Group;
  devices : list Device;
  allprobes : list nat;
  allgroups : list nat;
  alldevices : list nat;
  allsensors : list nat;
  treesoup : option Soup
}.

(** [d[status].append(s)] when the key exists, [d[status] = [s]]
    otherwise; a dictionary keeps its keys in insertion order. *)
Fixpoint bucket_add (status : pyval) (o : nat)
    (idx : list (pyval * list nat)) : list (pyval * list nat) :=
  match idx with
  | [] => [(status, [o])]
  | (k, b) :: idx' =>
      if py_eq status k then (k, b ++ [o]) :: idx'
      else (k, b) :: bucket_add status o idx'
  end.

Definition empty_buckets : list (pyval * list nat) :=
  [(VStr "Up", []); (VStr "Down", []); (VStr "Warning", []);
   (VStr "Paused", [])].

Definition index_sensors (ss : list Sensor) : list (pyval * list nat) :=
  foldl (λ idx s, bucket_add (attr "status" (s_node s)) (oid (s_node s)) idx)
        empty_buckets ss.

(** ** Channel *)

(** [Channel.initialize].  The numeric branch is entered with a text of
    digits and dots.  Such a text has no space, so the branch never
    completes ([numeric_reading_raises]) and the object under
    construction is dropped: the numbers the branch would have stored in
    [lastvalue_int] and [lastvalue_float] are left out. *)
Definition Channel_initialize (self : Node) (channelsoup : Soup) : res Node :=
  let n1 := set_scalars (children channelsoup) self in
  let n2 := setattr "id" (attr "objid" n1) n1 in
  match attr "lastvalue" n2 with
  | VNone => Ok (setattr "type" (VStr "Channel") n2)
  | VInt _ => Raise AttributeError
  | VStr lv =>
      if isdigit (remove_char "." lv) then
        match numeric_reading lv with
        | Raise e => Raise e
        | Ok unit =>
            Ok (setattr "type" (VStr "Channel")
                  (setattr "unit" (VStr unit) n2))
        end
      else Ok (setattr "type" (VStr "Channel") n2)
  end.

(** [Channel(channelsoup, sensorid, confdata)] *)
Definition Channel_new (channelsoup : Soup) (sensorid : pyval)
    (conf : ConfData) (w : World) : World * res Node :=
  let pre := <["id" := VNone]> (<["lastvalue" := VNone]>
             (<["sensorid" := sensorid]> (unpack_config conf ∅))) in
  let self := mkNode (next_oid w) CChannel (prtgapi_init pre conf (VInt 0))
                     None conf in
  (alloc w, Channel_initialize self channelsoup).

Definition Channel_refresh (self : Node) (refreshsoup : Soup) : Node :=
  let n1 := set_scalars (children refreshsoup) self in
  setattr "id" (attr "objid" n1) n1.

(** ** Sensor *)

(** [Sensor(sensorsoup, deviceid, confdata)] *)
Definition Sensor_new (sensorsoup : Soup) (deviceid : pyval)
    (conf : ConfData) (w : World) : World * Sensor :=
  let pre := <["filepath" := VNone]> (<["deviceid" := deviceid]>
             (<["type" := VStr "Sensor"]> (unpack_config conf ∅))) in
  let self := mkNode (next_oid w) CSensor (prtgapi_init pre conf (VInt 0))
                     None conf in
  (alloc w,
   mkSensor (set_attributes (soup_attrs sensorsoup)
               (set_scalars (children sensorsoup) self)) []).


(** ** Documents the model covers *)

(** A scalar element as the sensor tree has them: a text element, or an
    empty element, never named like a collection, a registry or a method
    of the objects.  The loops give an empty element the string [""] in
    place; [id] and [objid], which are looked up again later, are
    therefore not empty. *)
Definition scalar_ok (c : Soup) : bool :=
  match c with
  | NavStr _ => true
  | Tag nm _ [NavStr _] => negb (bool_decide (nm ∈ reserved))
  | Tag nm _ [] =>
      negb (bool_decide (nm ∈ reserved))
      && negb (bool_decide (nm ∈ ["id"; "objid"]))
  | Tag _ _ _ => false
  end.

(** A sensor fragment, or an item of a channel table: scalars only. *)
Definition flat_ok (f : Soup) : bool := forallb scalar_ok (children f).

(** A device fragment: scalars and sensors. *)
Definition device_doc_ok (f : Soup) : bool :=
  forallb (λ c, if bool_decide (soup_name c = Some "sensor")
                then flat_ok c else scalar_ok c)
          (children f).

(** A group or probe fragment: scalars, devices and groups. *)
Fixpoint group_doc_ok (f : Soup) : bool :=
  match f with
  | NavStr _ => true
  | Tag _ _ cs =>
      forallb (λ c, if bool_decide (soup_name c = Some "device")
                    then device_doc_ok c
                    else if bool_decide (soup_name c = Some "group")
                    then group_doc_ok c
                    else scalar_ok c)
              cs
  end.

(** [d[k]], empty when the key is missing. *)
Fixpoint bucket (k : pyval) (idx : list (pyval * list nat)) : list nat :=
  match idx with
  | [] => []
  | (k', b) :: idx' => if py_eq k k' then b else bucket k idx'
  end.

(** ** Fragments as the server sends them *)

(** The id a refresh reads from a structural child:
    [child.find("id").string]. *)
Definition kid (c : Soup) : pyval :=
  match find_string "id" c with
  | Ok v => v
  | Raise _ => VNone
  end.

(** The children a loop treats as scalars: the named ones that are not of
    a structural kind of the level. *)
Definition is_scalar (kinds : list string) (c : Soup) : bool :=
  match c with
  | NavStr _ => false
  | Tag nm _ _ => negb (bool_decide (nm ∈ kinds))
  end.

Definition scalars (kinds : list string) (cs : list Soup) : list Soup :=
  filter (λ c, is_scalar kinds c = true) cs.

(** The value the last element named [name] binds, [cur] when there is
    none. *)
Fixpoint last_scalar (name : string) (cs : list Soup) (cur : option pyval)
  : option pyval :=
  match cs with
  | [] => cur
  | c :: cs' =>
      last_scalar name cs'
        (match c with
         | NavStr _ => cur
         | Tag nm _ _ =>
             if String.eqb nm name then Some (string_or_empty c) else cur
         end)
  end.

(** What a completed refresh against [c] makes of the node of the object:
    the scalar children in order, then [attributes]. *)
Definition sync (kinds : list string) (c : Soup) (n : Node) : Node :=
  set_attributes (soup_attrs c) (set_scalars (scalars kinds (children c)) n).

(** A structural child as the server writes it: its first [id] element,
    in document order, is its own and carries a string, and (for groups
    and devices, [typed]) it has no [type] element of its own. *)
Definition child_ok (kinds : list string) (typed : bool) (c : Soup) : bool :=
  match find_string "id" c with
  | Raise _ => false
  | Ok v =>
      bool_decide (last_scalar "id" (scalars kinds (children c)) None = Some v)
  end
  && (negb typed
      || bool_decide
           (last_scalar "type" (scalars kinds (children c)) None = None)).

Definition of_kind (kind : string) (cs : list Soup) : list Soup :=
  filter (λ c, soup_name c = Some kind) cs.

(** The children of one kind are well written and carry distinct ids. *)
Definition level_ok (kind : string) (kinds : list string) (typed : bool)
    (cs : list Soup) : bool :=
  forallb (child_ok kinds typed) (of_kind kind cs)
  && bool_decide (NoDup (map kid (of_kind kind cs))).

Definition device_fragment_ok (f : Soup) : bool :=
  device_doc_ok f && level_ok "sensor" [] false (children f).

Definition group_fragment_ok (f : Soup) : bool :=
  group_doc_ok f && level_ok "device" ["sensor"] true (children f)
  && level_ok "group" ["device"; "group"] true (children f).

(** Distinct objects have distinct identities, all allotted before. *)
Definition identities_ok {T} (node_of : T → Node) (w : World) (coll : list T)
  : Prop :=
  NoDup (oids_of node_of coll)
  ∧ Forall (λ x, (oid (node_of x) < next_oid w)%nat) coll.

(** ** Values of the historic data table *)

Record datetime := mkDatetime {
  year : Z; month : Z; day : Z; hour : Z; minute : Z; second : Z
}.

(** A cell of the returned table. *)
Inductive cell :=
| CStr (s : string)
| CTime (t : datetime).

(** [start] and [end] come as a [datetime] or as anything else, which is
    formatted as it is. *)
Inductive date_arg :=
| ADate (d : datetime)
| AValue (v : pyval).

Section Client.

(** The server: its answer to a URL, given the requests made before. *)
Variable server : list string → string → Response.
(** [BeautifulSoup(text, "lxml")] *)
Variable lxml : string → Soup.

(** ** ConnectionMethods.get_request *)

Definition request_url (self : Node) (url_string : string) (api : bool)
  : string :=
  (if api then py_str (attr "base_url" self)
   else py_str (attr "base_url_no_api" self))
  +:+ url_string +:+ "&" +:+ py_str (attr "url_auth" self).

Definition get_request (self : Node) (url_string : string) (api : bool)
    (w : World) : World * res (option Response) :=
  let url := request_url self url_string api in
  let req := server (log w) url in
  let w' := log_request url w in
  if (status_code req =? 200)%Z then (w', Ok (Some req))
  else if (status_code req =? 401)%Z then
    (w', Raise (AuthenticationError
                  "PRTG authentication failed. Check credentials in config file"))
  else if (status_code req =? 404)%Z then
    (w', Raise (ResourceNotFound ("No resource at URL used: " +:+ url)))
  else (w', Ok None).

(** ** BaseConfig *)

Definition upper_ascii (c : ascii) : ascii :=
  let n := Ascii.N_of_ascii c in
  if ((97 <=? n) && (n <=? 122))%N then Ascii.ascii_of_N (n - 32) else c.

Fixpoint upper (s : string) : string :=
  match s with
  | EmptyString => EmptyString
  | String c s' => String (upper_ascii c) (upper s')
  end.

Definition prompt : string := "Would you like to continue?(Y/[N])  ".

(** The confirmation loop of [delete]: reads until the answer is Y or N;
    an empty line counts as N; [input] raises at end of input. *)
Fixpoint confirm_loop (inp : list string) (out : list string)
  : list string * list string * res string :=
  match inp with
  | [] => ([], out ++ [prompt], Raise EOFError)
  | line :: rest =>
      let response := if String.eqb line "" then "N" else line in
      if bool_decide (upper response ∈ ["Y"; "N"])
      then (rest, out ++ [prompt], Ok response)
      else confirm_loop rest (out ++ [prompt])
  end.

(** [BaseConfig.delete]: the result is the returned string, if any. *)
Definition delete_url (self : Node) : string :=
  "deleteobject.htm?id=" +:+ py_str (attr "id" self) +:+ "&approve=1".

Definition BaseConfig_delete (self : Node) (confirm : bool) (w : World)
  : World * res (option string) :=
  if py_eq (attr "type" self) (VStr "Root")
  then (w, Ok (Some "You cannot delete the root object."))
  else
    if confirm then
      let '(inp, out, r) := confirm_loop (stdin w) (stdout w) in
      let w1 := mkWorld (log w) inp out (next_oid w) in
      match r with
      | Raise e => (w1, Raise e)
      | Ok response =>
          if String.eqb (upper response) "Y" then
            let '(w2, r2) := get_request self (delete_url self) true w1 in
            match r2 with
            | Raise e => (w2, Raise e)
            | Ok _ => (w2, Ok None)
            end
          else (w1, Ok None)
      end
    else
      let '(w2, r2) := get_request self (delete_url self) true w in
      match r2 with
      | Raise e => (w2, Raise e)
      | Ok _ => (w2, Ok None)
      end.

Definition setprop_url (self : Node) (name : string) (value : pyval)
  : string :=
  if negb (py_eq (attr "type" self) (VStr "Channel")) then
    "setobjectproperty.htm?id=" +:+ py_str (attr "id" self)
    +:+ "&name=" +:+ name +:+ "&value=" +:+ py_str value
  else
    "setobjectproperty.htm?id=" +:+ py_str (attr "sensorid" self)
    +:+ "&subid=" +:+ py_str (attr "objid" self)
    +:+ "&name=" +:+ name +:+ "&value=" +:+ py_str value.

Definition set_property (self : Node) (name : string) (value : pyval)
    (w : World) : World * Node * res unit :=
  let '(w1, r) := get_request self (setprop_url self name value) true w in
  match r with
  | Raise e => (w1, self, Raise e)
  | Ok _ => (w1, setattr "name" value self, Ok tt)
  end.

Definition getprop_url (self : Node) (name : string) : string :=
  if negb (py_eq (attr "type" self) (VStr "Channel")) then
    "getobjectproperty.htm?id=" +:+ py_str (attr "id" self)
    +:+ "&name=" +:+ name +:+ "&show=text"
  else
    "getobjectproperty.htm?id=" +:+ py_str (attr "sensorid" self)
    +:+ "&subid=" +:+ py_str (attr "objid" self)
    +:+ "&name=" +:+ name.

Definition get_property (self : Node) (name : string) (w : World)
  : World * Node * res string :=
  let '(w1, r) := get_request self (getprop_url self name) true w in
  match r with
  | Raise e => (w1, self, Raise e)
  | Ok None => (w1, self, Raise AttributeError)
  | Ok (Some req) =>
      match find "result" (lxml (text req)) with
      | None => (w1, self, Raise AttributeError)
      | Some result =>
          if negb (String.eqb (get_text result) "(Property not found)")
          then (w1, setattr name (VStr (get_text result)) self,
                Ok (get_text result))
          else (w1, self,
                Raise (ResourceNotFound
                         ("No object property of name: " +:+ name)))
      end
  end.

Definition set_interval (self : Node) (interval : pyval) (w : World)
  : World * Node * res unit :=
  set_property self "interval" interval w.

(** [BaseConfig.get_tree] *)
Definition get_tree (self : Node) (root : pyval) (w : World)
  : World * res Soup :=
  let tree_url :=
    "table.xml?content=sensortree&output=xml&id=" +:+ py_str root in
  let '(w1, r) := get_request self tree_url true w in
  match r with
  | Raise e => (w1, Raise e)
  | Ok None => (w1, Raise AttributeError)
  | Ok (Some req) =>
      let treesoup := lxml (text req) in
      match find "sensortree" treesoup with
      | None => (w1, Raise AttributeError)
      | Some st =>
          match find "nodes" st with
          | Some _ => (w1, Ok treesoup)
          | None =>
              (w1, Raise (ResourceNotFound
                            ("No objects at ID: " +:+ py_str root)))
          end
      end
  end.

Definition BaseConfig_rename (self : Node) (newname : string) (w : World)
  : World * Node * res unit :=
  let rename_url :=
    "rename.htm?id=" +:+ py_str (attr "id" self) +:+ "&value=" +:+ newname in
  let '(w1, r) := get_request self rename_url true w in
  match r with
  | Raise e => (w1, self, Raise e)
  | Ok _ => (w1, setattr "name" (VStr newname) self, Ok tt)
  end.

Definition pause_url (self : Node) (duration : Z) (message : string)
  : string :=
  (if (0 <? duration)%Z then
     "pauseobjectfor.htm?id=" +:+ py_str (attr "id" self)
     +:+ "&duration=" +:+ pretty duration
   else "pause.htm?id=" +:+ py_str (attr "id" self) +:+ "&action=0")
  +:+ (if String.eqb message "" then "" else "&pausemsg=" +:+ message).

Definition BaseConfig_pause (self : Node) (duration : Z) (message : string)
    (w : World) : World * Node * res unit :=
  let '(w1, r) := get_request self (pause_url self duration message) true w in
  match r with
  | Raise e => (w1, self, Raise e)
  | Ok _ =>
      (w1,
       setattr "status_raw" (VStr "7")
         (setattr "active" (VStr "false")
            (setattr "status" (VStr "Paused") self)),
       Ok tt)
  end.

Definition BaseConfig_resume (self : Node) (w : World)
  : World * Node * res unit :=
  let resume_url :=
    "pause.htm?id=" +:+ py_str (attr "id" self) +:+ "&action=1" in
  let '(w1, r) := get_request self resume_url true w in
  match r with
  | Raise e => (w1, self, Raise e)
  | Ok _ =>
      (w1,
       setattr "status_raw" (VStr "?")
         (setattr "active" (VStr "true")
            (setattr "status" (VStr "?") self)),
       Ok tt)
  end.

(** ** Channel overrides *)

Definition channel_pause_url (self : Node) (duration : Z) (message : string)
  : string :=
  (if (0 <? duration)%Z then
     "pauseobjectfor.htm?id=" +:+ py_str (attr "sensorid" self)
     +:+ "&duration=" +:+ pretty duration
   else "pause.htm?id=" +:+ py_str (attr "sensorid" self) +:+ "&action=0&")
  +:+ (if String.eqb message "" then "" else "&pausemsg=" +:+ message).

Definition Channel_pause (self : Node) (duration : Z) (message : string)
    (w : World) : World * Node * res unit :=
  let w0 := print "Channels cannot be paused, pausing parent sensor." w in
  let '(w1, r) :=
    get_request self (channel_pause_url self duration message) true w0 in
  match r with
  | Raise e => (w1, self, Raise e)
  | Ok _ => (w1, self, Ok tt)
  end.

Definition Channel_delete (self : Node) (confirm : bool) (w : World)
  : World * res (option string) :=
  (w, Ok (Some "You cannot delete a channel")).

(** Method resolution on the class of the receiver. *)
Definition pause (self : Node) (duration : Z) (message : string) (w : World)
  : World * Node * res unit :=
  match cls self with
  | CChannel => Channel_pause self duration message w
  | _ => BaseConfig_pause self duration message w
  end.

Definition delete (self : Node) (confirm : bool) (w : World)
  : World * res (option string) :=
  match cls self with
  | CChannel => Channel_delete self confirm w
  | _ => BaseConfig_delete self confirm w
  end.

(** ** Sensor *)

(** [for child in items: self.channels.append(Channel(...))] *)
Fixpoint append_channels (items : list Soup) (self : Sensor) (w : World)
  : World * Sensor * res unit :=
  match items with
  | [] => (w, self, Ok tt)
  | child :: items' =>
      let '(w1, r) := Channel_new child (attr "id" (s_node self))
                        (confdata (s_node self)) w in
      match r with
      | Raise e => (w1, self, Raise e)
      | Ok ch =>
          append_channels items'
            (mkSensor (s_node self) (s_channels self ++ [ch])) w1
      end
  end.

(** [for child in items: for achannel in self.channels:
       if achannel.objid == child.find("objid").string:
         achannel.refresh(child)] *)
Fixpoint refresh_channels (items : list Soup) (chs : list Node)
  : list Node * res unit :=
  match items with
  | [] => (chs, Ok tt)
  | child :: items' =>
      match chs with
      | [] => refresh_channels items' chs
      | _ :: _ =>
          match find_string "objid" child with
          | Raise e => (chs, Raise e)
          | Ok cid =>
              refresh_channels items'
                (map (λ ch, if py_eq (attr "objid" ch) cid
                            then Channel_refresh ch child else ch) chs)
          end
      end
  end.

Definition channel_url (self : Node) : string :=
  "table.xml?content=channels&output=xml&columns=name,lastvalue_,objid&id="
  +:+ py_str (attr "id" self).

Definition Sensor_get_channels (self : Sensor) (w : World)
  : World * Sensor * res unit :=
  let '(w1, r) := get_request (s_node self) (channel_url (s_node self)) true w in
  match r with
  | Raise e => (w1, self, Raise e)
  | Ok None => (w1, self, Raise AttributeError)
  | Ok (Some req) =>
      let channelsoup := lxml (text req) in
      match s_channels self with
      | [] => append_channels (find_all "item" channelsoup) self w1
      | _ :: _ =>
          let '(chs, r1) :=
            refresh_channels (find_all "item" channelsoup) (s_channels self) in
          (w1, mkSensor (s_node self) chs, r1)
      end
  end.

(** [Sensor.refresh] once the fragment is at hand. *)
Definition Sensor_refresh_soup (sensorsoup : Soup) (self : Sensor) (w : World)
  : World * Sensor * res unit :=
  match sensorsoup with
  | NavStr _ => (w, self, Raise AttributeError)
  | Tag _ a cs =>
      let self1 :=
        mkSensor (set_attributes a (set_scalars cs (s_node self)))
                 (s_channels self) in
      match s_channels self with
      | [] => (w, self1, Ok tt)
      | _ :: _ => Sensor_get_channels self1 w
      end
  end.

(** [soup.sensortree.nodes.<kind>] *)
Definition tree_fragment (kind : string) (soup : Soup) : res Soup :=
  match find "sensortree" soup with
  | None => Raise AttributeError
  | Some st =>
      match find "nodes" st with
      | None => Raise AttributeError
      | Some nodes =>
          match find kind nodes with
          | None => Raise AttributeError
          | Some f => Ok f
          end
      end
  end.

(** [get_tree(root=self.id)] followed by [soup.sensortree.nodes.<kind>];
    [None.children] raises when the kind is missing. *)
Definition fetch_fragment (self : Node) (kind : string) (w : World)
  : World * res Soup :=
  let '(w1, r) := get_tree self (attr "id" self) w in
  match r with
  | Raise e => (w1, Raise e)
  | Ok soup => (w1, tree_fragment kind soup)
  end.

Definition Sensor_refresh (self : Sensor) (refreshsoup : option Soup)
    (w : World) : World * Sensor * res unit :=
  match refreshsoup with
  | Some sensorsoup => Sensor_refresh_soup sensorsoup self w
  | None =>
      let '(w1, r) := fetch_fragment (s_node self) "sensor" w in
      match r with
      | Raise e => (w1, self, Raise e)
      | Ok sensorsoup => Sensor_refresh_soup sensorsoup self w1
      end
  end.

(** ** Device *)

Definition Device_init_step (child : Soup) (self : Device) (w : World)
  : World * Device :=
  match child with
  | NavStr _ => (w, self)
  | Tag nm _ _ =>
      if String.eqb nm "sensor" then
        let '(w1, sensorobj) :=
          Sensor_new child (attr "id" (d_node self))
                     (confdata (d_node self)) w in
        (w1, mkDevice (d_node self) (d_sensors self ++ [sensorobj])
               (d_allsensors self ++ [oid (s_node sensorobj)])
               (d_sensors_by_status self))
      else
        (w, mkDevice (setattr nm (string_or_empty child) (d_node self))
              (d_sensors self) (d_allsensors self)
              (d_sensors_by_status self))
  end.

(** [Device(devicesoup, confdata)] *)
Definition Device_new (devicesoup : Soup) (conf : ConfData) (w : World)
  : World * Device :=
  let self := mkNode (next_oid w) CDevice
                (prtgapi_init (unpack_config conf ∅) conf (VInt 0))
                None conf in
  let '(w1, d1) :=
    build_children Device_init_step (children devicesoup)
      (mkDevice self [] [] []) (alloc w) in
  (w1,
   mkDevice
     (setattr "type" (VStr "Device")
        (set_attributes (soup_attrs devicesoup) (d_node d1)))
     (d_sensors d1) (d_allsensors d1) (index_sensors (d_sensors d1))).

(** One round of the loop of [Device.refresh]; the state pairs the device
    with [newsensorids]. *)
Definition Device_refresh_step (sensorids : list pyval) (child : Soup)
    (st : Device * list pyval) (w : World)
  : World * (Device * list pyval) * res unit :=
  let '(self, newsensorids) := st in
  match child with
  | NavStr _ => (w, st, Ok tt)
  | Tag nm _ _ =>
      if String.eqb nm "sensor" then
        match find_string "id" child with
        | Raise e => (w, st, Raise e)
        | Ok cid =>
            let '(w1, (ss, reg, nids), r) :=
              reconcile_child s_node (Sensor_refresh_soup child)
                (Sensor_new child (attr "id" (d_node self))
                   (confdata (d_node self)))
                sensorids cid (d_sensors self) (d_allsensors self)
                newsensorids w in
            (w1,
             (mkDevice (d_node self) ss reg (d_sensors_by_status self), nids),
             r)
        end
      else
        (w,
         (mkDevice (setattr nm (string_or_empty child) (d_node self))
            (d_sensors self) (d_allsensors self) (d_sensors_by_status self),
          newsensorids),
         Ok tt)
  end.

Definition Device_refresh_soup (devicesoup : Soup) (self : Device) (w : World)
  : World * Device * res unit :=
  match devicesoup with
  | NavStr _ => (w, self, Raise AttributeError)
  | Tag _ a cs =>
      let sensorids := ids_of s_node (d_sensors self) in
      let '(w1, (d1, newsensorids), r) :=
        for_children (Device_refresh_step sensorids) cs (self, []) w in
      match r with
      | Raise e => (w1, d1, Raise e)
      | Ok _ =>
          let '(ss, reg, r2) :=
            remove_stale s_node sensorids newsensorids None
              (d_sensors d1) (d_allsensors d1) in
          let d2 := mkDevice (d_node d1) ss reg (d_sensors_by_status d1) in
          match r2 with
          | Raise e => (w1, d2, Raise e)
          | Ok _ =>
              (w1,
               mkDevice (set_attributes a (d_node d2)) ss reg
                 (d_sensors_by_status d1),
               Ok tt)
          end
      end
  end.

Definition Device_refresh (self : Device) (refreshsoup : option Soup)
    (w : World) : World * Device * res unit :=
  match refreshsoup with
  | Some devicesoup => Device_refresh_soup devicesoup self w
  | None =>
      let '(w1, r) := fetch_fragment (d_node self) "device" w in
      match r with
      | Raise e => (w1, self, Raise e)
      | Ok devicesoup => Device_refresh_soup devicesoup self w1
      end
  end.

(** ** Group and Probe *)

Definition g_with_node (n : Node) (g : Group) : Group :=
  mkGroup n (g_groups g) (g_devices g) (g_allgroups g) (g_alldevices g).

Definition g_add_device (d : Device) (g : Group) : Group :=
  mkGroup (g_node g) (g_groups g) (g_devices g ++ [d]) (g_allgroups g)
          (g_alldevices g ++ [oid (d_node d)]).

Definition g_add_group (x : Group) (g : Group) : Group :=
  mkGroup (g_node g) (g_groups g ++ [x]) (g_devices g)
          (g_allgroups g ++ [oid (g_node x)]) (g_alldevices g).

(** One round of the loop of [Group.initialize]; [new_group] is
    [Group(child, self.confdata)]. *)
Definition Group_init_step
    (new_group : Soup → ConfData → World → World * Group)
    (child : Soup) (self : Group) (w : World) : World * Group :=
  match child with
  | NavStr _ => (w, self)
  | Tag nm _ _ =>
      if String.eqb nm "device" then
        let '(w1, deviceobj) :=
          Device_new child (confdata (g_node self)) w in
        (w1, g_add_device deviceobj self)
      else if String.eqb nm "group" then
        let '(w1, groupobj) := new_group child (confdata (g_node self)) w in
        (w1, g_add_group groupobj self)
      else
        (w, g_with_node (setattr nm (string_or_empty child) (g_node self))
              self)
  end.

(** [Group(groupsoup, confdata)], and [Probe(...)] with [c := CProbe]:
    the class attribute [type = "Probe"] is shadowed by the instance
    attribute that [__init__] and [initialize] bind. *)
Fixpoint Group_new (c : Class) (groupsoup : Soup) (conf : ConfData)
    (w : World) {struct groupsoup} : World * Group :=
  let self := mkNode (next_oid w) c
                (prtgapi_init (unpack_config conf ∅) conf (VInt 0))
                None conf in
  let '(w1, g1) :=
    match groupsoup with
    | NavStr _ => (alloc w, mkGroup self [] [] [] [])
    | Tag _ _ cs =>
        build_children (Group_init_step (Group_new CGroup)) cs
          (mkGroup self [] [] [] []) (alloc w)
    end in
  (w1,
   g_with_node
     (setattr "type" (VStr "Group")
        (set_attributes (soup_attrs groupsoup) (g_node g1))) g1).

(** The state of the loop of [Group.refresh]: the group, [newdeviceids]
    and [newgroupids]. *)
Definition GroupLoop : Type := Group * list pyval * list pyval.

(** One round of the loop of [Group.refresh]; [refresh_group] is
    [agroup.refresh(child)]. *)
Definition Group_refresh_step
    (refresh_group : Soup → Group → World → World * Group * res unit)
    (deviceids groupids : list pyval) (child : Soup) (st : GroupLoop)
    (w : World) : World * GroupLoop * res unit :=
  let '(self, newdeviceids, newgroupids) := st in
  match child with
  | NavStr _ => (w, st, Ok tt)
  | Tag nm _ _ =>
      if String.eqb nm "device" then
        match find_string "id" child with
        | Raise e => (w, st, Raise e)
        | Ok cid =>
            let '(w1, (ds, reg, nids), r) :=
              reconcile_child d_node (Device_refresh_soup child)
                (Device_new child (confdata (g_node self)))
                deviceids cid (g_devices self) (g_alldevices self)
                newdeviceids w in
            (w1,
             (mkGroup (g_node self) (g_groups self) ds (g_allgroups self) reg,
              nids, newgroupids),
             r)
        end
      else if String.eqb nm "group" then
        match find_string "id" child with
        | Raise e => (w, st, Raise e)
        | Ok cid =>
            let '(w1, (gs, reg, nids), r) :=
              reconcile_child g_node (refresh_group child)
                (Group_new CGroup child (confdata (g_node self)))
                groupids cid (g_groups self) (g_allgroups self)
                newgroupids w in
            (w1,
             (mkGroup (g_node self) gs (g_devices self) reg
                (g_alldevices self),
              newdeviceids, nids),
             r)
        end
      else
        (w,
         (g_with_node (setattr nm (string_or_empty child) (g_node self)) self,
          newdeviceids, newgroupids),
         Ok tt)
  end.

(** What follows the loop of [Group.refresh]: the two removal loops and
    [setattr(self, "attributes", groupsoup.attrs)]. *)
Definition Group_refresh_finish (a : list (string * string))
    (deviceids groupids newdeviceids newgroupids : list pyval) (g1 : Group)
  : Group * res unit :=
  let '(ds, dreg, r2) :=
    remove_stale d_node deviceids newdeviceids None
      (g_devices g1) (g_alldevices g1) in
  let g2 := mkGroup (g_node g1) (g_groups g1) ds (g_allgroups g1) dreg in
  match r2 with
  | Raise e => (g2, Raise e)
  | Ok _ =>
      let '(gs, greg, r3) :=
        remove_stale g_node groupids newgroupids None
          (g_groups g2) (g_allgroups g2) in
      let g3 := mkGroup (g_node g2) gs ds greg dreg in
      match r3 with
      | Raise e => (g3, Raise e)
      | Ok _ => (g_with_node (set_attributes a (g_node g3)) g3, Ok tt)
      end
  end.

(** [Group.refresh] once the fragment is at hand. *)
Fixpoint Group_refresh_soup (groupsoup : Soup) (self : Group) (w : World)
    {struct groupsoup} : World * Group * res unit :=
  match groupsoup with
  | NavStr _ => (w, self, Raise AttributeError)
  | Tag _ a cs =>
      let deviceids := ids_of d_node (g_devices self) in
      let groupids := ids_of g_node (g_groups self) in
      let '(w1, (g1, newdeviceids, newgroupids), r) :=
        for_children (Group_refresh_step Group_refresh_soup deviceids groupids)
          cs (self, [], []) w in
      match r with
      | Raise e => (w1, g1, Raise e)
      | Ok _ =>
          let '(g2, r2) :=
            Group_refresh_finish a deviceids groupids newdeviceids
              newgroupids g1 in
          (w1, g2, r2)
      end
  end.

Definition Group_refresh (self : Group) (refreshsoup : option Soup)
    (w : World) : World * Group * res unit :=
  match refreshsoup with
  | Some groupsoup => Group_refresh_soup groupsoup self w
  | None =>
      if py_eq (attr "type" (g_node self)) (VStr "Group") then
        let '(w1, r) := fetch_fragment (g_node self) "group" w in
        match r with
        | Raise e => (w1, self, Raise e)
        | Ok groupsoup => Group_refresh_soup groupsoup self w1
        end
      else if py_eq (attr "type" (g_node self)) (VStr "Probe") then
        let '(w1, r) := fetch_fragment (g_node self) "probenode" w in
        match r with
        | Raise e => (w1, self, Raise e)
        | Ok groupsoup => Group_refresh_soup groupsoup self w1
        end
      else (w, self, Raise AttributeError)
  end.

(** ** PRTGApi, the root client *)

Definition r_with_node (n : Node) (r : PRTGApi) : PRTGApi :=
  mkApi n (probes r) (groups r) (devices r) (allprobes r) (allgroups r)
        (alldevices r) (allsensors r) (treesoup r).

Definition r_add_probe (x : Group) (r : PRTGApi) : PRTGApi :=
  mkApi (r_node r) (probes r ++ [x]) (groups r) (devices r)
        (allprobes r ++ [oid (g_node x)]) (allgroups r) (alldevices r)
        (allsensors r) (treesoup r).

Definition r_add_group (x : Group) (r : PRTGApi) : PRTGApi :=
  mkApi (r_node r) (probes r) (groups r ++ [x]) (devices r)
        (allprobes r) (allgroups r ++ [oid (g_node x)]) (alldevices r)
        (allsensors r) (treesoup r).

Definition r_add_device (d : Device) (r : PRTGApi) : PRTGApi :=
  mkApi (r_node r) (probes r) (groups r) (devices r ++ [d])
        (allprobes r) (allgroups r) (alldevices r ++ [oid (d_node d)])
        (allsensors r) (treesoup r).

(** [self.treesoup.sensortree.nodes] *)
Definition tree_nodes (soup : Soup) : res Soup :=
  match find "sensortree" soup with
  | None => Raise AttributeError
  | Some st =>
      match find "nodes" st with
      | None => Raise AttributeError
      | Some nodes => Ok nodes
      end
  end.

Definition PRTGApi_init_step (childr : Soup) (self : PRTGApi) (w : World)
  : World * PRTGApi :=
  match childr with
  | NavStr _ => (w, self)
  | Tag nm _ _ =>
      if String.eqb nm "probenode" then
        let '(w1, probeobj) :=
          Group_new CProbe childr (confdata (r_node self)) w in
        (w1, r_add_probe probeobj self)
      else if String.eqb nm "device" then
        let '(w1, deviceobj) :=
          Device_new childr (confdata (r_node self)) w in
        (w1, r_add_device deviceobj self)
      else if String.eqb nm "group" then
        let '(w1, groupobj) :=
          Group_new CGroup childr (confdata (r_node self)) w in
        (w1, r_add_group groupobj self)
      else
        (w, r_with_node (setattr nm (string_or_empty childr) (r_node self))
              self)
  end.

(** [PRTGApi(host, user, passhash, rootid, protocol, port, verify)] *)
Definition PRTGApi_new (host user passhash rootid protocol port : pyval)
    (verify : bool) (w : World) : World * res PRTGApi :=
  let conf := mkConf host port user passhash protocol verify in
  let self := mkNode (next_oid w) CPRTGApi (prtgapi_init ∅ conf rootid)
                None conf in
  let '(w1, r) := get_tree self (attr "id" self) (alloc w) in
  match r with
  | Raise e => (w1, Raise e)
  | Ok soup =>
      match tree_nodes soup with
      | Raise e => (w1, Raise e)
      | Ok nodes =>
          let '(w2, api) :=
            build_children
              (λ child api w0,
                 match child with
                 | NavStr _ => (w0, api)
                 | Tag _ _ cs => build_children PRTGApi_init_step cs api w0
                 end)
              (children nodes)
              (mkApi self [] [] [] [] [] [] [] (Some soup)) w1 in
          (w2, Ok api)
      end
  end.

(** The state of the loop of [PRTGApi.refresh]: the client,
    [newprobeids], [newgroupids] and [newdeviceids]. *)
Definition ApiLoop : Type := PRTGApi * list pyval * list pyval * list pyval.

Definition PRTGApi_refresh_step (probeids groupids deviceids : list pyval)
    (childr : Soup) (st : ApiLoop) (w : World)
  : World * ApiLoop * res unit :=
  let '(self, np, ng, nd) := st in
  match childr with
  | NavStr _ => (w, st, Ok tt)
  | Tag nm _ _ =>
      if String.eqb nm "probenode" then
        match find_string "id" childr with
        | Raise e => (w, st, Raise e)
        | Ok cid =>
            let '(w1, (ps, reg, nids), r) :=
              reconcile_child g_node (Group_refresh_soup childr)
                (Group_new CProbe childr (confdata (r_node self)))
                probeids cid (probes self) (allprobes self) np w in
            (w1,
             (mkApi (r_node self) ps (groups self) (devices self) reg
                (allgroups self) (alldevices self) (allsensors self)
                (treesoup self),
              nids, ng, nd),
             r)
        end
      else if String.eqb nm "group" then
        match find_string "id" childr with
        | Raise e => (w, st, Raise e)
        | Ok cid =>
            let '(w1, (gs, reg, nids), r) :=
              reconcile_child g_node (Group_refresh_soup childr)
                (Group_new CGroup childr (confdata (r_node self)))
                groupids cid (groups self) (allgroups self) ng w in
            (w1,
             (mkApi (r_node self) (probes self) gs (devices self)
                (allprobes self) reg (alldevices self) (allsensors self)
                (treesoup self),
              np, nids, nd),
             r)
        end
      else if String.eqb nm "device" then
        match find_string "id" childr with
        | Raise e => (w, st, Raise e)
        | Ok cid =>
            let '(w1, (ds, reg, nids), r) :=
              reconcile_child d_node (Device_refresh_soup childr)
                (Device_new childr (confdata (r_node self)))
                deviceids cid (devices self) (alldevices self) nd w in
            (w1,
             (mkApi (r_node self) (probes self) (groups self) ds
                (allprobes self) (allgroups self) reg (allsensors self)
                (treesoup self),
              np, ng, nids),
             r)
        end
      else
        (w,
         (r_with_node (setattr nm (string_or_empty childr) (r_node self))
            self, np, ng, nd),
         Ok tt)
  end.

(** [PRTGApi.refresh] once the document is at hand. *)
Definition PRTGApi_refresh_soup (refreshsoup : Soup) (self : PRTGApi)
    (w : World) : World * PRTGApi * res unit :=
  let self0 :=
    mkApi (r_node self) (probes self) (groups self) (devices self)
          (allprobes self) (allgroups self) (alldevices self)
          (allsensors self) (Some refreshsoup) in
  let probeids := ids_of g_node (probes self0) in
  let groupids := ids_of g_node (groups self0) in
  let deviceids := ids_of d_node (devices self0) in
  match tree_nodes refreshsoup with
  | Raise e => (w, self0, Raise e)
  | Ok nodes =>
      let '(w1, (r1, np, ng, nd), r) :=
        for_children
          (λ child (st : ApiLoop) w0,
             match child with
             | NavStr _ => (w0, st, Ok tt)
             | Tag _ _ cs =>
                 for_children
                   (PRTGApi_refresh_step probeids groupids deviceids)
                   cs st w0
             end)
          (children nodes) (self0, [], [], []) w in
      match r with
      | Raise e => (w1, r1, Raise e)
      | Ok _ =>
          let '(ps, preg, rp) :=
            root_remove_stale g_node probeids np (probes r1) (allprobes r1) in
          let r2 := mkApi (r_node r1) ps (groups r1) (devices r1) preg
                      (allgroups r1) (alldevices r1) (allsensors r1)
                      (treesoup r1) in
          match rp with
          | Raise e => (w1, r2, Raise e)
          | Ok _ =>
              let '(gs, greg, rg) :=
                root_remove_stale g_node groupids ng (groups r2)
                  (allgroups r2) in
              let r3 := mkApi (r_node r2) ps gs (devices r2) preg greg
                          (alldevices r2) (allsensors r2) (treesoup r2) in
              match rg with
              | Raise e => (w1, r3, Raise e)
              | Ok _ =>
                  let '(ds, rd) :=
                    root_remove_stale_twice d_node deviceids nd
                      (devices r3) in
                  (w1,
                   mkApi (r_node r3) ps gs ds preg greg (alldevices r3)
                         (allsensors r3) (treesoup r3),
                   rd)
              end
          end
      end
  end.

Definition PRTGApi_refresh (self : PRTGApi) (refreshsoup : option Soup)
    (w : World) : World * PRTGApi * res unit :=
  match refreshsoup with
  | Some soup => PRTGApi_refresh_soup soup self w
  | None =>
      let '(w1, r) := get_tree (r_node self) (attr "id" (r_node self)) w in
      match r with
      | Raise e => (w1, self, Raise e)
      | Ok soup => PRTGApi_refresh_soup soup self w1
      end
  end.

(** ** PRTGHistoricData *)

(** [csv.reader(lines)], read to its end. *)
Variable csv_reader : list string → list (list string).
(** [datetime.strptime(text, format)]; [None] stands for ValueError. *)
Variable strptime : string → string → option datetime.
(** [dateobj.strftime(format)] *)
Variable strftime : datetime → string → string.

Definition format_date (dateobj : datetime) : string :=
  strftime dateobj "%Y-%m-%d-%H-%M-%S".

Definition date_text (a : date_arg) : string :=
  match a with
  | ADate d => format_date d
  | AValue v => py_str v
  end.

Definition newline : ascii := Ascii.ascii_of_nat 10.

(** [l[:-2]] *)
Definition drop_last_two {A} (l : list A) : list A :=
  take (length l - 2) l.

(** [sub in s] *)
Definition contains (sub s : string) : bool :=
  match String.index 0 sub s with
  | Some _ => true
  | None => false
  end.

(** One cell of a data row: [data[headers[inde]].append(...)] *)
Definition add_cell (headers : list string) (inde : nat) (c : string)
    (data : gmap string (list cell)) : res (gmap string (list cell)) :=
  match headers !! inde with
  | None => Raise IndexError
  | Some h =>
      if String.eqb h "Date Time" then
        let stripped :=
          if contains "-" c then
            match String.index 0 " -" c with
            | Some i => Ok (String.substring 0 i c)
            | None => Raise ValueError
            end
          else Ok c in
        match stripped with
        | Raise e => Raise e
        | Ok c' =>
            match strptime c' "%m/%d/%Y %I:%M:%S %p" with
            | None => Raise ValueError
            | Some t =>
                match data !! h with
                | None => Raise KeyError
                | Some col => Ok (<[h := col ++ [CTime t]]> data)
                end
            end
        end
      else
        match data !! h with
        | None => Raise KeyError
        | Some col => Ok (<[h := col ++ [CStr c]]> data)
        end
  end.

(** [for inde, cell in enumerate(row)] *)
Fixpoint add_row (headers : list string) (inde : nat) (row : list string)
    (data : gmap string (list cell)) : res (gmap string (list cell)) :=
  match row with
  | [] => Ok data
  | c :: row' =>
      match add_cell headers inde c data with
      | Raise e => Raise e
      | Ok data' => add_row headers (S inde) row' data'
      end
  end.

Fixpoint add_rows (headers : list string) (rows : list (list string))
    (data : gmap string (list cell)) : res (gmap string (list cell)) :=
  match rows with
  | [] => Ok data
  | row :: rows' =>
      match add_row headers 0 row data with
      | Raise e => Raise e
      | Ok data' => add_rows headers rows' data'
      end
  end.

(** [for header in headers: data[header] = []] *)
Definition empty_columns (headers : list string) : gmap string (list cell) :=
  foldl (λ data header, <[header := []]> data) ∅ headers.

(** [for ind, row in enumerate(csv_reader)] *)
Definition read_table (rows : list (list string))
  : res (gmap string (list cell)) :=
  match rows with
  | [] => Ok ∅
  | headers :: body => add_rows headers body (empty_columns headers)
  end.

Definition historic_url (objid : pyval) (startdate enddate : date_arg)
    (timeaverage : pyval) : string :=
  "historicdata.csv?id=" +:+ py_str objid +:+ "&avg="
  +:+ py_str timeaverage +:+ "&sdate=" +:+ date_text startdate
  +:+ "&edate=" +:+ date_text enddate.

Definition get_historic_data (self : Node) (objid : pyval)
    (startdate enddate : date_arg) (timeaverage : pyval) (w : World)
  : World * res (gmap string (list cell)) :=
  let '(w1, r) :=
    get_request self (historic_url objid startdate enddate timeaverage)
      true w in
  match r with
  | Raise e => (w1, Raise e)
  | Ok None => (w1, Raise AttributeError)
  | Ok (Some req) =>
      let csv_lines := drop_last_two (split_on newline (text req)) in
      (w1, read_table (csv_reader csv_lines))
  end.

(** *** The table as the specification words it *)

(** The text of a "Date Time" cell without its " -"-prefixed suffix. *)
Definition strip_suffix (c : string) : string :=
  match String.index 0 " -" c with
  | Some i => String.substring 0 i c
  | None => c
  end.

(** What the column named [h] holds for the raw cell [c]. *)
Definition spec_cell (h c : string) : option cell :=
  if String.eqb h "Date Time"
  then CTime <$> strptime (strip_suffix c) "%m/%d/%Y %I:%M:%S %p"
  else Some (CStr c).

(** The raw cells of column [j], in row order; a short row has none. *)
Definition column (j : nat) (body : list (list string)) : list string :=
  omap (λ row : list string, row !! j) body.

(** A cell the reader accepts: a "Date Time" cell has a dash only where
    a " -" suffix starts, and what precedes the suffix is a timestamp. *)
Definition cell_ok (h c : string) : Prop :=
  h = "Date Time" →
  contains "-" c = contains " -" c ∧
  is_Some (strptime (strip_suffix c) "%m/%d/%Y %I:%M:%S %p").

(** What a refresh of the given kind reads is a fragment the model
    covers: the one handed over, or the one of whatever tree the server
    may send. *)
Definition fragment_ok (kind : string) (ok : Soup → bool)
    (refreshsoup : option Soup) : Prop :=
  match refreshsoup with
  | Some f => ok f = true
  | None =>
      ∀ hist url f,
        tree_fragment kind (lxml (text (server hist url))) = Ok f →
        ok f = true
  end.

(** The items of every channel table the server may send are flat. *)
Definition channel_tables_ok : Prop :=
  ∀ hist url item,
    item ∈ find_all "item" (lxml (text (server hist url))) →
    flat_ok item = true.

End Client.

(** * Invariants of the reconciliation *)

Section ReconcileInvariants.
Context {T : Type} (node_of : T → Node) (sync_of : Soup → Node → Node).

(** What the steps of a level owe for the child [c]: [refresh] is the
    refresh of an element against [c], [new] the construction of an
    element from [c]. *)
Record synced_step (c : Soup) (refresh : T → World → World * T * res unit)
    (new : World → World * T) : Prop := {
  ss_id : ∀ n, attr "id" (sync_of c n) = kid c;
  ss_idem : ∀ n, sync_of c (sync_of c n) = sync_of c n;
  ss_r_oid : ∀ x w, oid (node_of (refresh x w).1.2) = oid (node_of x);
  ss_r_mono : ∀ x w, (next_oid w ≤ next_oid (refresh x w).1.1)%nat;
  ss_r_node : ∀ x w w' x',
    refresh x w = (w', x', Ok tt) → node_of x' = sync_of c (node_of x);
  ss_n_oid : ∀ w, oid (node_of (new w).2) = next_oid w;
  ss_n_mono : ∀ w, (next_oid w < next_oid (new w).1)%nat;
  ss_n_node : ∀ w, sync_of c (node_of (new w).2) = node_of (new w).2
}.

(** What holds of a collection in the course of a first pass over
    children of its kind: [kp] are those met so far, [ids0] the ids the
    collection had at the start. *)
Record inv1 (ids0 : list pyval) (kp : list Soup) (coll : list T)
    (nids : list pyval) (w : World) : Prop := {
  inv_nids : nids = map kid kp;
  inv_ids : ids_of node_of coll
            = ids0 ++ filter (λ v, v ∉ ids0) (map kid kp);
  inv_nodup : NoDup (oids_of node_of coll);
  inv_fresh : Forall (λ x, (oid (node_of x) < next_oid w)%nat) coll;
  inv_sync : ∀ c x, c ∈ kp → x ∈ coll → attr "id" (node_of x) = kid c →
                    sync_of c (node_of x) = node_of x
}.

End ReconcileInvariants.

Section LevelInvariants.
Context {T St : Type} (node_of : T → Node).
Context (kind : string) (kinds : list string) (typed : bool).
Context (proj : St → list T * list pyval) (preg : St → list nat).

(** The loop body handles a child of the kind by the reconciling block on
    the projected collection ([proj]: the collection and the ids seen,
    [preg]: its registry), and leaves them alone on any other child. *)
Definition step_reconciles (ids : list pyval)
    (step : Soup → St → World → World * St * res unit) : Prop :=
  ∀ c st w w1 st1,
    step c st w = (w1, st1, Ok tt) →
    (soup_name c = Some kind →
       ∃ refresh new,
         (child_ok kinds typed c = true →
          synced_step node_of (sync kinds) c refresh new) ∧
         reconcile_child node_of refresh new ids (kid c) (proj st).1
           (preg st) (proj st).2 w
         = (w1, ((proj st1).1, preg st1, (proj st1).2), Ok tt)) ∧
    (soup_name c ≠ Some kind →
       proj st1 = proj st ∧ preg st1 = preg st
       ∧ (next_oid w ≤ next_oid w1)%nat).

End LevelInvariants.

(** The cells one row adds under the header at position [j], when the
    row is read from position [j0] on. *)
Definition row_part (j0 j : nat) (row : list string) : list string :=
  if decide (j0 ≤ j)%nat then option_list (row !! (j - j0)%nat) else [].

(** * The remaining operations *)

(** ** String helpers *)

(** What [str.isspace] accepts, in ASCII: tab to carriage return, the
    four separators and the space. *)
Definition is_space (c : ascii) : bool :=
  let n := Ascii.N_of_ascii c in
  ((9 <=? n) && (n <=? 13) || (28 <=? n) && (n <=? 32))%N.

Fixpoint lstrip (s : string) : string :=
  match s with
  | EmptyString => EmptyString
  | String c s' => if is_space c then lstrip s' else s
  end.

Fixpoint rstrip (s : string) : string :=
  match s with
  | EmptyString => EmptyString
  | String c s' =>
      match rstrip s' with
      | EmptyString => if is_space c then EmptyString else String c EmptyString
      | r => String c r
      end
  end.

(** [s.strip()] *)
Definition strip (s : string) : string := rstrip (lstrip s).

(** [sep.join(l)] *)
Fixpoint join (sep : string) (l : list string) : string :=
  match l with
  | [] => ""
  | x :: l' =>
      match l' with
      | [] => x
      | _ :: _ => x +:+ sep +:+ join sep l'
      end
  end.

(** The [tags] argument of [add_tags]: a list of strings, or something
    that is no list. *)
Inductive tags_arg :=
| TagList (l : list string)
| NotAList (v : pyval).

(** ** The objects a registry of the root refers to *)

Inductive Obj :=
| OGroup (g : Group)
| ODevice (d : Device).

Definition obj_node (x : Obj) : Node :=
  match x with
  | OGroup g => g_node g
  | ODevice d => d_node d
  end.

(** The objects the collections of the root hold.  The registries of the
    root are filled from these alone: [allsensors] is never appended to,
    and the objects further down are listed in the registries of their
    own parents. *)
Definition r_objects (self : PRTGApi) : list Obj :=
  map OGroup (probes self) ++ map OGroup (groups self)
  ++ map ODevice (devices self).

(** The object behind an identity of a registry. *)
Definition deref (self : PRTGApi) (o : nat) : option Obj :=
  List.find (λ x, bool_decide (oid (obj_node x) = o)) (r_objects self).

(** The outcome of [search_byid]: the object returned, [None], or an
    entry of a registry whose object the collections no longer hold (the
    model keeps the fields of an object with the collection that owns
    it). *)
Inductive Search :=
| Found (x : Obj)
| NotFound
| Dropped (o : nat).

(** [for obj in registry: if obj.id == idval: return obj] *)
Fixpoint search_registry (self : PRTGApi) (idval : pyval) (reg : list nat)
  : Search :=
  match reg with
  | [] => NotFound
  | o :: reg' =>
      match deref self o with
      | None => Dropped o
      | Some x =>
          if py_eq (attr "id" (obj_node x)) idval then Found x
          else search_registry self idval reg'
      end
  end.

(** [PRTGApi.search_byid] *)
Definition search_byid (self : PRTGApi) (idval : pyval) : Search :=
  search_registry self (VStr (py_str idval))
    (allprobes self ++ allgroups self ++ alldevices self ++ allsensors self).

Section Operations.

Variable server : list string → string → Response.
Variable lxml : string → Soup.

(** ** BaseConfig *)

Definition status_url (self : Node) (name : string) : string :=
  "getobjectstatus.htm?id=" +:+ py_str (attr "id" self) +:+ "&name=" +:+ name
  +:+ "&show=text".

(** [BaseConfig.get_status] *)
Definition get_status (self : Node) (name : string) (w : World)
  : World * Node * res string :=
  let '(w1, r) := get_request server self (status_url self name) true w in
  match r with
  | Raise e => (w1, self, Raise e)
  | Ok None => (w1, self, Raise AttributeError)
  | Ok (Some req) =>
      match find "result" (lxml (text req)) with
      | None => (w1, self, Raise AttributeError)
      | Some result =>
          let status := strip (get_text result) in
          (w1, setattr "status" (VStr status) self, Ok status)
      end
  end.

Definition clone_url (self : Node) (newname newplaceid : pyval) : string :=
  "duplicateobject.htm?id=" +:+ py_str (attr "id" self) +:+ "&name="
  +:+ py_str newname +:+ "&targetid=" +:+ py_str newplaceid.

(** [BaseConfig.clone] *)
Definition clone (self : Node) (newname newplaceid : pyval) (w : World)
  : World * res unit :=
  let '(w1, r) :=
    get_request server self (clone_url self newname newplaceid) true w in
  match r with
  | Raise e => (w1, Raise e)
  | Ok _ => (w1, Ok tt)
  end.

(** [BaseConfig.add_tags] *)
Definition add_tags (self : Node) (tags : tags_arg) (clear_old : bool)
    (w : World) : World * Node * res unit :=
  match tags with
  | NotAList _ => (w, self, Raise (PyException "Needs tags as type: list"))
  | TagList tags =>
      let '(w1, self1, r) :=
        if clear_old then (w, self, Ok [])
        else
          let '(w1, self1, r) := get_property server lxml self "tags" w in
          match r with
          | Raise e => (w1, self1, Raise e)
          | Ok t => (w1, self1, Ok (split_on " " t))
          end in
      match r with
      | Raise e => (w1, self1, Raise e)
      | Ok old_tags =>
          set_property server self1 "tags"
            (VStr (join " " (old_tags ++ tags))) w1
      end
  end.

(** ** Channel overrides *)

(** [Channel.rename] *)
Definition Channel_rename (self : Node) (newname : string) (w : World)
  : World * Node * res unit :=
  let '(w1, self1, r) := set_property server self "name" (VStr newname) w in
  match r with
  | Raise e => (w1, self1, Raise e)
  | Ok _ => (w1, setattr "name" (VStr newname) self1, Ok tt)
  end.

Definition channel_resume_url (self : Node) : string :=
  "pause.htm?id=" +:+ py_str (attr "sensorid" self) +:+ "&action=1".

(** [Channel.resume] *)
Definition Channel_resume (self : Node) (w : World)
  : World * Node * res unit :=
  let w0 := print "Channels cannot be resumed, resuming parent sensor." w in
  let '(w1, r) := get_request server self (channel_resume_url self) true w0 in
  match r with
  | Raise e => (w1, self, Raise e)
  | Ok _ => (w1, self, Ok tt)
  end.

(** Method resolution on the class of the receiver. *)
Definition resume (self : Node) (w : World) : World * Node * res unit :=
  match cls self with
  | CChannel => Channel_resume self w
  | _ => BaseConfig_resume server self w
  end.

Definition rename (self : Node) (newname : string) (w : World)
  : World * Node * res unit :=
  match cls self with
  | CChannel => Channel_rename self newname w
  | _ => BaseConfig_rename server self newname w
  end.

(** ** Sensor *)

(** [Sensor.set_additional_param] *)
Definition set_additional_param (self : Node) (parameterstring : pyval)
    (w : World) : World * Node * res unit :=
  set_property server self "params" parameterstring w.

Definition acknowledge_url (self : Node) (message : string) : string :=
  "acknowledgealarm.htm?id=" +:+ py_str (attr "id" self) +:+ "&ackmsg="
  +:+ message.

(** [Sensor.acknowledge] *)
Definition acknowledge (self : Node) (message : string) (w : World)
  : World * Node * res unit :=
  let '(w1, r) := get_request server self (acknowledge_url self message) true w in
  match r with
  | Raise e => (w1, self, Raise e)
  | Ok _ =>
      let '(w2, self2, r2) := get_status self "status" w1 in
      match r2 with
      | Raise e => (w2, self2, Raise e)
      | Ok _ => (w2, self2, Ok tt)
      end
  end.

(** ** Device *)

(** [Device.set_host] *)
Definition set_host (self : Node) (host : pyval) (w : World)
  : World * Node * res unit :=
  let '(w1, self1, r) := set_property server self "host" host w in
  match r with
  | Raise e => (w1, self1, Raise e)
  | Ok _ => (w1, setattr "host" host self1, Ok tt)
  end.

End Operations.

(** ** Statements about collections, registries and channel items *)

(** A collection with its registry: the registry lists the objects of
    the collection, which are distinct and were allotted before. *)
Definition listed {T} (node_of : T → Node) (coll : list T) (reg : list nat)
    (w : World) : Prop :=
  reg = oids_of node_of coll ∧ identities_ok node_of w coll.

(** The root with its registries: each lists the objects of its
    collection, [allsensors] is empty, and the objects of the three
    collections are distinct and were allotted before. *)
Definition root_listed (r : PRTGApi) (w : World) : Prop :=
  allprobes r = oids_of g_node (probes r) ∧
  allgroups r = oids_of g_node (groups r) ∧
  alldevices r = oids_of d_node (devices r) ∧
  allsensors r = [] ∧
  NoDup (map (λ x, oid (obj_node x)) (r_objects r)) ∧
  Forall (λ x, (oid (obj_node x) < next_oid w)%nat) (r_objects r).

(** The numeric reading of [lastvalue] in [Channel.initialize] applies:
    the last [lastvalue] element holds digits and dots only. *)
Definition plain_number (item : Soup) : Prop :=
  ∃ s, last_scalar "lastvalue" (children item) None = Some (VStr s)
       ∧ isdigit (remove_char "." s) = true.

(** A collection a completed refresh leaves: one element per id of the
    children [kcs] of its kind, listed in the registry, and each in the
    state a refresh against its own child leaves it in. *)
Definition settled {T} (node_of : T → Node) (kinds : list string)
    (kcs : list Soup) (coll : list T) (reg : list nat) (w : World) : Prop :=
  ids_of node_of coll ≡ₚ map kid kcs ∧
  listed node_of coll reg w ∧
  ∀ c x, c ∈ kcs → x ∈ coll → attr "id" (node_of x) = kid c →
         sync kinds c (node_of x) = node_of x.

(** ** The channel table of one fetch *)

Section Fetches.

Variable server : list string → string → Response.
Variable lxml : string → Soup.

(** The items of the channel table the server sends when [get_channels]
    of the node [self] asks for it after the requests [hist]. *)
Definition channel_table (self : Node) (hist : list string) : list Soup :=
  find_all "item"
    (lxml (text (server hist (request_url self (channel_url self) true)))).

(** The requests made before the channel fetch of a [Sensor.refresh]
    that was started after [hist]: with a fragment at hand none is made,
    without one the tree is fetched first. *)
Definition asked_before_channels (self : Node) (refreshsoup : option Soup)
    (hist : list string) : list string :=
  match refreshsoup with
  | Some _ => hist
  | None =>
      hist ++ [request_url self
                 ("table.xml?content=sensortree&output=xml&id="
                  +:+ py_str (attr "id" self)) true]
  end.

End Fetches.

(** No item of the table carries the [objid] of the channel. *)
Definition absent_from (ch : Node) (items : list Soup) : Prop :=
  ∀ item, item ∈ items → find_string "objid" item ≠ Ok (attr "objid" ch).

(** ** Two passes over the same children *)

(** What two completed passes over the same children [kcs] of one kind
    leave of a collection, [first] after the first pass and [second]
    after the second, which started in the world [w1].  Every child has
    after the first pass a local object with its id, whose fields are
    those a refresh against the child gives; after the second pass the
    same object sits at the same place with every field as it was.  The
    collection holds after the second pass, place for place, the objects
    it held after the first, none of them built during the second. *)
Definition reused {T} (node_of : T → Node) (kinds : list string)
    (kcs : list Soup) (w1 : World) (first second : list T) : Prop :=
  (∀ c, c ∈ kcs →
     ∃ i x1 x2,
       first !! i = Some x1 ∧ second !! i = Some x2 ∧
       attr "id" (node_of x1) = kid c ∧
       sync kinds c (node_of x1) = node_of x1 ∧
       node_of x2 = node_of x1) ∧
  map node_of second = map node_of first ∧
  Forall (λ x, (oid (node_of x) < next_oid w1)%nat) second.

(** ** Texts in ASCII *)

(** Every character of the text is an ASCII character.  On such texts
    the byte-wise [strip] and [isdigit] of the model are those of
    Python. *)
Fixpoint is_ascii (s : string) : bool :=
  match s with
  | EmptyString => true
  | String c s' => (Ascii.N_of_ascii c <? 128)%N && is_ascii s'
  end.

(** The text of the last [lastvalue] element of a channel item, if there
    is one, is in ASCII. *)
Definition ascii_lastvalue (item : Soup) : Prop :=
  ∀ s, last_scalar "lastvalue" (children item) None = Some (VStr s) →
       is_ascii s = true.

(** ** The tree the root reads *)

(** The elements the root meets two levels below [nodes]: probes and
    groups as group fragments, devices as device fragments, and scalars
    as the sensor tree has them. *)
Definition root_level_ok (cs : list Soup) : bool :=
  forallb (λ c, if bool_decide (soup_name c = Some "probenode")
                then group_doc_ok c
                else if bool_decide (soup_name c = Some "device")
                then device_doc_ok c
                else if bool_decide (soup_name c = Some "group")
                then group_doc_ok c
                else scalar_ok c)
          cs.

(** The [nodes] element of a tree the model covers. *)
Definition root_doc_ok (nodes : Soup) : bool :=
  forallb (λ child, root_level_ok (children child)) (children nodes).

(** * Example inputs *)

Definition conf_ex : ConfData :=
  mkConf (VStr "prtg.example") (VStr "443") (VStr "admin") (VStr "0000")
         (VStr "https") true.

Definition world_ex : World := mkWorld [] [] [] 0.

(** A server that gives the same answer to every request. *)
Definition reply (code : Z) (body : string) : list string → string → Response :=
  λ _ _, mkResponse code body.

(** A parser that reads every text as the same document. *)
Definition parsed (doc : Soup) : string → Soup := λ _, doc.

Definition el (name text : string) : Soup := Tag name [] [NavStr text].

Definition document (top : list Soup) : Soup :=
  Tag "[document]" [] [Tag "html" [] [Tag "body" [] top]].

Definition tree_doc (top : list Soup) : Soup :=
  document [Tag "prtg" [] [Tag "sensortree" [] [Tag "nodes" [] top]]].

Definition sensor_el (id name status : string) : Soup :=
  Tag "sensor" [("id", id)]
      [el "name" name; el "id" id; el "status" status; Tag "tags" [] []].

Definition device_el (id name : string) (sensors : list Soup) : Soup :=
  Tag "device" [("id", id)]
      ([el "name" name; el "id" id; el "host" "10.0.0.1"] ++ sensors).

Definition group_el (kind id name : string) (members : list Soup) : Soup :=
  Tag kind [("id", id)] ([el "name" name; el "id" id] ++ members).

Definition item_el (objid name lastvalue : string) : Soup :=
  Tag "item" []
      [el "name" name; el "lastvalue" lastvalue; el "objid" objid].

(** A node as [Sensor(...)] builds it. *)
Definition sensor_ex : Sensor :=
  (Sensor_new (sensor_el "2001" "Ping" "Up") (VStr "20") conf_ex world_ex).2.

Definition root_doc_ex : Soup :=
  tree_doc
    [group_el "group" "0" "Root"
       [group_el "probenode" "1" "Local probe"
          [device_el "20" "A" [sensor_el "2001" "Ping" "Up"]]]].

Definition device_doc_ex : Soup :=
  device_el "20" "A" [sensor_el "2001" "Ping" "Up";
                      sensor_el "2002" "HTTP" "Unusual"].

Definition channels_doc (items : list Soup) : Soup :=
  document [Tag "channels" [] items].

(** The example sensor after a first [get_channels] that met two
    channels. *)
Definition sensor_cached_ex : Sensor :=
  (Sensor_get_channels (reply 200 "")
     (parsed (channels_doc [item_el "0" "Ping Time" "12 msec";
                            item_el "1" "Packet Loss" "0 %"]))
     sensor_ex world_ex).1.2.

(** A later channel table without channel 1. *)
Definition later_channels_ex : Soup :=
  channels_doc [item_el "0" "Ping Time" "15 msec"].

(** Readers for the examples: comma-separated rows without quoting, and
    timestamps written [MM/DD/YYYY hh:mm:ss AM] or [PM]. *)
Definition csv_reader_ex (lines : list string) : list (list string) :=
  map (split_on ",") lines.

Fixpoint parse_digits (s : string) (acc : Z) : option Z :=
  match s with
  | EmptyString => Some acc
  | String c s' =>
      if is_digit c
      then parse_digits s' (10 * acc + Z.of_N (Ascii.N_of_ascii c) - 48)%Z
      else None
  end.

Definition parse_num (s : string) : option Z :=
  if String.eqb s "" then None else parse_digits s 0.

Definition strptime_ex (txt fmt : string) : option datetime :=
  if negb (String.eqb fmt "%m/%d/%Y %I:%M:%S %p") then None else
  match split_on " " txt with
  | [d; t; p] =>
      match split_on "/" d, split_on ":" t with
      | [mo; da; ye], [ho; mi; se] =>
          match parse_num mo, parse_num da, parse_num ye,
                parse_num ho, parse_num mi, parse_num se with
          | Some mo, Some da, Some ye, Some ho, Some mi, Some se =>
              if String.eqb p "AM"
              then Some (mkDatetime ye mo da (ho mod 12) mi se)
              else if String.eqb p "PM"
              then Some (mkDatetime ye mo da (ho mod 12 + 12) mi se)
              else None
          | _, _, _, _, _, _ => None
          end
      | _, _ => None
      end
  | _ => None
  end.

Definition strftime_ex (d : datetime) (fmt : string) : string :=
  pretty (year d) +:+ "-" +:+ pretty (month d) +:+ "-" +:+ pretty (day d)
  +:+ "-" +:+ pretty (hour d) +:+ "-" +:+ pretty (minute d) +:+ "-"
  +:+ pretty (second d).

Definition csv_ex : string :=
  "Date Time,Value
01/02/2020 10:00:00 AM,5 %
01/02/2020 11:30:00 PM - DST,7 %
Sums (of 2 values),12 %
".

(** A group with two devices and a subgroup, and a later fragment of the
    same group: device 20 renamed, device 21 gone, device 22 new. *)
Definition group_doc_ex : Soup :=
  group_el "group" "10" "Servers"
    [device_el "20" "A" [sensor_el "2001" "Ping" "Up"];
     device_el "21" "B" [];
     group_el "group" "30" "Sub" []].

Definition group_doc_later_ex : Soup :=
  group_el "group" "10" "Servers"
    [device_el "20" "A-renamed" [sensor_el "2001" "Ping" "Down"];
     device_el "22" "C" [];
     group_el "group" "30" "Sub" [device_el "40" "D" []]].

(** A root with a probe, a group and a device directly below it, and a
    later tree in which the device is gone. *)
Definition root_full_ex : Soup :=
  tree_doc
    [group_el "group" "0" "Root"
       [group_el "probenode" "1" "Local probe" [];
        device_el "20" "A" [];
        group_el "group" "10" "Servers" []]].

Definition root_later_ex : Soup :=
  tree_doc
    [group_el "group" "0" "Root"
       [group_el "probenode" "1" "Local probe" [];
        group_el "group" "10" "Servers" []]].

Definition result_doc (body : string) : Soup :=
  document [Tag "prtg" [] [Tag "version" [] [NavStr "17.1"];
                            Tag "result" [] [NavStr body]]].

(** * Further example inputs *)

(** The root built from [root_full_ex], with the world it leaves. *)
Definition root_made_ex : World * res PRTGApi :=
  PRTGApi_new (reply 200 "") (parsed root_full_ex)
    (VStr "prtg.example") (VStr "admin") (VStr "0000") (VInt 0)
    (VStr "https") (VStr "443") true world_ex.

Definition root_ex : PRTGApi :=
  match root_made_ex.2 with
  | Ok r => r
  | Raise _ => mkApi (s_node sensor_ex) [] [] [] [] [] [] [] None
  end.

(** The device directly below that root. *)
Definition root_device_ex : Device :=
  default (mkDevice (s_node sensor_ex) [] [] []) (devices root_ex !! 0%nat).

(** The [nodes] element of [root_later_ex], where the device is gone. *)
Definition nodes_later_ex : Soup :=
  Tag "nodes" []
    [group_el "group" "0" "Root"
       [group_el "probenode" "1" "Local probe" [];
        group_el "group" "10" "Servers" []]].

(** A later tree in which the probe is gone, the device is renamed and
    a group is new. *)
Definition nodes_moved_ex : Soup :=
  Tag "nodes" []
    [group_el "group" "0" "Root"
       [device_el "20" "A-renamed" [];
        group_el "group" "10" "Servers" [];
        group_el "group" "11" "Printers" []]].

Definition root_moved_ex : Soup :=
  document [Tag "prtg" [] [Tag "sensortree" [] [nodes_moved_ex]]].

(** The device built from [device_doc_ex], and a later fragment of it:
    sensor 2002 gone, sensor 2003 new. *)
Definition device_made_ex : World * Device :=
  Device_new device_doc_ex conf_ex world_ex.

Definition device_later_ex : Soup :=
  device_el "20" "A" [sensor_el "2001" "Ping" "Down";
                      sensor_el "2003" "DNS" "Up"].

(** The first channel of the example sensor. *)
Definition channel_ex : Node :=
  default (s_node sensor_ex) (s_channels sensor_cached_ex !! 0%nat).

(** A channel table whose second item holds a plain number. *)
Definition channels_plain_ex : Soup :=
  channels_doc [item_el "0" "Ping Time" "12 msec";
                item_el "1" "Packet Loss" "0";
                item_el "2" "Jitter" "3 msec"].

(** The tree the server holds for a probe. *)
Definition probe_el_ex : Soup := group_el "probenode" "1" "Local probe" [].

Definition probe_tree_ex : Soup := tree_doc [probe_el_ex].

(** A fragment with a sensor that has no [id] element. *)
Definition anonymous_sensor_ex : Soup := Tag "sensor" [] [el "name" "Ping"].

(** The table [get_historic_data] returns for [csv_ex]. *)
Definition historic_ex : World * res (gmap string (list cell)) :=
  get_historic_data (reply 200 csv_ex) csv_reader_ex strptime_ex strftime_ex
    (s_node sensor_ex) (VInt 2001) (ADate (mkDatetime 2020 1 2 0 0 0))
    (AValue (VStr "2020-01-03-00-00-00")) (VInt 0) world_ex.

(** A server whose first answer differs from the later ones, and a
    parser that tells the two texts apart: the first channel table has
    the channels 0 and 1, every later one only channel 0. *)
Definition two_tables_ex : list string → string → Response :=
  λ hist _, mkResponse 200 (match hist with [] => "first" | _ => "later" end).

Definition table_parser_ex : string → Soup :=
  λ t, if String.eqb t "first"
       then channels_doc [item_el "0" "Ping Time" "12 msec";
                          item_el "1" "Packet Loss" "0 %"]
       else later_channels_ex.

(** The example sensor after its first [get_channels] from that server,
    with the world the fetch leaves. *)
Definition sensor_fetched_ex : World * Sensor :=
  (Sensor_get_channels two_tables_ex table_parser_ex sensor_ex world_ex).1.



(** * Properties of the connection and of the shared node methods *)

Lemma attr_setattr_eq name v n : attr name (setattr name v n) = v.
Proof. unfold attr, setattr. simpl. rewrite lookup_insert_eq. reflexivity. Qed.

Lemma attr_setattr_ne name name' v n :
  name ≠ name' → attr name' (setattr name v n) = attr name' n.
Proof.
  intros H. unfold attr, setattr. simpl. rewrite lookup_insert_ne by done.
  reflexivity.
Qed.

Section NodeFacts.

Context (server : list string → string → Response) (lxml : string → Soup).

Lemma get_request_log self url_string api w :
  (get_request server self url_string api w).1
  = log_request (request_url self url_string api) w.
Proof.
  unfold get_request.
  repeat match goal with |- context [Z.eqb ?a ?b] => destruct (Z.eqb a b) end;
    reflexivity.
Qed.

Lemma get_request_200 self url_string api w :
  status_code (server (log w) (request_url self url_string api)) = 200%Z →
  get_request server self url_string api w
  = (log_request (request_url self url_string api) w,
     Ok (Some (server (log w) (request_url self url_string api)))).
Proof. intros H. unfold get_request. rewrite H. reflexivity. Qed.

Lemma get_request_401 self url_string api w :
  status_code (server (log w) (request_url self url_string api)) = 401%Z →
  get_request server self url_string api w
  = (log_request (request_url self url_string api) w,
     Raise (AuthenticationError
              "PRTG authentication failed. Check credentials in config file")).
Proof. intros H. unfold get_request. rewrite H. reflexivity. Qed.

(** C5, as amended.  [get_request] returns the response exactly when the
    status is 200, raises AuthenticationError exactly when it is 401,
    raises ResourceNotFound exactly when it is 404, then with the requested
    URL in the message, and for every other status raises nothing and
    returns no result ([None]). *)
Theorem get_request_classifies (self : Node) (url_string : string)
    (api : bool) (w : World) :
  let url := request_url self url_string api in
  let req := server (log w) url in
  let out := get_request server self url_string api w in
  out.1 = log_request url w ∧
  (out.2 = Ok (Some req) ↔ status_code req = 200%Z) ∧
  ((∃ m, out.2 = Raise (AuthenticationError m)) ↔ status_code req = 401%Z) ∧
  ((∃ m, out.2 = Raise (ResourceNotFound m)) ↔ status_code req = 404%Z) ∧
  (out.2 = Raise (ResourceNotFound ("No resource at URL used: " +:+ url))
   ↔ status_code req = 404%Z) ∧
  (out.2 = Ok None
   ↔ status_code req ≠ 200%Z ∧ status_code req ≠ 401%Z
     ∧ status_code req ≠ 404%Z).
Proof.
  intros url req out. split; [apply get_request_log|].
  subst out. unfold get_request. fold url. fold req.
  destruct (Z.eqb_spec (status_code req) 200) as [E2|N2];
    [|destruct (Z.eqb_spec (status_code req) 401) as [E4|N4];
      [|destruct (Z.eqb_spec (status_code req) 404) as [E5|N5]]];
    simpl; repeat split; try intros [m Hm]; try intros [? [? ?]];
    intros; try discriminate; try congruence; try lia; eauto.
Qed.

(** C8.  [get_property(name)] raises ResourceNotFound when the result of
    the response body is "(Property not found)", and then leaves the
    entity as it was; otherwise it binds the result text to the attribute
    [name] and returns that text. *)
Theorem get_property_not_found (self : Node) (name : string) (w : World)
    (result : Soup) :
  let url := request_url self (getprop_url self name) true in
  let req := server (log w) url in
  status_code req = 200%Z →
  find "result" (lxml (text req)) = Some result →
  (get_text result = "(Property not found)" →
     get_property server lxml self name w
     = (log_request url w, self,
        Raise (ResourceNotFound ("No object property of name: " +:+ name)))) ∧
  (get_text result ≠ "(Property not found)" →
     get_property server lxml self name w
     = (log_request url w, setattr name (VStr (get_text result)) self,
        Ok (get_text result))
     ∧ attr name (setattr name (VStr (get_text result)) self)
       = VStr (get_text result)).
Proof.
  intros url req H200 Hfind. unfold get_property.
  rewrite get_request_200 by assumption. fold url. fold req. rewrite Hfind.
  split; intros Ht.
  - rewrite Ht. reflexivity.
  - destruct (String.eqb_spec (get_text result) "(Property not found)")
      as [E|N]; [contradiction|]. simpl. split; [reflexivity|].
    apply attr_setattr_eq.
Qed.

(** C10.  A [set_property(name, value)] that returns binds the entity's
    local [name] attribute to [value], whatever property was set, and
    changes nothing else; so [set_interval(seconds)] overwrites the local
    display name with the interval. *)
Theorem set_property_overwrites_name (self self' : Node) (name : string)
    (value : pyval) (w w' : World) :
  (set_property server self name value w = (w', self', Ok tt) →
     attr "name" self' = value ∧ self' = setattr "name" value self) ∧
  (set_interval server self value w = (w', self', Ok tt) →
     attr "name" self' = value ∧ self' = setattr "name" value self).
Proof.
  assert (H : ∀ nm, set_property server self nm value w = (w', self', Ok tt) →
                    attr "name" self' = value
                    ∧ self' = setattr "name" value self).
  { intros nm. unfold set_property.
    destruct (get_request server self (setprop_url self nm value) true w)
      as [w1 [o|e]]; intros Heq; inversion Heq; subst.
    split; [apply attr_setattr_eq | reflexivity]. }
  split; [apply H | unfold set_interval; apply H].
Qed.

(** The guard of [delete]: an entity whose [type] is "Root" is refused
    without any request. *)
Lemma delete_guard_Root (self : Node) (confirm : bool) (w : World) :
  attr "type" self = VStr "Root" →
  BaseConfig_delete server self confirm w
  = (w, Ok (Some "You cannot delete the root object.")).
Proof. intros H. unfold BaseConfig_delete. rewrite H. reflexivity. Qed.

End NodeFacts.

(** * Pausing *)

Section PauseFacts.
Context (server : list string → string → Response).

Lemma get_request_404 self url_string api w :
  status_code (server (log w) (request_url self url_string api)) = 404%Z →
  get_request server self url_string api w
  = (log_request (request_url self url_string api) w,
     Raise (ResourceNotFound
              ("No resource at URL used: "
               +:+ request_url self url_string api))).
Proof. intros H. unfold get_request. rewrite H. reflexivity. Qed.

Lemma get_request_passes self url_string api w :
  status_code (server (log w) (request_url self url_string api)) ≠ 401%Z →
  status_code (server (log w) (request_url self url_string api)) ≠ 404%Z →
  ∃ o, get_request server self url_string api w
       = (log_request (request_url self url_string api) w, Ok o).
Proof.
  intros H1 H4. unfold get_request.
  destruct (Z.eqb_spec (status_code (server (log w)
              (request_url self url_string api))) 200); [by eexists|].
  destruct (Z.eqb_spec (status_code (server (log w)
              (request_url self url_string api))) 401); [done|].
  destruct (Z.eqb_spec (status_code (server (log w)
              (request_url self url_string api))) 404); [done|].
  by eexists.
Qed.

(** C4, as amended.  On a node that is not a Channel, [pause] sets the
    local status to "Paused", [active] to "false" and [status_raw] to
    "7", and nothing else, after every request that does not raise: for
    every answer other than 401 and 404, so for 200 and also for 500.
    An answer of 401 raises AuthenticationError, one of 404
    ResourceNotFound, and the node is then left as it was.  On a Channel,
    [pause] changes no field of the channel whatever the answer: it
    sends one pause request for the id held in the [sensorid] field of
    the channel, and completes unless the answer is 401 or 404. *)
Theorem pause_updates_unless_raised (self : Node) (duration : Z)
    (message : string) (w : World) :
  let out := pause server self duration message w in
  (cls self ≠ CChannel →
   let url := request_url self (pause_url self duration message) true in
   let code := status_code (server (log w) url) in
   log out.1.1 = log w ++ [url] ∧
   (code = 401%Z →
      (∃ m, out.2 = Raise (AuthenticationError m)) ∧ out.1.2 = self) ∧
   (code = 404%Z →
      (∃ m, out.2 = Raise (ResourceNotFound m)) ∧ out.1.2 = self) ∧
   (code ≠ 401%Z → code ≠ 404%Z →
      out.2 = Ok tt ∧ attr "status" out.1.2 = VStr "Paused"
      ∧ attr "active" out.1.2 = VStr "false"
      ∧ attr "status_raw" out.1.2 = VStr "7"
      ∧ ∀ k, k ∉ ["status"; "active"; "status_raw"] →
             attr k out.1.2 = attr k self)) ∧
  (cls self = CChannel →
   let url :=
     request_url self (channel_pause_url self duration message) true in
   let code := status_code (server (log w) url) in
   out.1.2 = self ∧ log out.1.1 = log w ++ [url] ∧
   (out.2 = Ok tt ↔ code ≠ 401%Z ∧ code ≠ 404%Z)).
Proof.
  intros out. split.
  - intros Hcls url code.
    assert (Hp : out = BaseConfig_pause server self duration message w).
    { subst out. unfold pause. destruct (cls self); congruence. }
    rewrite Hp. unfold BaseConfig_pause. fold url.
    split; [|split; [|split]].
    + pose proof (get_request_log server self
                    (pause_url self duration message) true w) as Hl.
      destruct (get_request _ _ _ _ _) as [w1 [o|e]]; simpl in *;
        by rewrite Hl.
    + intros Hc. rewrite get_request_401 by exact Hc. simpl. eauto.
    + intros Hc. rewrite get_request_404 by exact Hc. simpl. eauto.
    + intros H1 H4.
      destruct (get_request_passes self (pause_url self duration message)
                  true w H1 H4) as [o ->].
      cbn [fst snd]. split; [done|].
      split; [rewrite !attr_setattr_ne by done; apply attr_setattr_eq|].
      split; [rewrite !attr_setattr_ne by done; apply attr_setattr_eq|].
      split; [apply attr_setattr_eq|].
      intros k Hk. rewrite !attr_setattr_ne; [done|..];
        intros E; apply Hk; subst k; set_solver.
  - intros Hcls url code.
    assert (Hp : out = Channel_pause server self duration message w).
    { subst out. unfold pause. by rewrite Hcls. }
    rewrite Hp. unfold Channel_pause.
    set (w0 := print "Channels cannot be paused, pausing parent sensor." w).
    assert (Hw0 : log w0 = log w) by done.
    pose proof (get_request_log server self
                  (channel_pause_url self duration message) true w0) as Hl.
    destruct (Z.eq_dec code 401) as [E1|N1].
    { unfold code, url in E1. rewrite <- Hw0 in E1.
      rewrite get_request_401 by exact E1. simpl. try rewrite Hw0.
      split; [done|]. split; [done|]. split; [done|]. intros [H _].
      exfalso. apply H. unfold code, url. by rewrite <- Hw0. }
    destruct (Z.eq_dec code 404) as [E4|N4].
    { unfold code, url in E4. rewrite <- Hw0 in E4.
      rewrite get_request_404 by exact E4. simpl. try rewrite Hw0.
      split; [done|]. split; [done|]. split; [done|]. intros [_ H].
      exfalso. apply H. unfold code, url. by rewrite <- Hw0. }
    unfold code, url in N1, N4. rewrite <- Hw0 in N1, N4.
    destruct (get_request_passes self
                (channel_pause_url self duration message) true w0 N1 N4)
      as [o ->].
    simpl. try rewrite Hw0. split; [done|]. split; [done|]. split; [done|].
    done.
Qed.

End PauseFacts.


(** * Properties of the tree objects *)

Lemma oid_setattr name v n : oid (setattr name v n) = oid n.
Proof. reflexivity. Qed.

Lemma oid_set_scalars cs n : oid (set_scalars cs n) = oid n.
Proof.
  revert n. induction cs as [|c cs IH]; intros n; [reflexivity|].
  unfold set_scalars in *. simpl. rewrite IH. destruct c; reflexivity.
Qed.

Lemma oid_Channel_refresh ch f : oid (Channel_refresh ch f) = oid ch.
Proof. unfold Channel_refresh. simpl. apply oid_set_scalars. Qed.

Section LoopFacts.
Context {St : Type}.

(** A property of the loop state that every round keeps holds when the
    loop is left, normally or by an exception. *)
Lemma for_children_keeps (P : St → Prop)
    (step : Soup → St → World → World * St * res unit) cs st w :
  P st →
  (∀ c st0 w0, c ∈ cs → P st0 → P (step c st0 w0).1.2) →
  P (for_children step cs st w).1.2.
Proof.
  revert st w. induction cs as [|c cs IH]; intros st w HP Hstep; [exact HP|].
  simpl. pose proof (Hstep c st w (list_elem_of_here _ _) HP) as H1.
  destruct (step c st w) as [[w1 st1] [u|e]]; simpl in *; [|exact H1].
  apply IH; [exact H1|]. intros c0 st0 w0 Hin. apply Hstep.
  by apply list_elem_of_further.
Qed.

End LoopFacts.

Lemma bucket_bucket_add k st o idx :
  bucket k (bucket_add st o idx)
  = if py_eq k st then bucket k idx ++ [o] else bucket k idx.
Proof.
  unfold py_eq. induction idx as [|[k' b] idx IH]; simpl.
  - unfold py_eq. repeat case_bool_decide; congruence.
  - unfold py_eq in *. repeat case_bool_decide; simpl; unfold py_eq;
      repeat case_bool_decide; try congruence.
Qed.

Lemma keys_bucket_add k st o idx :
  k ∈ idx.*1 → k ∈ (bucket_add st o idx).*1.
Proof.
  induction idx as [|[k' b] idx IH]; simpl; [by intros ?%elem_of_nil|].
  intros Hk. destruct (py_eq st k'); simpl; [exact Hk|].
  apply elem_of_cons in Hk as [->|Hk];
    [apply list_elem_of_here | apply list_elem_of_further; auto].
Qed.

Lemma key_bucket_add st o idx : st ∈ (bucket_add st o idx).*1.
Proof.
  induction idx as [|[k' b] idx IH]; simpl; [apply list_elem_of_here|].
  unfold py_eq. case_bool_decide; simpl; subst;
    [apply list_elem_of_here | by apply list_elem_of_further].
Qed.

Lemma bucket_fold k ss idx :
  bucket k
    (foldl (λ idx s, bucket_add (attr "status" (s_node s)) (oid (s_node s)) idx)
       idx ss)
  = bucket k idx
    ++ oids_of s_node (filter (λ s, attr "status" (s_node s) = k) ss).
Proof.
  revert idx. induction ss as [|s ss IH]; intros idx; simpl.
  - by rewrite app_nil_r.
  - rewrite IH, bucket_bucket_add, filter_cons. unfold py_eq.
    repeat case_bool_decide; repeat case_decide; try congruence; simpl.
    by rewrite <- app_assoc.
Qed.

Lemma keys_fold k ss idx :
  k ∈ idx.*1 →
  k ∈ (foldl (λ idx s, bucket_add (attr "status" (s_node s))
                         (oid (s_node s)) idx) idx ss).*1.
Proof.
  revert idx. induction ss as [|s ss IH]; intros idx Hk; simpl; [exact Hk|].
  apply IH. by apply keys_bucket_add.
Qed.

Lemma status_key_fold s ss idx :
  s ∈ ss →
  attr "status" (s_node s)
  ∈ (foldl (λ idx s, bucket_add (attr "status" (s_node s))
                       (oid (s_node s)) idx) idx ss).*1.
Proof.
  revert idx. induction ss as [|s0 ss IH]; intros idx Hs; simpl;
    [by apply elem_of_nil in Hs|].
  apply elem_of_cons in Hs as [->|Hs].
  - apply keys_fold, key_bucket_add.
  - by apply IH.
Qed.

Section TreeFacts.

Context (server : list string → string → Response) (lxml : string → Soup).

Lemma Device_new_index devicesoup conf w :
  d_sensors_by_status (Device_new devicesoup conf w).2
  = index_sensors (d_sensors (Device_new devicesoup conf w).2).
Proof.
  unfold Device_new.
  destruct (build_children _ _ _ _) as [w1 d1]. reflexivity.
Qed.

Lemma Device_refresh_step_index sensorids child st w :
  d_sensors_by_status
    (Device_refresh_step server lxml sensorids child st w).1.2.1
  = d_sensors_by_status st.1.
Proof.
  destruct st as [d nids]. unfold Device_refresh_step.
  destruct child as [t|nm a cs]; [reflexivity|].
  destruct (String.eqb nm "sensor"); [|reflexivity].
  destruct (find_string "id" (Tag nm a cs)) as [cid|e]; [|reflexivity].
  destruct (reconcile_child _ _ _ _ _ _ _ _ _) as [[w1 [[ss reg] nids']] r].
  reflexivity.
Qed.

Lemma Device_refresh_soup_index f d w :
  d_sensors_by_status (Device_refresh_soup server lxml f d w).1.2
  = d_sensors_by_status d.
Proof.
  unfold Device_refresh_soup. destruct f as [t|nm a cs]; [reflexivity|].
  pose proof (for_children_keeps
                (λ st : Device * list pyval,
                   d_sensors_by_status st.1 = d_sensors_by_status d)
                (Device_refresh_step server lxml (ids_of s_node (d_sensors d)))
                cs (d, []) w eq_refl) as H.
  destruct (for_children _ _ _ _) as [[w1 [d1 nids]] r]. simpl in H.
  assert (H1 : d_sensors_by_status d1 = d_sensors_by_status d).
  { apply H. intros c st0 w0 _ Hst.
    rewrite Device_refresh_step_index. exact Hst. }
  destruct r as [u|e]; [|exact H1].
  destruct (remove_stale _ _ _ _ _ _) as [[ss reg] [u2|e2]]; exact H1.
Qed.

(** C7, as amended.  A Device builds its status→sensors index when it is
    constructed ([Device.initialize]): the buckets Up, Down, Warning and
    Paused exist, every status met among its sensors has a bucket, and
    each bucket holds exactly the sensors built then that have this
    status, in order.  [Device.refresh] does not recompute the index: it
    leaves it as it was. *)
Theorem device_index_built_at_construction (devicesoup : Soup)
    (conf : ConfData) (d : Device) (refreshsoup : option Soup)
    (w w' : World) :
  device_doc_ok devicesoup = true →
  fragment_ok server lxml "device" device_doc_ok refreshsoup →
  let made := (Device_new devicesoup conf w).2 in
  (∀ k, k ∈ [VStr "Up"; VStr "Down"; VStr "Warning"; VStr "Paused"] →
        k ∈ (d_sensors_by_status made).*1) ∧
  (∀ s, s ∈ d_sensors made →
        attr "status" (s_node s) ∈ (d_sensors_by_status made).*1) ∧
  (∀ k, bucket k (d_sensors_by_status made)
        = oids_of s_node
            (filter (λ s, attr "status" (s_node s) = k) (d_sensors made))) ∧
  d_sensors_by_status (Device_refresh server lxml d refreshsoup w').1.2
  = d_sensors_by_status d.
Proof.
  intros _ _ made. subst made. rewrite Device_new_index.
  unfold index_sensors. repeat split.
  - intros k Hk. apply keys_fold. exact Hk.
  - intros s Hs. by apply status_key_fold.
  - intros k. rewrite bucket_fold. unfold empty_buckets. simpl.
    repeat destruct (py_eq k _); reflexivity.
  - unfold Device_refresh. destruct refreshsoup as [f|].
    + apply Device_refresh_soup_index.
    + destruct (fetch_fragment _ _ _ _ _) as [w1 [f|e]]; [|reflexivity].
      apply Device_refresh_soup_index.
Qed.

Lemma refresh_channels_oids items chs :
  map oid (refresh_channels items chs).1 = map oid chs.
Proof.
  revert chs. induction items as [|item items IH]; intros chs; [reflexivity|].
  simpl. destruct chs as [|c chs]; [apply IH|].
  destruct (find_string "objid" item) as [cid|e]; [|reflexivity].
  rewrite IH, map_map. apply map_ext. intros ch.
  destruct (py_eq _ _); [apply oid_Channel_refresh | reflexivity].
Qed.

Lemma refresh_channels_absent items chs i ch :
  chs !! i = Some ch →
  (∀ item, item ∈ items → find_string "objid" item ≠ Ok (attr "objid" ch)) →
  (refresh_channels items chs).1 !! i = Some ch.
Proof.
  revert chs. induction items as [|item items IH]; intros chs Hi Habs;
    [exact Hi|].
  simpl. destruct chs as [|c chs]; [by destruct i|].
  pose proof (Habs item (list_elem_of_here _ _)) as Hne.
  destruct (find_string "objid" item) as [cid|e]; [|exact Hi].
  apply IH; [|intros it Hit; apply Habs; by apply list_elem_of_further].
  change (map ?f ?l) with (f <$> l). rewrite list_lookup_fmap, Hi. simpl.
  unfold py_eq. case_bool_decide; [exfalso; apply Hne; congruence | done].
Qed.

Lemma get_channels_keeps_absent self w :
  s_channels self ≠ [] →
  map oid (s_channels (Sensor_get_channels server lxml self w).1.2)
  = map oid (s_channels self) ∧
  s_node (Sensor_get_channels server lxml self w).1.2 = s_node self ∧
  ∀ i ch, s_channels self !! i = Some ch →
          absent_from ch (channel_table server lxml (s_node self) (log w)) →
          s_channels (Sensor_get_channels server lxml self w).1.2 !! i
          = Some ch.
Proof.
  intros Hne. unfold Sensor_get_channels.
  destruct (get_request server (s_node self) _ true w)
    as [w1 [[req|]|e]] eqn:Hreq;
    try (split; [reflexivity | split; [reflexivity | by intros]]).
  destruct (s_channels self) as [|c chs] eqn:Hchs; [done|].
  assert (Hreq' : req = server (log w)
                          (request_url (s_node self)
                             (channel_url (s_node self)) true)).
  { unfold get_request in Hreq.
    repeat match type of Hreq with
           | context [Z.eqb ?a ?b] => destruct (Z.eqb a b)
           end; by inversion Hreq. }
  pose proof (refresh_channels_oids (find_all "item" (lxml (text req)))
                (c :: chs)) as Ho.
  pose proof (refresh_channels_absent (find_all "item" (lxml (text req)))
                (c :: chs)) as Ha.
  destruct (refresh_channels _ _) as [chs' r1]. cbn [fst snd s_channels s_node] in *.
  split; [exact Ho|]. split; [done|]. intros i ch Hi Habs. apply Ha; [exact Hi|].
  intros item Hitem. rewrite Hreq' in Hitem. by apply Habs.
Qed.

Lemma Sensor_refresh_soup_keeps_absent f self w :
  s_channels self ≠ [] →
  let out := (Sensor_refresh_soup server lxml f self w).1.2 in
  map oid (s_channels out) = map oid (s_channels self) ∧
  ∀ i ch, s_channels self !! i = Some ch →
          absent_from ch (channel_table server lxml (s_node out) (log w)) →
          s_channels out !! i = Some ch.
Proof.
  intros Hne out. subst out. unfold Sensor_refresh_soup.
  destruct f as [t|nm a cs]; [split; [reflexivity | by intros]|].
  destruct (s_channels self) as [|c chs] eqn:Hchs; [done|].
  rewrite <- Hchs.
  destruct (get_channels_keeps_absent
              (mkSensor (set_attributes a (set_scalars cs (s_node self)))
                 (s_channels self)) w) as (H1 & H2 & H3).
  { cbn [s_channels]. by rewrite Hchs. }
  cbn [s_channels s_node] in H1, H2, H3. split; [exact H1|].
  intros i ch Hi Habs. apply H3; [exact Hi|]. by rewrite <- H2.
Qed.

(** C3.  A channel cached in the [channels] list of a sensor is never
    removed by [get_channels] nor by [Sensor.refresh]: the list keeps the
    same objects at the same places, and a channel whose [objid] is
    absent from the channel table the call fetches stays in the list with
    all its fields as they were.  The table is the answer of the server
    to the channel request of that call: [get_channels] asks it first
    thing, a refresh after its fields were set from the fragment, and
    after the tree request when no fragment was handed over. *)
Theorem cached_channels_never_pruned (self : Sensor)
    (refreshsoup : option Soup) (w : World) :
  s_channels self ≠ [] →
  fragment_ok server lxml "sensor" flat_ok refreshsoup →
  channel_tables_ok server lxml →
  let got := (Sensor_get_channels server lxml self w).1.2 in
  let refreshed := (Sensor_refresh server lxml self refreshsoup w).1.2 in
  let asked := asked_before_channels (s_node self) refreshsoup (log w) in
  map oid (s_channels got) = map oid (s_channels self) ∧
  map oid (s_channels refreshed) = map oid (s_channels self) ∧
  ∀ i ch,
    s_channels self !! i = Some ch →
    (absent_from ch (channel_table server lxml (s_node self) (log w)) →
     s_channels got !! i = Some ch) ∧
    (absent_from ch (channel_table server lxml (s_node refreshed) asked) →
     s_channels refreshed !! i = Some ch).
Proof.
  intros Hne _ _ got refreshed asked.
  destruct (get_channels_keeps_absent self w Hne) as (Hg1 & _ & Hg2).
  assert (Hr : map oid (s_channels refreshed) = map oid (s_channels self) ∧
               ∀ i ch, s_channels self !! i = Some ch →
                       absent_from ch
                         (channel_table server lxml (s_node refreshed) asked) →
                       s_channels refreshed !! i = Some ch).
  { subst refreshed asked. unfold Sensor_refresh, asked_before_channels.
    destruct refreshsoup as [f|].
    - by apply Sensor_refresh_soup_keeps_absent.
    - unfold fetch_fragment, get_tree.
      pose proof (get_request_log server (s_node self)
                    ("table.xml?content=sensortree&output=xml&id="
                     +:+ py_str (attr "id" (s_node self))) true w) as Hl.
      destruct (get_request server (s_node self) _ true w)
        as [w1 [[req|]|e]]; cbn [fst snd] in *;
        try (split; [reflexivity | by intros]).
      destruct (find "sensortree" (lxml (text req))) as [st|];
        [|split; [reflexivity | by intros]].
      destruct (find "nodes" st) as [nodes|];
        [|split; [reflexivity | by intros]].
      destruct (tree_fragment "sensor" (lxml (text req))) as [f|e];
        [|split; [reflexivity | by intros]].
      assert (Hlog : log w1
                     = log w ++ [request_url (s_node self)
                                   ("table.xml?content=sensortree&output=xml&id="
                                    +:+ py_str (attr "id" (s_node self)))
                                   true]) by (by rewrite Hl).
      rewrite <- Hlog. by apply Sensor_refresh_soup_keeps_absent. }
  destruct Hr as [Hr1 Hr2]. split; [exact Hg1|]. split; [exact Hr1|].
  intros i ch Hi. split; [by apply Hg2 | by apply Hr2].
Qed.

End TreeFacts.

(** * Reconciling a collection: generic facts *)

Lemma Soup_nested_ind (P : Soup → Prop) :
  (∀ s, P (NavStr s)) →
  (∀ nm a cs, Forall P cs → P (Tag nm a cs)) →
  ∀ s, P s.
Proof.
  intros Hs Ht. fix IH 1. intros [s|nm a cs]; [apply Hs|].
  apply Ht. induction cs as [|c cs IHcs]; constructor; [apply IH | exact IHcs].
Qed.

Section MoreLoopFacts.
Context {St : Type}.

(** A property of the processed prefix, the state and the world that
    every completed round carries on holds when the loop completes. *)
Lemma for_children_ok_inv (I : list Soup → St → World → Prop)
    (step : Soup → St → World → World * St * res unit) cs st w st' w' :
  I [] st w →
  (∀ P c rest st0 w0 st1 w1,
     cs = P ++ c :: rest → I P st0 w0 →
     step c st0 w0 = (w1, st1, Ok tt) → I (P ++ [c]) st1 w1) →
  for_children step cs st w = (w', st', Ok tt) →
  I cs st' w'.
Proof.
  intros H0 Hstep.
  assert (G : ∀ P0 cs0 st0 w0,
             cs = P0 ++ cs0 → I P0 st0 w0 →
             for_children step cs0 st0 w0 = (w', st', Ok tt) →
             I cs st' w').
  { intros P0 cs0. revert P0. induction cs0 as [|c cs0 IH];
      intros P0 st0 w0 Hcs HI Hrun.
    - simpl in Hrun. inversion Hrun; subst. by rewrite app_nil_r.
    - simpl in Hrun.
      destruct (step c st0 w0) as [[w1 st1] [[]|e]] eqn:Hs; [|discriminate].
      apply (IH (P0 ++ [c]) st1 w1); [by rewrite <- app_assoc | |exact Hrun].
      by eapply Hstep. }
  intros Hrun. by apply (G [] cs st w).
Qed.

(** The loop does not lower what none of its rounds lowers. *)
Lemma for_children_mono (step : Soup → St → World → World * St * res unit)
    cs st w :
  (∀ c st0 w0, c ∈ cs → (next_oid w0 ≤ next_oid (step c st0 w0).1.1)%nat) →
  (next_oid w ≤ next_oid (for_children step cs st w).1.1)%nat.
Proof.
  revert st w. induction cs as [|c cs IH]; intros st w Hstep; [done|].
  simpl. pose proof (Hstep c st w (list_elem_of_here _ _)) as H1.
  destruct (step c st w) as [[w1 st1] [u|e]]; simpl in *; [|exact H1].
  etrans; [exact H1|]. apply IH. intros c0 st0 w0 Hin. apply Hstep.
  by apply list_elem_of_further.
Qed.

Lemma build_children_mono (step : Soup → St → World → World * St) cs st w :
  (∀ c st0 w0, c ∈ cs → (next_oid w0 ≤ next_oid (step c st0 w0).1)%nat) →
  (next_oid w ≤ next_oid (build_children step cs st w).1)%nat.
Proof.
  revert st w. induction cs as [|c cs IH]; intros st w Hstep; [done|].
  simpl. pose proof (Hstep c st w (list_elem_of_here _ _)) as H1.
  destruct (step c st w) as [w1 st1]; simpl in *.
  etrans; [exact H1|]. apply IH. intros c0 st0 w0 Hin. apply Hstep.
  by apply list_elem_of_further.
Qed.

Lemma build_children_keeps (P : St → Prop)
    (step : Soup → St → World → World * St) cs st w :
  P st →
  (∀ c st0 w0, P st0 → P (step c st0 w0).2) →
  P (build_children step cs st w).2.
Proof.
  revert st w. induction cs as [|c cs IH]; intros st w HP Hstep; [exact HP|].
  simpl. pose proof (Hstep c st w HP) as H1.
  destruct (step c st w) as [w1 st1]. by apply IH.
Qed.

End MoreLoopFacts.

Lemma elem_of_map {A B} (f : A → B) (l : list A) y :
  y ∈ map f l ↔ ∃ x, y = f x ∧ x ∈ l.
Proof. change (map f l) with (f <$> l). apply list_elem_of_fmap. Qed.

Lemma elem_of_map_2 {A B} (f : A → B) (l : list A) x :
  x ∈ l → f x ∈ map f l.
Proof. intros H. apply elem_of_map. eauto. Qed.

Lemma filter_all {A} (P : A → Prop) `{∀ x, Decision (P x)} (l : list A) :
  Forall P l → filter P l = l.
Proof.
  induction 1 as [|x l Hx _ IH]; [done|].
  by rewrite filter_cons_True, IH.
Qed.

Lemma filter_none {A} (P : A → Prop) `{∀ x, Decision (P x)} (l : list A) :
  Forall (λ x, ¬ P x) l → filter P l = [].
Proof.
  induction 1 as [|x l Hx _ IH]; [done|].
  by rewrite filter_cons_False.
Qed.

Section ReconcileFacts.
Context {T : Type} (node_of : T → Node) (sync_of : Soup → Node → Node).

#[local] Abbreviation id_of x := (attr "id" (node_of x)).


Lemma refresh_matching_oids refresh cid l w :
  (∀ x w0, oid (node_of (refresh x w0).1.2) = oid (node_of x)) →
  oids_of node_of (refresh_matching node_of refresh cid l w).1.2
  = oids_of node_of l.
Proof.
  intros Hoid. revert w. induction l as [|a l IH]; intros w; [done|].
  simpl. destruct (py_eq _ _).
  - pose proof (Hoid a w) as Ha.
    destruct (refresh a w) as [[w1 a1] [u|e]]; simpl in *.
    + pose proof (IH w1) as H1.
      destruct (refresh_matching _ _ _ _ _) as [[w2 l2] r2]. simpl in *.
      by rewrite Ha, H1.
    + by rewrite Ha.
  - pose proof (IH w) as H1.
    destruct (refresh_matching _ _ _ _ _) as [[w2 l2] r2]. simpl in *.
    by rewrite H1.
Qed.

Lemma refresh_matching_mono refresh cid l w :
  (∀ x w0, (next_oid w0 ≤ next_oid (refresh x w0).1.1)%nat) →
  (next_oid w ≤ next_oid (refresh_matching node_of refresh cid l w).1.1)%nat.
Proof.
  intros Hm. revert w. induction l as [|a l IH]; intros w; [done|].
  simpl. destruct (py_eq _ _).
  - pose proof (Hm a w) as Ha.
    destruct (refresh a w) as [[w1 a1] [u|e]]; simpl in *; [|done].
    pose proof (IH w1) as H1.
    destruct (refresh_matching _ _ _ _ _) as [[w2 l2] r2]. simpl in *. lia.
  - pose proof (IH w) as H1.
    destruct (refresh_matching _ _ _ _ _) as [[w2 l2] r2]. simpl in *. lia.
Qed.

(** A completed inner loop refreshed the elements of that id and left
    the others alone. *)
Lemma refresh_matching_ok refresh cid l w w' l' :
  refresh_matching node_of refresh cid l w = (w', l', Ok tt) →
  Forall2 (λ x x', (id_of x = cid ∧ ∃ w0 w1, refresh x w0 = (w1, x', Ok tt))
                   ∨ (id_of x ≠ cid ∧ x' = x)) l l'.
Proof.
  revert w l'. induction l as [|a l IH]; intros w l' Hrun.
  - simpl in Hrun. inversion Hrun. constructor.
  - simpl in Hrun. unfold py_eq in Hrun. case_bool_decide as Hid.
    + destruct (refresh a w) as [[w1 a1] [[]|e]] eqn:Ha; [|discriminate].
      destruct (refresh_matching _ _ _ _ _) as [[w2 l2] r2] eqn:Hl.
      inversion Hrun; subst. constructor; [left; eauto | by eapply IH].
    + destruct (refresh_matching _ _ _ _ _) as [[w2 l2] r2] eqn:Hl.
      inversion Hrun; subst. constructor; [by right | by eapply IH].
Qed.

(** ** The first pass *)

Lemma inv1_start coll w :
  identities_ok node_of w coll →
  inv1 node_of sync_of (ids_of node_of coll) [] coll [] w.
Proof.
  intros [Hnd Hfr]. split; try done.
  - simpl. by rewrite app_nil_r.
  - intros c x Hc. by apply elem_of_nil in Hc.
Qed.

Lemma inv1_frame ids0 kp coll nids w w' :
  (next_oid w ≤ next_oid w')%nat →
  inv1 node_of sync_of ids0 kp coll nids w → inv1 node_of sync_of ids0 kp coll nids w'.
Proof.
  intros Hle [H1 H2 H3 H4 H5]. split; try done.
  eapply Forall_impl; [exact H4|]. simpl. intros x Hx. lia.
Qed.

Lemma reconcile_child_inv1 refresh new ids0 kp c coll reg nids w
    w' coll' reg' nids' :
  synced_step node_of sync_of c refresh new →
  kid c ∉ map kid kp →
  inv1 node_of sync_of ids0 kp coll nids w →
  reconcile_child node_of refresh new ids0 (kid c) coll reg nids w
  = (w', (coll', reg', nids'), Ok tt) →
  inv1 node_of sync_of ids0 (kp ++ [c]) coll' nids' w'.
Proof.
  intros Hss Hfresh [H1 H2 H3 H4 H5] Hrun. unfold reconcile_child in Hrun.
  unfold py_in in Hrun. case_bool_decide as Hin.
  - destruct (refresh_matching _ _ _ _ _) as [[w1 l] [[]|e]] eqn:Hm;
      [|discriminate].
    inversion Hrun; subst; clear Hrun.
    pose proof (refresh_matching_ok _ _ _ _ _ _ Hm) as HF.
    pose proof (refresh_matching_oids refresh (kid c) coll w (ss_r_oid _ _ _ _ _ Hss))
      as Ho. rewrite Hm in Ho. simpl in Ho.
    pose proof (refresh_matching_mono refresh (kid c) coll w (ss_r_mono _ _ _ _ _ Hss))
      as Hmo. rewrite Hm in Hmo. simpl in Hmo.
    assert (Hids : ids_of node_of coll' = ids_of node_of coll).
    { clear -HF Hss. induction HF as [|x x' l l' Hx _ IH]; [done|].
      simpl. rewrite IH. f_equal.
      destruct Hx as [[Hid [w0 [w1 Hr]]]|[_ ->]]; [|done].
      rewrite (ss_r_node _ _ _ _ _ Hss _ _ _ _ Hr), (ss_id _ _ _ _ _ Hss). done. }
    split.
    + by rewrite map_app.
    + rewrite Hids, H2, map_app, filter_app. simpl.
      rewrite filter_cons_False by (intros Hn; by apply Hn).
      rewrite filter_nil. by rewrite app_nil_r.
    + by rewrite Ho.
    + apply Forall_forall. intros x' Hx'.
      assert (oid (node_of x') ∈ oids_of node_of coll) as Hox.
      { rewrite <- Ho. unfold oids_of.
        by apply (elem_of_map_2 (λ a, oid (node_of a))). }
      apply elem_of_map in Hox as [x [Heq Hx]].
      rewrite Forall_forall in H4. specialize (H4 x Hx). simpl in H4. lia.
    + intros c0 x' Hc0 Hx' Hid'.
      apply list_elem_of_lookup in Hx' as [i Hi].
      destruct (Forall2_lookup_r _ _ _ _ _ HF Hi) as [x [Hix Hrel]].
      apply elem_of_app in Hc0 as [Hc0|Hc0].
      * destruct Hrel as [[Hid [w0 [w2 Hr]]]|[Hne ->]].
        -- exfalso. apply Hfresh.
           rewrite (ss_r_node _ _ _ _ _ Hss _ _ _ _ Hr), (ss_id _ _ _ _ _ Hss) in Hid'.
           rewrite Hid'. by apply elem_of_map_2.
        -- apply H5; [done| |done]. by eapply list_elem_of_lookup_2.
      * apply list_elem_of_singleton in Hc0 as ->.
        destruct Hrel as [[Hid [w0 [w2 Hr]]]|[Hne ->]]; [|done].
        rewrite (ss_r_node _ _ _ _ _ Hss _ _ _ _ Hr). apply (ss_idem _ _ _ _ _ Hss).
  - pose proof (ss_n_oid _ _ _ _ _ Hss w) as Hno.
    pose proof (ss_n_mono _ _ _ _ _ Hss w) as Hnm.
    pose proof (ss_n_node _ _ _ _ _ Hss w) as Hnn.
    destruct (new w) as [w1 x] eqn:Hnew. simpl in *.
    inversion Hrun; subst; clear Hrun.
    assert (Hidx : id_of x = kid c).
    { rewrite <- Hnn. apply (ss_id _ _ _ _ _ Hss). }
    split.
    + by rewrite map_app.
    + unfold ids_of in *. rewrite !map_app, H2, filter_app. simpl.
      rewrite filter_cons_True by done. rewrite filter_nil, Hidx.
      by rewrite app_assoc.
    + unfold oids_of in *. rewrite map_app. simpl.
      apply NoDup_app. split; [done|]. split; [|apply NoDup_singleton].
      intros o Ho Ho'. apply list_elem_of_singleton in Ho' as ->.
      apply elem_of_map in Ho as [y [Heq Hy]].
      rewrite Forall_forall in H4. specialize (H4 y Hy). simpl in H4. lia.
    + apply Forall_app. split.
      * eapply Forall_impl; [exact H4|]. simpl. intros y Hy. lia.
      * constructor; [lia | constructor].
    + intros c0 x' Hc0 Hx' Hid'.
      apply elem_of_app in Hc0 as [Hc0|Hc0];
        apply elem_of_app in Hx' as [Hx'|Hx'].
      * by apply H5.
      * apply list_elem_of_singleton in Hx' as ->. exfalso. apply Hfresh.
        rewrite <- Hidx, Hid'. by apply elem_of_map_2.
      * apply list_elem_of_singleton in Hc0 as ->. exfalso.
        assert (kid c ∈ ids_of node_of coll) as Hk.
        { rewrite <- Hid'. unfold ids_of.
          by apply (elem_of_map_2 (λ a, id_of a)). }
        rewrite H2 in Hk. apply elem_of_app in Hk as [Hk|Hk]; [done|].
        apply list_elem_of_filter in Hk as [_ Hk]. done.
      * apply list_elem_of_singleton in Hc0 as ->.
        apply list_elem_of_singleton in Hx' as ->. done.
Qed.

(** ** The removal loop *)

Lemma last_with_id_found idval (coll : list T) cur x :
  x ∈ coll → id_of x = idval →
  ∃ l1 y l2, coll = l1 ++ y :: l2 ∧ id_of y = idval
             ∧ last_with_id node_of idval coll cur = Some (oid (node_of y)).
Proof.
  revert x. induction coll as [|a l IH] using rev_ind; intros x Hx Hid;
    [by apply elem_of_nil in Hx|].
  unfold last_with_id. rewrite foldl_app. simpl. unfold py_eq.
  case_bool_decide as Ha.
  - exists l, a, []. done.
  - apply elem_of_app in Hx as [Hx|Hx];
      [|apply list_elem_of_singleton in Hx as ->; done].
    destruct (IH x Hx Hid) as [l1 [y [l2 [-> [Hy Hl]]]]].
    exists l1, y, (l2 ++ [a]). rewrite <- app_assoc. done.
Qed.

Lemma remove_obj_NoDup (l1 l2 : list T) y :
  NoDup (oids_of node_of (l1 ++ y :: l2)) →
  remove_obj node_of (oid (node_of y)) (l1 ++ y :: l2) = Some (l1 ++ l2).
Proof.
  induction l1 as [|a l1 IH]; intros Hnd; simpl.
  - by rewrite bool_decide_true.
  - unfold oids_of in Hnd. simpl in Hnd. apply NoDup_cons in Hnd as [Hni Hnd].
    rewrite bool_decide_false.
    + by rewrite (IH Hnd).
    + intros Heq. apply Hni. rewrite Heq.
      apply (elem_of_map_2 (λ a, oid (node_of a))).
      apply elem_of_app. right. apply list_elem_of_here.
Qed.

(** A removal loop that completes leaves exactly the elements whose id
    was seen, when the stale ids still to be handled are those of the
    stale elements. *)
Lemma remove_stale_ok ids newids tr (coll : list T) reg coll2 reg2 :
  NoDup (oids_of node_of coll) →
  filter (λ v, v ∉ newids) (ids_of node_of coll)
    ≡ₚ filter (λ v, v ∉ newids) ids →
  remove_stale node_of ids newids tr coll reg = (coll2, reg2, Ok tt) →
  coll2 = filter (λ x, id_of x ∈ newids) coll.
Proof.
  revert tr coll reg. induction ids as [|idval ids IH];
    intros tr coll reg Hnd Hperm Hrun.
  - simpl in Hrun. injection Hrun as <- <-.
    rewrite filter_nil in Hperm. apply Permutation_nil_r in Hperm.
    symmetry. apply filter_all. apply Forall_forall. intros x Hx.
    destruct (decide (id_of x ∈ newids)) as [|Hn]; [done|]. exfalso.
    assert (id_of x ∈ filter (λ v, v ∉ newids) (ids_of node_of coll)) as H.
    { apply list_elem_of_filter. split; [done|].
      by apply (elem_of_map_2 (λ a, id_of a)). }
    rewrite Hperm in H. by apply elem_of_nil in H.
  - simpl in Hrun. unfold py_in in Hrun. case_bool_decide as Hin; simpl in Hrun.
    + apply (IH tr coll reg Hnd); [|exact Hrun].
      by rewrite Hperm, filter_cons_False by (intros Hn; by apply Hn).
    + rewrite filter_cons_True in Hperm by done.
      assert (idval ∈ filter (λ v, v ∉ newids) (ids_of node_of coll)) as Hx.
      { rewrite Hperm. apply list_elem_of_here. }
      apply list_elem_of_filter in Hx as [_ Hx].
      apply elem_of_map in Hx as [x [Hidx Hx]].
      destruct (last_with_id_found idval coll tr x Hx (eq_sym Hidx))
        as [l1 [y [l2 [-> [Hy Hl]]]]].
      rewrite Hl, (remove_obj_NoDup l1 l2 y Hnd) in Hrun.
      destruct (remove_oid _ reg) as [reg'|]; [|discriminate].
      assert (Hnd' : NoDup (oids_of node_of (l1 ++ l2))).
      { unfold oids_of in *. rewrite map_app in *. simpl in Hnd.
        apply NoDup_app in Hnd as [Hn1 [Hn2 Hn3]].
        apply NoDup_cons in Hn3 as [_ Hn3]. apply NoDup_app.
        repeat split; [done| |done]. intros o Ho Ho'. apply (Hn2 o Ho).
        by apply list_elem_of_further. }
      assert (Hperm' : filter (λ v, v ∉ newids) (ids_of node_of (l1 ++ l2))
                       ≡ₚ filter (λ v, v ∉ newids) ids);
        [|rewrite (IH _ _ _ Hnd' Hperm' Hrun)].
      * unfold ids_of in *. rewrite map_app in *. simpl in Hperm.
        rewrite filter_app in *. rewrite filter_cons_True in Hperm
          by (rewrite Hy; done).
        rewrite Hy in Hperm.
        rewrite <- Permutation_middle in Hperm.
        by apply Permutation_cons_inv in Hperm.
      * rewrite !filter_app, filter_cons_False; [done|].
        rewrite Hy. intros Hn. by apply Hin.
Qed.


(** What the first pass leaves, once its removal loop completed. *)
Lemma inv1_finish ids0 kcs coll nids w reg coll2 reg2 :
  inv1 node_of sync_of ids0 kcs coll nids w →
  remove_stale node_of ids0 nids None coll reg = (coll2, reg2, Ok tt) →
  coll2 = filter (λ x, id_of x ∈ map kid kcs) coll ∧
  (∀ v, v ∈ ids_of node_of coll2 → v ∈ map kid kcs) ∧
  (∀ c, c ∈ kcs → kid c ∈ ids_of node_of coll2) ∧
  (∀ c x, c ∈ kcs → x ∈ coll2 → id_of x = kid c →
          sync_of c (node_of x) = node_of x).
Proof.
  intros [H1 H2 H3 H4 H5] Hrun. subst nids.
  assert (Hc : coll2 = filter (λ x, id_of x ∈ map kid kcs) coll).
  { eapply remove_stale_ok; [exact H3| |exact Hrun].
    rewrite H2, filter_app.
    replace (filter (λ v, v ∉ map kid kcs)
               (filter (λ v, v ∉ ids0) (map kid kcs))) with (@nil pyval).
    - by rewrite app_nil_r.
    - symmetry. apply filter_none. apply Forall_forall. intros v Hv.
      apply list_elem_of_filter in Hv as [_ Hv]. intros Hn. by apply Hn. }
  split; [exact Hc|]. subst coll2. repeat split.
  - intros v Hv. apply elem_of_map in Hv as [x [-> Hx]].
    by apply list_elem_of_filter in Hx as [Hx _].
  - intros c Hc.
    assert (kid c ∈ ids_of node_of coll) as Hk.
    { rewrite H2. destruct (decide (kid c ∈ ids0)) as [Hi|Hi].
      - apply elem_of_app. by left.
      - apply elem_of_app. right. apply list_elem_of_filter. split; [done|].
        by apply elem_of_map_2. }
    apply elem_of_map in Hk as [x [Hidx Hx]].
    apply elem_of_map. exists x. split; [done|].
    apply list_elem_of_filter. split; [|done].
    rewrite <- Hidx. by apply elem_of_map_2.
  - intros c x Hc Hx Hid. apply list_elem_of_filter in Hx as [_ Hx].
    by apply H5.
Qed.

(** ** The second pass *)

Lemma reconcile_child_again refresh new ids c (coll : list T) reg nids w
    w' coll' reg' nids' :
  (∀ x w0 w1 x1, refresh x w0 = (w1, x1, Ok tt) →
                 node_of x1 = sync_of c (node_of x)) →
  kid c ∈ ids →
  (∀ x, x ∈ coll → id_of x = kid c → sync_of c (node_of x) = node_of x) →
  reconcile_child node_of refresh new ids (kid c) coll reg nids w
  = (w', (coll', reg', nids'), Ok tt) →
  map node_of coll' = map node_of coll ∧ nids' = nids ++ [kid c].
Proof.
  intros Hnode Hin Hsync Hrun. unfold reconcile_child in Hrun.
  unfold py_in in Hrun. rewrite bool_decide_true in Hrun by done.
  destruct (refresh_matching _ _ _ _ _) as [[w1 l] [[]|e]] eqn:Hm;
    [|discriminate].
  inversion Hrun; subst; clear Hrun. split; [|done].
  pose proof (refresh_matching_ok _ _ _ _ _ _ Hm) as HF.
  clear Hm. induction HF as [|x x' l l' Hx _ IH]; [done|].
  simpl. rewrite IH.
  - f_equal. destruct Hx as [[Hid [w0 [w2 Hr]]]|[_ ->]]; [|done].
    rewrite (Hnode _ _ _ _ Hr). apply Hsync; [apply list_elem_of_here | done].
  - intros y Hy. apply Hsync. by apply list_elem_of_further.
Qed.

(** ** The registry *)

(** The block keeps a registry that lists the objects of the
    collection. *)
Lemma reconcile_child_reg refresh new ids cid (coll : list T) reg nids w
    w' coll' reg' nids' :
  (∀ x w0, oid (node_of (refresh x w0).1.2) = oid (node_of x)) →
  reg = oids_of node_of coll →
  reconcile_child node_of refresh new ids cid coll reg nids w
  = (w', (coll', reg', nids'), Ok tt) →
  reg' = oids_of node_of coll'.
Proof.
  intros Hoid -> Hrun. unfold reconcile_child in Hrun.
  destruct (py_in cid ids).
  - pose proof (refresh_matching_oids refresh cid coll w Hoid) as Ho.
    destruct (refresh_matching _ _ _ _ _) as [[w1 l] [[]|e]];
      [|discriminate].
    simpl in Ho. inversion Hrun; subst. done.
  - destruct (new w) as [w1 x]. inversion Hrun; subst.
    unfold oids_of. by rewrite map_app.
Qed.

Lemma remove_obj_oids o (l l' : list T) :
  remove_obj node_of o l = Some l' →
  remove_oid o (oids_of node_of l) = Some (oids_of node_of l').
Proof.
  revert l'. induction l as [|a l IH]; intros l' H; [discriminate|].
  simpl in *. destruct (bool_decide (oid (node_of a) = o)).
  - by injection H as <-.
  - destruct (remove_obj node_of o l) as [r|]; [|discriminate].
    injection H as <-. by rewrite (IH r eq_refl).
Qed.

(** With such a registry the removal loop leaves such a registry,
    however it ends. *)
Lemma remove_stale_reg ids newids tr (coll : list T) coll2 reg2 r :
  remove_stale node_of ids newids tr coll (oids_of node_of coll)
  = (coll2, reg2, r) →
  reg2 = oids_of node_of coll2.
Proof.
  revert tr coll. induction ids as [|idval ids IH]; intros tr coll Hrun.
  - simpl in Hrun. by injection Hrun as <- <- _.
  - simpl in Hrun. destruct (negb (py_in idval newids)).
    + destruct (last_with_id _ _ _ _) as [o|];
        [|by injection Hrun as <- <- _].
      destruct (remove_obj node_of o coll) as [coll'|] eqn:Hro;
        [|by injection Hrun as <- <- _].
      rewrite (remove_obj_oids _ _ _ Hro) in Hrun. by eapply IH.
    + by eapply IH.
Qed.

(** With such a registry the removal loop completes, when the stale ids
    still to be handled are those of the stale elements. *)
Lemma remove_stale_total ids newids tr (coll : list T) :
  NoDup (oids_of node_of coll) →
  filter (λ v, v ∉ newids) (ids_of node_of coll)
    ≡ₚ filter (λ v, v ∉ newids) ids →
  (remove_stale node_of ids newids tr coll (oids_of node_of coll)).2 = Ok tt.
Proof.
  revert tr coll. induction ids as [|idval ids IH]; intros tr coll Hnd Hperm;
    [done|].
  simpl. unfold py_in. case_bool_decide as Hin; simpl.
  - apply (IH tr coll Hnd).
    by rewrite Hperm, filter_cons_False by (intros Hn; by apply Hn).
  - rewrite filter_cons_True in Hperm by done.
    assert (idval ∈ filter (λ v, v ∉ newids) (ids_of node_of coll)) as Hx.
    { rewrite Hperm. apply list_elem_of_here. }
    apply list_elem_of_filter in Hx as [_ Hx].
    apply elem_of_map in Hx as [x [Hidx Hx]].
    destruct (last_with_id_found idval coll tr x Hx (eq_sym Hidx))
      as [l1 [y [l2 [-> [Hy Hl]]]]].
    rewrite Hl.
    pose proof (remove_obj_NoDup l1 l2 y Hnd) as Hro. rewrite Hro.
    rewrite (remove_obj_oids _ _ _ Hro).
    apply IH.
    + unfold oids_of in *. rewrite map_app in *. simpl in Hnd.
      apply NoDup_app in Hnd as [Hn1 [Hn2 Hn3]].
      apply NoDup_cons in Hn3 as [_ Hn3]. apply NoDup_app.
      repeat split; [done| |done]. intros o Ho Ho'. apply (Hn2 o Ho).
      by apply list_elem_of_further.
    + unfold ids_of in *. rewrite map_app in *. simpl in Hperm.
      rewrite filter_app in *. rewrite filter_cons_True in Hperm
        by (rewrite Hy; done).
      rewrite Hy in Hperm.
      rewrite <- Permutation_middle in Hperm.
      by apply Permutation_cons_inv in Hperm.
Qed.

End ReconcileFacts.

(** * Scalar writes *)

Lemma node_eq (n m : Node) :
  oid n = oid m → cls n = cls m → attrs n = attrs m →
  attributes n = attributes m → confdata n = confdata m → n = m.
Proof. destruct n, m. simpl. by intros -> -> -> -> ->. Qed.

Lemma set_scalars_app l1 l2 n :
  set_scalars (l1 ++ l2) n = set_scalars l2 (set_scalars l1 n).
Proof. unfold set_scalars. apply foldl_app. Qed.

Lemma set_scalars_frame cs n :
  oid (set_scalars cs n) = oid n ∧ cls (set_scalars cs n) = cls n ∧
  attributes (set_scalars cs n) = attributes n ∧
  confdata (set_scalars cs n) = confdata n.
Proof.
  revert n. induction cs as [|c cs IH]; intros n; [done|].
  unfold set_scalars in *. simpl.
  destruct (IH (set_scalar c n)) as (-> & -> & -> & ->). by destruct c.
Qed.

Lemma attrs_set_scalars k cs n :
  attrs (set_scalars cs n) !! k = last_scalar k cs (attrs n !! k).
Proof.
  revert n. induction cs as [|c cs IH]; intros n; [done|].
  unfold set_scalars in *. simpl. rewrite IH. f_equal.
  destruct c as [t|nm a l]; [done|]. simpl.
  destruct (String.eqb_spec nm k) as [->|Hne].
  - by rewrite lookup_insert_eq.
  - by rewrite lookup_insert_ne.
Qed.

Lemma last_scalar_cur k cs cur :
  last_scalar k cs cur
  = match last_scalar k cs None with Some v => Some v | None => cur end.
Proof.
  revert cur. induction cs as [|c cs IH]; intros cur; [done|].
  simpl. destruct c as [t|nm a l]; [apply IH|].
  destruct (String.eqb nm k); [|apply IH].
  rewrite (IH (Some _)). by destruct (last_scalar k cs None).
Qed.

Lemma set_scalars_idem cs n :
  set_scalars cs (set_scalars cs n) = set_scalars cs n.
Proof.
  destruct (set_scalars_frame cs (set_scalars cs n)) as (H1 & H2 & H3 & H4).
  apply node_eq; try done. apply map_eq. intros k.
  rewrite !attrs_set_scalars. rewrite (last_scalar_cur k cs (last_scalar _ _ _)).
  rewrite (last_scalar_cur k cs (attrs n !! k)).
  by destruct (last_scalar k cs None).
Qed.

Lemma set_scalars_setattr k v cs n :
  last_scalar k cs None = None →
  set_scalars cs (setattr k v n) = setattr k v (set_scalars cs n).
Proof.
  intros Hk.
  destruct (set_scalars_frame cs (setattr k v n)) as (H1 & H2 & H3 & H4).
  destruct (set_scalars_frame cs n) as (G1 & G2 & G3 & G4).
  apply node_eq; simpl in *; try congruence. apply map_eq. intros k'.
  rewrite attrs_set_scalars. simpl. destruct (decide (k = k')) as [<-|Hne].
  - rewrite !lookup_insert_eq, last_scalar_cur, Hk. done.
  - rewrite !lookup_insert_ne by done. by rewrite attrs_set_scalars.
Qed.

Lemma set_scalars_set_attributes a cs n :
  set_scalars cs (set_attributes a n) = set_attributes a (set_scalars cs n).
Proof.
  destruct (set_scalars_frame cs (set_attributes a n)) as (H1 & H2 & H3 & H4).
  destruct (set_scalars_frame cs n) as (G1 & G2 & G3 & G4).
  apply node_eq; simpl in *; try congruence. apply map_eq. intros k.
  by rewrite !attrs_set_scalars.
Qed.

Lemma set_scalars_named cs n :
  set_scalars (scalars [] cs) n = set_scalars cs n.
Proof.
  revert n. induction cs as [|c cs IH]; intros n; [done|].
  unfold scalars in *. destruct c as [t|nm a l].
  - rewrite filter_cons_False by done. unfold set_scalars in *. simpl.
    apply IH.
  - rewrite filter_cons_True by done.
    unfold set_scalars in *. simpl. apply IH.
Qed.

Lemma sync_idem kinds c n : sync kinds c (sync kinds c n) = sync kinds c n.
Proof.
  unfold sync. rewrite set_scalars_set_attributes, set_scalars_idem. done.
Qed.

Lemma oid_sync kinds c n : oid (sync kinds c n) = oid n.
Proof. unfold sync. simpl. apply set_scalars_frame. Qed.

Lemma child_ok_id kinds typed c n :
  child_ok kinds typed c = true → attr "id" (sync kinds c n) = kid c.
Proof.
  unfold child_ok, kid. intros H. apply andb_prop in H as [H _].
  destruct (find_string "id" c) as [v|e]; [|done].
  apply bool_decide_eq_true in H. unfold sync, attr. simpl.
  rewrite attrs_set_scalars, last_scalar_cur, H. done.
Qed.

Lemma child_ok_type kinds c :
  child_ok kinds true c = true →
  last_scalar "type" (scalars kinds (children c)) None = None.
Proof.
  unfold child_ok. intros H. apply andb_prop in H as [_ H]. simpl in H.
  by apply bool_decide_eq_true in H.
Qed.

(** A node built as the constructors of Device and Group do stays as it
    is under a refresh against the same fragment. *)
Lemma sync_after_init kinds c v n :
  child_ok kinds true c = true →
  sync kinds c (setattr "type" v (sync kinds c n))
  = setattr "type" v (sync kinds c n).
Proof.
  intros Hok. unfold sync at 1.
  rewrite (set_scalars_setattr _ _ _ _ (child_ok_type _ _ Hok)).
  change (setattr "type" v (sync kinds c (sync kinds c n))
          = setattr "type" v (sync kinds c n)).
  by rewrite sync_idem.
Qed.

Lemma of_kind_app kind l1 l2 :
  of_kind kind (l1 ++ l2) = of_kind kind l1 ++ of_kind kind l2.
Proof. apply filter_app. Qed.

Lemma of_kind_one kind c :
  of_kind kind [c] = if decide (soup_name c = Some kind) then [c] else [].
Proof. unfold of_kind. by rewrite filter_cons, filter_nil. Qed.

Lemma level_ok_child kind kinds typed cs c :
  level_ok kind kinds typed cs = true → c ∈ cs → soup_name c = Some kind →
  child_ok kinds typed c = true.
Proof.
  unfold level_ok. intros H Hc Hk. apply andb_prop in H as [H _].
  rewrite forallb_forall in H. apply H. apply list_elem_of_In.
  apply list_elem_of_filter. done.
Qed.

Lemma level_ok_fresh kind kinds typed P c rest :
  level_ok kind kinds typed (P ++ c :: rest) = true →
  soup_name c = Some kind →
  kid c ∉ map kid (of_kind kind P).
Proof.
  unfold level_ok. intros H Hk. apply andb_prop in H as [_ H].
  apply bool_decide_eq_true in H.
  rewrite of_kind_app, map_app in H. apply NoDup_app in H as [_ [H _]].
  intros Hin. apply (H _ Hin). unfold of_kind.
  rewrite filter_cons_True by done. simpl. apply list_elem_of_here.
Qed.

(** * One level of the tree, one kind of children *)

Section LevelFacts.
Context {T St : Type} (node_of : T → Node).
Context (kind : string) (kinds : list string) (typed : bool).
Context (proj : St → list T * list pyval) (preg : St → list nat).

Lemma first_pass_loop ids0 step cs coll0 st0 w st' w' :
  step_reconciles node_of kind kinds typed proj preg ids0 step →
  level_ok kind kinds typed cs = true →
  identities_ok node_of w coll0 →
  proj st0 = (coll0, []) →
  ids0 = ids_of node_of coll0 →
  for_children step cs st0 w = (w', st', Ok tt) →
  inv1 node_of (sync kinds) ids0 (of_kind kind cs) (proj st').1 (proj st').2 w'.
Proof.
  intros Hstep Hok Hid Hp0 -> Hrun.
  apply (for_children_ok_inv
           (λ P st w, inv1 node_of (sync kinds) (ids_of node_of coll0)
                        (of_kind kind P) (proj st).1 (proj st).2 w)
           step cs st0 w st' w'); [| |exact Hrun].
  - rewrite Hp0. simpl. by apply inv1_start.
  - intros P c rest sta wa stb wb Hcs HI Hs.
    destruct (Hstep c sta wa wb stb Hs) as [HK HO].
    rewrite of_kind_app, of_kind_one. case_decide as Hk.
    + destruct (HK Hk) as [refresh [new [Hss Hrc]]].
      eapply reconcile_child_inv1; [| |exact HI|].
      * apply Hss. eapply level_ok_child; [exact Hok| |exact Hk].
        subst cs. apply elem_of_app. right. apply list_elem_of_here.
      * subst cs. eapply level_ok_fresh; [exact Hok|exact Hk].
      * rewrite Hrc. done.
    + destruct (HO Hk) as [Hpr [_ Hmo]]. rewrite app_nil_r, Hpr.
      by eapply inv1_frame.
Qed.

Lemma second_pass_loop ids1 step cs coll st0 w st' w' :
  step_reconciles node_of kind kinds typed proj preg ids1 step →
  level_ok kind kinds typed cs = true →
  proj st0 = (coll, []) →
  (∀ c, c ∈ of_kind kind cs → kid c ∈ ids1) →
  (∀ c x, c ∈ of_kind kind cs → x ∈ coll → attr "id" (node_of x) = kid c →
          sync kinds c (node_of x) = node_of x) →
  for_children step cs st0 w = (w', st', Ok tt) →
  map node_of (proj st').1 = map node_of coll ∧
  (proj st').2 = map kid (of_kind kind cs).
Proof.
  intros Hstep Hok Hp0 Hpres Hsync Hrun.
  apply (for_children_ok_inv
           (λ P st w, map node_of (proj st).1 = map node_of coll ∧
                      (proj st).2 = map kid (of_kind kind P))
           step cs st0 w st' w'); [| |exact Hrun].
  - by rewrite Hp0.
  - intros P c rest sta wa stb wb Hcs [HI1 HI2] Hs.
    destruct (Hstep c sta wa wb stb Hs) as [HK HO].
    rewrite of_kind_app, of_kind_one. case_decide as Hk.
    + destruct (HK Hk) as [refresh [new [Hss Hrc]]].
      assert (Hin : c ∈ of_kind kind cs).
      { apply list_elem_of_filter. split; [done|]. subst cs.
        apply elem_of_app. right. apply list_elem_of_here. }
      assert (Hc : child_ok kinds typed c = true).
      { eapply level_ok_child; [exact Hok| |exact Hk].
        by apply list_elem_of_filter in Hin as [_ ?]. }
      destruct (reconcile_child_again node_of (sync kinds) refresh new ids1 c
                  (proj sta).1 (preg sta) (proj sta).2 wa wb (proj stb).1
                  (preg stb) (proj stb).2) as [H1 H2].
      * apply (ss_r_node _ _ _ _ _ (Hss Hc)).
      * by apply Hpres.
      * intros x Hx Hidx.
        assert (node_of x ∈ map node_of coll) as Hn.
        { rewrite <- HI1. by apply elem_of_map_2. }
        apply elem_of_map in Hn as [y [Hy Hyc]]. rewrite Hy.
        apply Hsync; [done..|]. by rewrite <- Hy.
      * exact Hrc.
      * split; [by rewrite H1|]. by rewrite H2, HI2, map_app.
    + destruct (HO Hk) as [Hpr _]. rewrite app_nil_r, Hpr. done.
Qed.


(** The first pass keeps a registry that lists the objects of the
    collection. *)
Lemma first_pass_registry ids0 step cs st0 w st' w' :
  step_reconciles node_of kind kinds typed proj preg ids0 step →
  level_ok kind kinds typed cs = true →
  preg st0 = oids_of node_of (proj st0).1 →
  for_children step cs st0 w = (w', st', Ok tt) →
  preg st' = oids_of node_of (proj st').1.
Proof.
  intros Hstep Hok Hp0 Hrun.
  apply (for_children_ok_inv
           (λ _ st _, preg st = oids_of node_of (proj st).1)
           step cs st0 w st' w'); [done| |exact Hrun].
  intros P c rest sta wa stb wb Hcs HI Hs.
  destruct (Hstep c sta wa wb stb Hs) as [HK HO].
  destruct (decide (soup_name c = Some kind)) as [Hk|Hk].
  - destruct (HK Hk) as [refresh [new [Hss Hrc]]].
    eapply reconcile_child_reg; [|exact HI|exact Hrc].
    apply (ss_r_oid _ _ _ _ _ (Hss (level_ok_child _ _ _ _ _ Hok
             ltac:(subst cs; apply elem_of_app; right; apply list_elem_of_here)
             Hk))).
  - destruct (HO Hk) as [Hpr [Hrg _]]. by rewrite Hpr, Hrg.
Qed.

(** One pass over the children of a collection whose registry lists its
    objects and whose elements carry distinct ids: the removal loop
    completes, the collection then holds one element per id of the
    fragment and no other, and the registry lists them. *)
Lemma reconcile_once step cs coll0 st0 w st' w' :
  level_ok kind kinds typed cs = true →
  identities_ok node_of w coll0 →
  NoDup (ids_of node_of coll0) →
  step_reconciles node_of kind kinds typed proj preg (ids_of node_of coll0)
    step →
  proj st0 = (coll0, []) →
  preg st0 = oids_of node_of coll0 →
  for_children step cs st0 w = (w', st', Ok tt) →
  ∃ coll2,
    remove_stale node_of (ids_of node_of coll0) (proj st').2 None
      (proj st').1 (preg st') = (coll2, oids_of node_of coll2, Ok tt) ∧
    ids_of node_of coll2 ≡ₚ map kid (of_kind kind cs) ∧
    NoDup (oids_of node_of coll2).
Proof.
  intros Hok Hid Hnd Hstep Hp0 Hr0 Hrun.
  pose proof (first_pass_loop _ _ _ _ _ _ _ _ Hstep Hok Hid Hp0 eq_refl Hrun)
    as Hinv.
  assert (Hreg : preg st' = oids_of node_of (proj st').1).
  { eapply first_pass_registry; [exact Hstep|exact Hok| |exact Hrun].
    by rewrite Hp0. }
  assert (Hk : NoDup (map kid (of_kind kind cs))).
  { unfold level_ok in Hok. apply andb_prop in Hok as [_ Hok].
    by apply bool_decide_eq_true in Hok. }
  rewrite Hreg.
  destruct (remove_stale node_of (ids_of node_of coll0) (proj st').2 None
              (proj st').1 (oids_of node_of (proj st').1))
    as [[coll2 reg2] r] eqn:Hrm.
  pose proof (remove_stale_reg _ _ _ _ _ _ _ _ Hrm) as ->.
  assert (Hr : r = Ok tt).
  { pose proof (remove_stale_total node_of (ids_of node_of coll0)
                  (proj st').2 None (proj st').1 (inv_nodup _ _ _ _ _ _ _ Hinv))
      as Ht.
    rewrite Hrm in Ht. simpl in Ht. apply Ht.
    rewrite (inv_ids _ _ _ _ _ _ _ Hinv), (inv_nids _ _ _ _ _ _ _ Hinv).
    rewrite filter_app.
    replace (filter (λ v, v ∉ map kid (of_kind kind cs))
               (filter (λ v, v ∉ ids_of node_of coll0)
                  (map kid (of_kind kind cs)))) with (@nil pyval).
    - by rewrite app_nil_r.
    - symmetry. apply filter_none. apply Forall_forall. intros v Hv.
      apply list_elem_of_filter in Hv as [_ Hv]. intros Hn. by apply Hn. }
  subst r. exists coll2. split; [done|].
  destruct (inv1_finish _ _ _ _ _ _ _ _ _ _ Hinv Hrm) as (Hc & F1 & F2 & _).
  assert (Hnc : NoDup (ids_of node_of (proj st').1)).
  { rewrite (inv_ids _ _ _ _ _ _ _ Hinv). apply NoDup_app.
    repeat split; [done| |by apply NoDup_filter].
    intros v Hv Hv'. by apply list_elem_of_filter in Hv' as [Hv' _]. }
  split.
  - apply NoDup_Permutation; [| done |].
    + rewrite Hc. clear -Hnc. induction (proj st').1 as [|x l IH]; [constructor|].
      simpl in Hnc. apply NoDup_cons in Hnc as [Hx Hl].
      rewrite filter_cons. case_decide; [|by apply IH].
      simpl. apply NoDup_cons. split; [|by apply IH].
      intros Hin. apply Hx. apply elem_of_map in Hin as [y [Hy Hin]].
      apply list_elem_of_filter in Hin as [_ Hin]. rewrite Hy.
      by apply (elem_of_map_2 (λ a, attr "id" (node_of a))).
    + intros v. split; [apply F1|].
      intros Hv. apply elem_of_map in Hv as [c [-> Hc']]. by apply F2.
  - rewrite Hc. pose proof (inv_nodup _ _ _ _ _ _ _ Hinv) as Ho. clear -Ho.
    induction (proj st').1 as [|x l IH]; [constructor|].
    simpl in Ho. apply NoDup_cons in Ho as [Hx Hl].
    rewrite filter_cons. case_decide; [|by apply IH].
    simpl. apply NoDup_cons. split; [|by apply IH].
    intros Hin. apply Hx. apply elem_of_map in Hin as [y [Hy Hin]].
    apply list_elem_of_filter in Hin as [_ Hin]. rewrite Hy.
    by apply (elem_of_map_2 (λ a, oid (node_of a))).
Qed.

End LevelFacts.

(** * Sensors, devices and groups as elements of a collection *)

Section KindFacts.

Context (server : list string → string → Response) (lxml : string → Soup).

Lemma get_request_next_oid self url api w :
  next_oid (get_request server self url api w).1 = next_oid w.
Proof. by rewrite get_request_log. Qed.

Lemma append_channels_frame items self w :
  s_node (append_channels items self w).1.2 = s_node self ∧
  (next_oid w ≤ next_oid (append_channels items self w).1.1)%nat.
Proof.
  revert self w. induction items as [|c items IH]; intros self w; [done|].
  simpl. destruct (Channel_initialize _ _) as [ch|e]; simpl;
    [|split; [done | lia]].
  destruct (IH (mkSensor (s_node self) (s_channels self ++ [ch])) (alloc w))
    as [H1 H2]. split; [exact H1|]. simpl in H2. lia.
Qed.

Lemma Sensor_get_channels_frame self w :
  s_node (Sensor_get_channels server lxml self w).1.2 = s_node self ∧
  (next_oid w ≤ next_oid (Sensor_get_channels server lxml self w).1.1)%nat.
Proof.
  unfold Sensor_get_channels.
  pose proof (get_request_next_oid (s_node self) (channel_url (s_node self))
                true w) as Hn.
  destruct (get_request _ _ _ _ _) as [w1 [[req|]|e]]; simpl in *;
    try (split; [done | lia]).
  destruct (s_channels self) as [|ch chs].
  - destruct (append_channels_frame (find_all "item" (lxml (text req))) self w1)
      as [H1 H2]. split; [exact H1 | lia].
  - destruct (refresh_channels _ _) as [chs' r]. simpl. split; [done | lia].
Qed.

Lemma Sensor_refresh_soup_node c self w :
  s_node (Sensor_refresh_soup server lxml c self w).1.2
  = match c with
    | NavStr _ => s_node self
    | Tag _ _ _ => sync [] c (s_node self)
    end.
Proof.
  unfold Sensor_refresh_soup. destruct c as [t|nm a cs]; [done|].
  unfold sync. simpl. rewrite set_scalars_named.
  destruct (s_channels self); [done|].
  by destruct (Sensor_get_channels_frame
                 (mkSensor (set_attributes a (set_scalars cs (s_node self)))
                    (n :: l)) w) as [-> _].
Qed.

Lemma Sensor_refresh_soup_mono c self w :
  (next_oid w ≤ next_oid (Sensor_refresh_soup server lxml c self w).1.1)%nat.
Proof.
  unfold Sensor_refresh_soup. destruct c as [t|nm a cs]; [done|].
  destruct (s_channels self); [done|]. apply Sensor_get_channels_frame.
Qed.

Lemma sensor_synced_step c deviceid conf :
  child_ok [] false c = true →
  synced_step s_node (sync []) c (Sensor_refresh_soup server lxml c)
    (Sensor_new c deviceid conf).
Proof.
  intros Hok. split.
  - intros n. by eapply child_ok_id.
  - intros n. apply sync_idem.
  - intros x w. rewrite Sensor_refresh_soup_node.
    destruct c; [done | apply oid_sync].
  - intros x w. apply Sensor_refresh_soup_mono.
  - intros x w w' x' Hr.
    pose proof (Sensor_refresh_soup_node c x w) as Hn. rewrite Hr in Hn.
    simpl in Hn. destruct c; [|done]. discriminate Hr.
  - intros w. unfold Sensor_new. simpl. apply set_scalars_frame.
  - intros w. simpl. lia.
  - intros w. unfold Sensor_new. simpl.
    rewrite <- (set_scalars_named (children c)).
    apply (sync_idem [] c).
Qed.

(** ** Device *)

Lemma reconcile_child_mono {T} (node_of : T → Node) refresh new ids cid coll
    reg nids w :
  (∀ x w0, (next_oid w0 ≤ next_oid (refresh x w0).1.1)%nat) →
  (∀ w0, (next_oid w0 ≤ next_oid (new w0).1)%nat) →
  (next_oid w
   ≤ next_oid (reconcile_child node_of refresh new ids cid coll reg nids w).1.1)%nat.
Proof.
  intros Hr Hn. unfold reconcile_child. destruct (py_in cid ids).
  - pose proof (refresh_matching_mono node_of refresh cid coll w Hr) as H.
    destruct (refresh_matching _ _ _ _ _) as [[w1 l] [u|e]]; exact H.
  - pose proof (Hn w) as H. destruct (new w) as [w1 x]. exact H.
Qed.

Lemma Device_refresh_step_frame sensorids child st w :
  oid (d_node (Device_refresh_step server lxml sensorids child st w).1.2.1)
  = oid (d_node st.1) ∧
  (next_oid w
   ≤ next_oid (Device_refresh_step server lxml sensorids child st w).1.1)%nat.
Proof.
  destruct st as [d nids]. unfold Device_refresh_step.
  destruct child as [t|nm a cs]; [done|].
  destruct (String.eqb nm "sensor"); [|done].
  destruct (find_string "id" (Tag nm a cs)) as [cid|e]; [|done].
  pose proof (reconcile_child_mono s_node
                (Sensor_refresh_soup server lxml (Tag nm a cs))
                (Sensor_new (Tag nm a cs) (attr "id" (d_node d))
                   (confdata (d_node d)))
                sensorids cid (d_sensors d) (d_allsensors d) nids w
                (Sensor_refresh_soup_mono _)) as H.
  destruct (reconcile_child _ _ _ _ _ _ _ _ _) as [[w1 [[ss reg] nids']] r].
  split; [done|]. apply H. intros w0. simpl. lia.
Qed.

Lemma Device_refresh_soup_oid c self w :
  oid (d_node (Device_refresh_soup server lxml c self w).1.2) = oid (d_node self).
Proof.
  unfold Device_refresh_soup. destruct c as [t|nm a cs]; [done|].
  pose proof (for_children_keeps
                (λ st : Device * list pyval, oid (d_node st.1) = oid (d_node self))
                (Device_refresh_step server lxml (ids_of s_node (d_sensors self)))
                cs (self, []) w eq_refl) as H.
  destruct (for_children _ _ _ _) as [[w1 [d1 nids]] r]. simpl in H.
  assert (H1 : oid (d_node d1) = oid (d_node self)).
  { apply H. intros c st0 w0 _ Hst.
    destruct (Device_refresh_step_frame (ids_of s_node (d_sensors self))
                c st0 w0) as [-> _]. exact Hst. }
  destruct r as [u|e]; [|exact H1].
  destruct (remove_stale _ _ _ _ _ _) as [[ss reg] [u2|e2]]; exact H1.
Qed.

Lemma Device_refresh_soup_mono c self w :
  (next_oid w ≤ next_oid (Device_refresh_soup server lxml c self w).1.1)%nat.
Proof.
  unfold Device_refresh_soup. destruct c as [t|nm a cs]; [done|].
  pose proof (for_children_mono
                (Device_refresh_step server lxml (ids_of s_node (d_sensors self)))
                cs (self, []) w) as H.
  destruct (for_children _ _ _ _) as [[w1 [d1 nids]] r]. simpl in H.
  assert (H1 : (next_oid w ≤ next_oid w1)%nat).
  { apply H. intros c st0 w0 _. apply Device_refresh_step_frame. }
  destruct r as [u|e]; [|exact H1].
  destruct (remove_stale _ _ _ _ _ _) as [[ss reg] [u2|e2]]; exact H1.
Qed.

Lemma scalars_app kinds l1 l2 :
  scalars kinds (l1 ++ l2) = scalars kinds l1 ++ scalars kinds l2.
Proof. apply filter_app. Qed.

Lemma is_scalar_kind kinds nm a l :
  nm ∈ kinds → is_scalar kinds (Tag nm a l) ≠ true.
Proof. intros H. unfold is_scalar. by rewrite bool_decide_true. Qed.

Lemma is_scalar_other kinds nm a l :
  nm ∉ kinds → is_scalar kinds (Tag nm a l) = true.
Proof. intros H. unfold is_scalar. by rewrite bool_decide_false. Qed.

Lemma Device_refresh_loop_node sensorids cs d w w' d' nids' :
  for_children (Device_refresh_step server lxml sensorids) cs (d, []) w
  = (w', (d', nids'), Ok tt) →
  d_node d' = set_scalars (scalars ["sensor"] cs) (d_node d).
Proof.
  intros Hrun.
  apply (for_children_ok_inv
           (λ P (st : Device * list pyval) (_ : World),
              d_node st.1 = set_scalars (scalars ["sensor"] P) (d_node d))
           (Device_refresh_step server lxml sensorids)
           cs (d, []) w (d', nids') w'); [done| |exact Hrun].
  intros P c rest [d0 n0] w0 [d1 n1] w1 _ HI Hs. simpl in *.
  rewrite scalars_app, set_scalars_app, <- HI. unfold scalars.
  unfold Device_refresh_step in Hs. destruct c as [t|nm a l].
  - inversion Hs; subst. by rewrite filter_cons_False.
  - destruct (String.eqb_spec nm "sensor") as [->|Hne].
    + rewrite filter_cons_False
        by (apply is_scalar_kind, list_elem_of_here).
      destruct (find_string _ _) as [cid|e]; [|discriminate].
      destruct (reconcile_child _ _ _ _ _ _ _ _ _) as [[w2 [[ss reg] nn]] r].
      by inversion Hs.
    + rewrite filter_cons_True
        by (apply is_scalar_other; by intros ->%list_elem_of_singleton).
      by inversion Hs.
Qed.

Lemma Device_refresh_soup_node c self w w' self' :
  Device_refresh_soup server lxml c self w = (w', self', Ok tt) →
  d_node self' = sync ["sensor"] c (d_node self).
Proof.
  unfold Device_refresh_soup. destruct c as [t|nm a cs]; [discriminate|].
  destruct (for_children _ _ _ _) as [[w1 [d1 nids]] [[]|e]] eqn:Hl;
    [|discriminate].
  apply Device_refresh_loop_node in Hl.
  destruct (remove_stale _ _ _ _ _ _) as [[ss reg] [[]|e2]]; [|discriminate].
  intros H. inversion H; subst. simpl. by rewrite Hl.
Qed.

Lemma Device_init_step_frame child self w :
  oid (d_node (Device_init_step child self w).2) = oid (d_node self) ∧
  (next_oid w ≤ next_oid (Device_init_step child self w).1)%nat.
Proof.
  unfold Device_init_step. destruct child as [t|nm a cs]; [done|].
  destruct (String.eqb nm "sensor"); simpl; [split; [done | lia] | done].
Qed.

Lemma build_children_inv {St} (I : list Soup → St → Prop)
    (step : Soup → St → World → World * St) cs st w :
  I [] st →
  (∀ P c st0 w0, I P st0 → I (P ++ [c]) (step c st0 w0).2) →
  I cs (build_children step cs st w).2.
Proof.
  intros H0 Hstep.
  assert (G : ∀ cs0 P0 st0 w0,
             I P0 st0 → I (P0 ++ cs0) (build_children step cs0 st0 w0).2).
  { induction cs0 as [|c cs0 IH]; intros P0 st0 w0 HI.
    - by rewrite app_nil_r.
    - simpl. pose proof (Hstep P0 c st0 w0 HI) as H1.
      destruct (step c st0 w0) as [w1 st1]. simpl in H1.
      replace (P0 ++ c :: cs0) with ((P0 ++ [c]) ++ cs0)
        by (by rewrite <- app_assoc).
      by apply IH. }
  by apply (G cs [] st w).
Qed.

Lemma Device_new_facts c conf w :
  oid (d_node (Device_new c conf w).2) = next_oid w ∧
  (next_oid w < next_oid (Device_new c conf w).1)%nat ∧
  ∃ n, d_node (Device_new c conf w).2
       = setattr "type" (VStr "Device") (sync ["sensor"] c n).
Proof.
  unfold Device_new.
  set (self := mkNode (next_oid w) CDevice _ None conf).
  pose proof (build_children_keeps
                (λ d : Device, oid (d_node d) = next_oid w)
                Device_init_step (children c) (mkDevice self [] [] [])
                (alloc w) eq_refl) as Ho.
  pose proof (build_children_mono Device_init_step (children c)
                (mkDevice self [] [] []) (alloc w)) as Hm.
  pose proof (build_children_inv
                (λ P (d : Device),
                   d_node d = set_scalars (scalars ["sensor"] P) self)
                Device_init_step (children c) (mkDevice self [] [] [])
                (alloc w) eq_refl) as Hn.
  destruct (build_children _ _ _ _) as [w1 d1]. simpl in *.
  split; [|split].
  - apply Ho. intros ch st0 w0 Hst.
    by destruct (Device_init_step_frame ch st0 w0) as [-> _].
  - assert (S (next_oid w) ≤ next_oid w1)%nat; [|lia].
    apply Hm. intros ch st0 w0 _. apply Device_init_step_frame.
  - exists self. unfold sync. rewrite <- Hn; [done|].
    intros P ch st0 w0 HI. rewrite scalars_app, set_scalars_app, <- HI.
    unfold scalars, Device_init_step. destruct ch as [t|nm a l].
    + by rewrite filter_cons_False.
    + destruct (String.eqb_spec nm "sensor") as [->|Hne].
      * by rewrite filter_cons_False
          by (apply is_scalar_kind, list_elem_of_here).
      * by rewrite filter_cons_True
          by (apply is_scalar_other; by intros ->%list_elem_of_singleton).
Qed.

Lemma device_synced_step c conf :
  child_ok ["sensor"] true c = true →
  synced_step d_node (sync ["sensor"]) c (Device_refresh_soup server lxml c)
    (Device_new c conf).
Proof.
  intros Hok. split.
  - intros n. by eapply child_ok_id.
  - intros n. apply sync_idem.
  - intros x w. apply Device_refresh_soup_oid.
  - intros x w. apply Device_refresh_soup_mono.
  - intros x w w' x'. apply Device_refresh_soup_node.
  - intros w. apply Device_new_facts.
  - intros w. apply Device_new_facts.
  - intros w. destruct (Device_new_facts c conf w) as (_ & _ & n & ->).
    by apply sync_after_init.
Qed.

(** The loop of [Device.refresh] reconciles the sensors. *)
Lemma Device_step_reconciles sensorids :
  step_reconciles s_node "sensor" [] false
    (λ st : Device * list pyval, (d_sensors st.1, st.2))
    (λ st : Device * list pyval, d_allsensors st.1)
    sensorids (Device_refresh_step server lxml sensorids).
Proof.
  intros c [d nids] w w1 [d1 nids1] Hs. unfold Device_refresh_step in Hs.
  destruct c as [t|nm a cs].
  - inversion Hs; subst. split; [discriminate | done].
  - simpl. destruct (String.eqb_spec nm "sensor") as [->|Hne].
    + split; [intros _ | done].
      unfold kid. destruct (find_string _ _) as [cid|e]; [|discriminate].
      destruct (reconcile_child _ _ _ _ _ _ _ _ _)
        as [[w2 [[ss reg] nn]] r] eqn:Hrc.
      inversion Hs; subst. simpl.
      eexists _, _. split; [apply sensor_synced_step | exact Hrc].
    + split; [intros [=]; done | intros _]. by inversion Hs.
Qed.

Lemma device_fragment_level f :
  device_fragment_ok f = true → level_ok "sensor" [] false (children f) = true.
Proof. unfold device_fragment_ok. by intros [_ ?]%andb_prop. Qed.


(** X22.  One refresh of a device whose registry lists its sensors, which
    carry distinct ids: once the loop over the children completed, the
    refresh completes; the device then has one sensor per sensor id of
    the fragment and no other, and its registry lists them. *)
Lemma Device_refresh_membership nm a cs d w wa sta :
  device_fragment_ok (Tag nm a cs) = true →
  identities_ok s_node w (d_sensors d) →
  NoDup (ids_of s_node (d_sensors d)) →
  d_allsensors d = oids_of s_node (d_sensors d) →
  for_children
    (Device_refresh_step server lxml (ids_of s_node (d_sensors d)))
    cs (d, []) w = (wa, sta, Ok tt) →
  ∃ d1,
    Device_refresh_soup server lxml (Tag nm a cs) d w = (wa, d1, Ok tt) ∧
    ids_of s_node (d_sensors d1) ≡ₚ map kid (of_kind "sensor" cs) ∧
    d_allsensors d1 = oids_of s_node (d_sensors d1) ∧
    NoDup (oids_of s_node (d_sensors d1)).
Proof.
  intros Hok Hid Hnd Hreg Hl. apply device_fragment_level in Hok.
  simpl in Hok. destruct sta as [da na].
  destruct (reconcile_once s_node "sensor" [] false
              (λ st : Device * list pyval, (d_sensors st.1, st.2))
              (λ st : Device * list pyval, d_allsensors st.1)
              _ cs (d_sensors d) (d, []) w (da, na) wa
              Hok Hid Hnd (Device_step_reconciles _) eq_refl Hreg Hl)
    as [ss [Hrm [Hperm Hno]]].
  simpl in Hrm. unfold Device_refresh_soup. rewrite Hl, Hrm.
  eexists. split; [reflexivity|]. simpl. done.
Qed.

(** ** Group *)

Lemma Group_new_eq cl groupsoup conf w :
  Group_new cl groupsoup conf w
  = let self := mkNode (next_oid w) cl
                  (prtgapi_init (unpack_config conf ∅) conf (VInt 0))
                  None conf in
    let '(w1, g1) :=
      match groupsoup with
      | NavStr _ => (alloc w, mkGroup self [] [] [] [])
      | Tag _ _ cs =>
          build_children (Group_init_step (Group_new CGroup)) cs
            (mkGroup self [] [] [] []) (alloc w)
      end in
    (w1,
     g_with_node
       (setattr "type" (VStr "Group")
          (set_attributes (soup_attrs groupsoup) (g_node g1))) g1).
Proof. by destruct groupsoup. Qed.

Lemma Group_refresh_soup_eq nm a cs self w :
  Group_refresh_soup server lxml (Tag nm a cs) self w
  = let deviceids := ids_of d_node (g_devices self) in
    let groupids := ids_of g_node (g_groups self) in
    let '(w1, (g1, newdeviceids, newgroupids), r) :=
      for_children
        (Group_refresh_step server lxml (Group_refresh_soup server lxml)
           deviceids groupids)
        cs (self, [], []) w in
    match r with
    | Raise e => (w1, g1, Raise e)
    | Ok _ =>
        let '(g2, r2) :=
          Group_refresh_finish a deviceids groupids newdeviceids
            newgroupids g1 in
        (w1, g2, r2)
    end.
Proof. reflexivity. Qed.

Lemma Group_init_step_frame new_group child self w :
  oid (g_node (Group_init_step new_group child self w).2) = oid (g_node self) ∧
  ((∀ conf w0, (next_oid w0 ≤ next_oid (new_group child conf w0).1)%nat) →
   (next_oid w ≤ next_oid (Group_init_step new_group child self w).1)%nat).
Proof.
  unfold Group_init_step. destruct child as [t|nm a cs]; [done|].
  destruct (String.eqb nm "device").
  - pose proof (Device_new_facts (Tag nm a cs) (confdata (g_node self)) w)
      as (_ & Hm & _).
    destruct (Device_new _ _ _) as [w1 dv]. simpl in *. split; [done | lia].
  - destruct (String.eqb nm "group"); [|done].
    split.
    + by destruct (new_group _ _ _).
    + intros Hm. specialize (Hm (confdata (g_node self)) w).
      by destruct (new_group _ _ _).
Qed.

Lemma Group_new_mono c : ∀ cl conf w,
  (next_oid w < next_oid (Group_new cl c conf w).1)%nat.
Proof.
  induction c as [t|nm a cs IH] using Soup_nested_ind; intros cl conf w;
    rewrite Group_new_eq; simpl; [lia|].
  set (self := mkNode _ _ _ _ _).
  pose proof (build_children_mono (Group_init_step (Group_new CGroup)) cs
                (mkGroup self [] [] [] []) (alloc w)) as Hm.
  destruct (build_children _ _ _ _) as [w1 g1]. simpl in *.
  assert (S (next_oid w) ≤ next_oid w1)%nat; [|lia].
  apply Hm. intros ch st0 w0 Hch. apply Group_init_step_frame.
  intros conf0 w1'. rewrite Forall_forall in IH.
  specialize (IH ch Hch CGroup conf0 w1'). lia.
Qed.

Lemma Group_new_facts cl c conf w :
  oid (g_node (Group_new cl c conf w).2) = next_oid w ∧
  ∃ n, g_node (Group_new cl c conf w).2
       = setattr "type" (VStr "Group") (sync ["device"; "group"] c n).
Proof.
  rewrite Group_new_eq. simpl. set (self := mkNode _ _ _ _ _).
  destruct c as [t|nm a cs]; simpl; [split; [done | by exists self]|].
  pose proof (build_children_keeps
                (λ g : Group, oid (g_node g) = next_oid w)
                (Group_init_step (Group_new CGroup)) cs
                (mkGroup self [] [] [] []) (alloc w) eq_refl) as Ho.
  pose proof (build_children_inv
                (λ P (g : Group),
                   g_node g = set_scalars (scalars ["device"; "group"] P) self)
                (Group_init_step (Group_new CGroup)) cs
                (mkGroup self [] [] [] []) (alloc w) eq_refl) as Hn.
  destruct (build_children _ _ _ _) as [w1 g1]. simpl in *. split.
  - apply Ho. intros ch st0 w0 Hst.
    by destruct (Group_init_step_frame (Group_new CGroup) ch st0 w0)
      as [-> _].
  - exists self. unfold sync. simpl. rewrite <- Hn; [done|].
    intros P ch st0 w0 HI. rewrite scalars_app, set_scalars_app, <- HI.
    unfold scalars, Group_init_step. destruct ch as [t|nm0 a0 l].
    + by rewrite filter_cons_False.
    + destruct (String.eqb_spec nm0 "device") as [->|Hne].
      * rewrite filter_cons_False
          by (apply is_scalar_kind, list_elem_of_here).
        by destruct (Device_new _ _ _).
      * destruct (String.eqb_spec nm0 "group") as [->|Hne2].
        -- rewrite filter_cons_False
             by (apply is_scalar_kind, list_elem_of_further,
                 list_elem_of_here).
           by destruct (Group_new _ _ _ _).
        -- by rewrite filter_cons_True
             by (apply is_scalar_other;
                 intros [->|[->|[]%elem_of_nil]%elem_of_cons]%elem_of_cons;
                 done).
Qed.

Lemma Group_refresh_step_frame refresh_group deviceids groupids child st w :
  oid (g_node (Group_refresh_step server lxml refresh_group deviceids
                 groupids child st w).1.2.1.1)
  = oid (g_node st.1.1) ∧
  ((∀ x w0, (next_oid w0 ≤ next_oid (refresh_group child x w0).1.1)%nat) →
   (next_oid w
    ≤ next_oid (Group_refresh_step server lxml refresh_group deviceids
                  groupids child st w).1.1)%nat).
Proof.
  destruct st as [[g nd] ng]. unfold Group_refresh_step.
  destruct child as [t|nm a cs]; [done|].
  destruct (String.eqb nm "device").
  - destruct (find_string "id" (Tag nm a cs)) as [cid|e]; [|done].
    pose proof (reconcile_child_mono d_node
                  (Device_refresh_soup server lxml (Tag nm a cs))
                  (Device_new (Tag nm a cs) (confdata (g_node g)))
                  deviceids cid (g_devices g) (g_alldevices g) nd w
                  (Device_refresh_soup_mono _)) as H.
    destruct (reconcile_child _ _ _ _ _ _ _ _ _) as [[w1 [[ss reg] nids']] r].
    split; [done|]. intros _. apply H. intros w0.
    pose proof (Device_new_facts (Tag nm a cs) (confdata (g_node g)) w0)
      as (_ & Hm & _). lia.
  - destruct (String.eqb nm "group"); [|done].
    destruct (find_string "id" (Tag nm a cs)) as [cid|e]; [|done].
    pose proof (reconcile_child_mono g_node
                  (refresh_group (Tag nm a cs))
                  (Group_new CGroup (Tag nm a cs) (confdata (g_node g)))
                  groupids cid (g_groups g) (g_allgroups g) ng w) as H.
    destruct (reconcile_child _ _ _ _ _ _ _ _ _) as [[w1 [[ss reg] nids']] r].
    split; [done|]. intros Hm. apply H; [exact Hm|]. intros w0.
    pose proof (Group_new_mono (Tag nm a cs) CGroup (confdata (g_node g)) w0).
    lia.
Qed.

Lemma Group_refresh_finish_frame a deviceids groupids nd ng g1 :
  oid (g_node (Group_refresh_finish a deviceids groupids nd ng g1).1)
  = oid (g_node g1).
Proof.
  unfold Group_refresh_finish.
  destruct (remove_stale d_node _ _ _ _ _) as [[ds dreg] [u|e]]; [|done].
  destruct (remove_stale g_node _ _ _ _ _) as [[gs greg] [u2|e2]]; done.
Qed.

Lemma Group_refresh_soup_oid c self w :
  oid (g_node (Group_refresh_soup server lxml c self w).1.2) = oid (g_node self).
Proof.
  destruct c as [t|nm a cs]; [done|]. rewrite Group_refresh_soup_eq. simpl.
  pose proof (for_children_keeps
                (λ st : GroupLoop, oid (g_node st.1.1) = oid (g_node self))
                (Group_refresh_step server lxml (Group_refresh_soup server lxml)
                   (ids_of d_node (g_devices self))
                   (ids_of g_node (g_groups self)))
                cs (self, [], []) w eq_refl) as H.
  destruct (for_children _ _ _ _) as [[w1 [[g1 nd] ng]] r]. simpl in H.
  assert (H1 : oid (g_node g1) = oid (g_node self)).
  { apply H. intros c st0 w0 _ Hst.
    destruct (Group_refresh_step_frame (Group_refresh_soup server lxml)
                (ids_of d_node (g_devices self))
                (ids_of g_node (g_groups self)) c st0 w0) as [-> _].
    exact Hst. }
  destruct r as [u|e]; [|exact H1].
  pose proof (Group_refresh_finish_frame a (ids_of d_node (g_devices self))
                (ids_of g_node (g_groups self)) nd ng g1) as Hf.
  destruct (Group_refresh_finish _ _ _ _ _ _) as [g2 r2]. simpl in *.
  congruence.
Qed.

Lemma Group_refresh_soup_mono c : ∀ self w,
  (next_oid w ≤ next_oid (Group_refresh_soup server lxml c self w).1.1)%nat.
Proof.
  induction c as [t|nm a cs IH] using Soup_nested_ind; intros self w; [done|].
  rewrite Group_refresh_soup_eq. simpl.
  pose proof (for_children_mono
                (Group_refresh_step server lxml (Group_refresh_soup server lxml)
                   (ids_of d_node (g_devices self))
                   (ids_of g_node (g_groups self)))
                cs (self, [], []) w) as H.
  destruct (for_children _ _ _ _) as [[w1 [[g1 nd] ng]] r]. simpl in H.
  assert (H1 : (next_oid w ≤ next_oid w1)%nat).
  { apply H. intros c st0 w0 Hc. apply Group_refresh_step_frame.
    rewrite Forall_forall in IH. apply (IH c Hc). }
  destruct r as [u|e]; [|exact H1].
  by destruct (Group_refresh_finish _ _ _ _ _ _) as [g2 r2].
Qed.

Lemma Group_refresh_loop_node refresh_group deviceids groupids cs g w
    w' g' nd' ng' :
  for_children (Group_refresh_step server lxml refresh_group deviceids groupids)
    cs (g, [], []) w = (w', (g', nd', ng'), Ok tt) →
  g_node g' = set_scalars (scalars ["device"; "group"] cs) (g_node g).
Proof.
  intros Hrun.
  apply (for_children_ok_inv
           (λ P (st : GroupLoop) (_ : World),
              g_node st.1.1
              = set_scalars (scalars ["device"; "group"] P) (g_node g))
           (Group_refresh_step server lxml refresh_group deviceids groupids)
           cs (g, [], []) w (g', nd', ng') w'); [done| |exact Hrun].
  intros P c rest [[g0 d0] n0] w0 [[g1 d1] n1] w1 _ HI Hs. simpl in *.
  rewrite scalars_app, set_scalars_app, <- HI. unfold scalars.
  unfold Group_refresh_step in Hs. destruct c as [t|nm a l].
  - inversion Hs; subst. by rewrite filter_cons_False.
  - destruct (String.eqb_spec nm "device") as [->|Hne].
    + rewrite filter_cons_False
        by (apply is_scalar_kind, list_elem_of_here).
      destruct (find_string _ _) as [cid|e]; [|discriminate].
      destruct (reconcile_child _ _ _ _ _ _ _ _ _) as [[w2 [[ss reg] nn]] r].
      by inversion Hs.
    + destruct (String.eqb_spec nm "group") as [->|Hne2].
      * rewrite filter_cons_False
          by (apply is_scalar_kind, list_elem_of_further, list_elem_of_here).
        destruct (find_string _ _) as [cid|e]; [|discriminate].
        destruct (reconcile_child _ _ _ _ _ _ _ _ _)
          as [[w2 [[ss reg] nn]] r].
        by inversion Hs.
      * rewrite filter_cons_True
          by (apply is_scalar_other;
              intros [->|[->|[]%elem_of_nil]%elem_of_cons]%elem_of_cons;
              done).
        by inversion Hs.
Qed.

Lemma Group_refresh_finish_node a deviceids groupids nd ng g1 g2 :
  Group_refresh_finish a deviceids groupids nd ng g1 = (g2, Ok tt) →
  g_node g2 = set_attributes a (g_node g1).
Proof.
  unfold Group_refresh_finish.
  destruct (remove_stale d_node _ _ _ _ _) as [[ds dreg] [[]|e]];
    [|discriminate].
  destruct (remove_stale g_node _ _ _ _ _) as [[gs greg] [[]|e2]];
    [|discriminate].
  by intros [= <-].
Qed.

Lemma Group_refresh_soup_node c self w w' self' :
  Group_refresh_soup server lxml c self w = (w', self', Ok tt) →
  g_node self' = sync ["device"; "group"] c (g_node self).
Proof.
  destruct c as [t|nm a cs]; [discriminate|]. rewrite Group_refresh_soup_eq.
  simpl.
  destruct (for_children _ _ _ _) as [[w1 [[g1 nd] ng]] [[]|e]] eqn:Hl;
    [|discriminate].
  apply Group_refresh_loop_node in Hl.
  destruct (Group_refresh_finish _ _ _ _ _ _) as [g2 r2] eqn:Hf.
  intros H. injection H as <- <- ->.
  apply Group_refresh_finish_node in Hf. unfold sync. simpl. by rewrite Hf, Hl.
Qed.

Lemma group_synced_step c cl conf :
  child_ok ["device"; "group"] true c = true →
  synced_step g_node (sync ["device"; "group"]) c
    (Group_refresh_soup server lxml c) (Group_new cl c conf).
Proof.
  intros Hok. split.
  - intros n. by eapply child_ok_id.
  - intros n. apply sync_idem.
  - intros x w. apply Group_refresh_soup_oid.
  - intros x w. apply Group_refresh_soup_mono.
  - intros x w w' x'. apply Group_refresh_soup_node.
  - intros w. apply Group_new_facts.
  - intros w. apply Group_new_mono.
  - intros w. destruct (Group_new_facts cl c conf w) as (_ & n & ->).
    by apply sync_after_init.
Qed.

(** The loop of [Group.refresh] reconciles the devices and the
    subgroups. *)
Lemma Group_step_reconciles_devices deviceids groupids :
  step_reconciles d_node "device" ["sensor"] true
    (λ st : GroupLoop, (g_devices st.1.1, st.1.2))
    (λ st : GroupLoop, g_alldevices st.1.1)
    deviceids
    (Group_refresh_step server lxml (Group_refresh_soup server lxml)
       deviceids groupids).
Proof.
  intros c [[g nd] ng] w w1 [[g1 nd1] ng1] Hs.
  pose proof (Group_refresh_step_frame (Group_refresh_soup server lxml)
                deviceids groupids c (g, nd, ng) w) as [_ Hmono].
  rewrite Hs in Hmono. simpl in Hmono.
  specialize (Hmono (Group_refresh_soup_mono c)).
  unfold Group_refresh_step in Hs. destruct c as [t|nm a cs].
  - inversion Hs; subst. split; [discriminate | done].
  - simpl. destruct (String.eqb_spec nm "device") as [->|Hne].
    + split; [intros _ | done].
      unfold kid. destruct (find_string _ _) as [cid|e]; [|discriminate].
      destruct (reconcile_child _ _ _ _ _ _ _ _ _)
        as [[w2 [[ss reg] nn]] r] eqn:Hrc.
      inversion Hs; subst. simpl.
      eexists _, _. split; [apply device_synced_step | exact Hrc].
    + split; [intros [=]; done | intros _].
      destruct (String.eqb nm "group").
      * destruct (find_string _ _) as [cid|e]; [|discriminate].
        destruct (reconcile_child _ _ _ _ _ _ _ _ _)
          as [[w2 [[ss reg] nn]] r].
        by inversion Hs; subst.
      * by inversion Hs; subst.
Qed.

Lemma Group_step_reconciles_groups deviceids groupids :
  step_reconciles g_node "group" ["device"; "group"] true
    (λ st : GroupLoop, (g_groups st.1.1, st.2))
    (λ st : GroupLoop, g_allgroups st.1.1)
    groupids
    (Group_refresh_step server lxml (Group_refresh_soup server lxml)
       deviceids groupids).
Proof.
  intros c [[g nd] ng] w w1 [[g1 nd1] ng1] Hs.
  pose proof (Group_refresh_step_frame (Group_refresh_soup server lxml)
                deviceids groupids c (g, nd, ng) w) as [_ Hmono].
  rewrite Hs in Hmono. simpl in Hmono.
  specialize (Hmono (Group_refresh_soup_mono c)).
  unfold Group_refresh_step in Hs. destruct c as [t|nm a cs].
  - inversion Hs; subst. split; [discriminate | done].
  - simpl. destruct (String.eqb_spec nm "device") as [->|Hne].
    + split; [intros [=] | intros _].
      destruct (find_string _ _) as [cid|e]; [|discriminate].
      destruct (reconcile_child _ _ _ _ _ _ _ _ _)
        as [[w2 [[ss reg] nn]] r].
      by inversion Hs; subst.
    + destruct (String.eqb_spec nm "group") as [->|Hne2].
      * split; [intros _ | done].
        unfold kid. destruct (find_string _ _) as [cid|e]; [|discriminate].
        destruct (reconcile_child _ _ _ _ _ _ _ _ _)
          as [[w2 [[ss reg] nn]] r] eqn:Hrc.
        inversion Hs; subst. simpl.
        eexists _, _. split; [apply group_synced_step | exact Hrc].
      * split; [intros [=]; done | intros _]. by inversion Hs; subst.
Qed.

Lemma group_fragment_levels f :
  group_fragment_ok f = true →
  level_ok "device" ["sensor"] true (children f) = true ∧
  level_ok "group" ["device"; "group"] true (children f) = true.
Proof.
  unfold group_fragment_ok.
  intros [[_ ?]%andb_prop ?]%andb_prop. done.
Qed.


(** X23.  One refresh of a group or probe whose registries list its devices
    and its subgroups, which carry distinct ids: once the loop over the
    children completed, the refresh completes; the group then has one
    device per device id and one subgroup per group id of the fragment
    and no other, and its registries list them. *)
Lemma Group_refresh_membership nm a cs g w wa sta :
  group_fragment_ok (Tag nm a cs) = true →
  identities_ok d_node w (g_devices g) →
  identities_ok g_node w (g_groups g) →
  NoDup (ids_of d_node (g_devices g)) →
  NoDup (ids_of g_node (g_groups g)) →
  g_alldevices g = oids_of d_node (g_devices g) →
  g_allgroups g = oids_of g_node (g_groups g) →
  for_children
    (Group_refresh_step server lxml (Group_refresh_soup server lxml)
       (ids_of d_node (g_devices g)) (ids_of g_node (g_groups g)))
    cs (g, [], []) w = (wa, sta, Ok tt) →
  ∃ g1,
    Group_refresh_soup server lxml (Tag nm a cs) g w = (wa, g1, Ok tt) ∧
    ids_of d_node (g_devices g1) ≡ₚ map kid (of_kind "device" cs) ∧
    ids_of g_node (g_groups g1) ≡ₚ map kid (of_kind "group" cs) ∧
    g_alldevices g1 = oids_of d_node (g_devices g1) ∧
    g_allgroups g1 = oids_of g_node (g_groups g1).
Proof.
  intros Hok Hidd Hidg Hndd Hndg Hregd Hregg Hl.
  apply group_fragment_levels in Hok as [Hokd Hokg].
  simpl in Hokd, Hokg. destruct sta as [[ga nda] nga].
  destruct (reconcile_once d_node "device" ["sensor"] true
              (λ st : GroupLoop, (g_devices st.1.1, st.1.2))
              (λ st : GroupLoop, g_alldevices st.1.1)
              _ cs (g_devices g) (g, [], []) w (ga, nda, nga) wa
              Hokd Hidd Hndd (Group_step_reconciles_devices _ _) eq_refl
              Hregd Hl)
    as [ds [Hrd [Hpd _]]].
  destruct (reconcile_once g_node "group" ["device"; "group"] true
              (λ st : GroupLoop, (g_groups st.1.1, st.2))
              (λ st : GroupLoop, g_allgroups st.1.1)
              _ cs (g_groups g) (g, [], []) w (ga, nda, nga) wa
              Hokg Hidg Hndg (Group_step_reconciles_groups _ _) eq_refl
              Hregg Hl)
    as [gs [Hrg [Hpg _]]].
  simpl in Hrd, Hrg. rewrite Group_refresh_soup_eq. simpl. rewrite Hl.
  unfold Group_refresh_finish. rewrite Hrd. simpl. rewrite Hrg.
  eexists. split; [reflexivity|]. simpl. done.
Qed.

End KindFacts.

(** * Two passes over the same fragment *)

Section FirstPass.
Context {T St : Type} (node_of : T → Node).
Context (kind : string) (kinds : list string) (typed : bool).
Context (proj : St → list T * list pyval) (preg : St → list nat).


(** Two passes, as [reused] words them. *)
Lemma reused_intro kcs w1 (first second : list T) :
  identities_ok node_of w1 first →
  (∀ c, c ∈ kcs →
        ∃ x, x ∈ first ∧ attr "id" (node_of x) = kid c
             ∧ sync kinds c (node_of x) = node_of x) →
  map node_of second = map node_of first →
  reused node_of kinds kcs w1 first second.
Proof.
  intros [_ Hfr] Hmem Hmap. split; [|split; [exact Hmap|]].
  - intros c Hc. destruct (Hmem c Hc) as (x & Hx & Hidx & Hs).
    apply list_elem_of_lookup in Hx as [i Hi].
    assert (Hn : map node_of first !! i = Some (node_of x)).
    { change (map node_of first) with (node_of <$> first).
      by rewrite list_lookup_fmap, Hi. }
    rewrite <- Hmap in Hn.
    change (map node_of second) with (node_of <$> second) in Hn.
    rewrite list_lookup_fmap in Hn.
    destruct (second !! i) as [x2|] eqn:H2; [|done].
    simpl in Hn. injection Hn as Hn. by exists i, x, x2.
  - apply Forall_forall. intros x2 Hx2.
    assert (Hn : node_of x2 ∈ map node_of first).
    { rewrite <- Hmap. by apply elem_of_map_2. }
    apply elem_of_map in Hn as [x [Heq Hx]].
    rewrite Forall_forall in Hfr. rewrite Heq. by apply Hfr.
Qed.

End FirstPass.

Section TwiceFacts.
Context (server : list string → string → Response) (lxml : string → Soup).




End TwiceFacts.

(** * Properties of the historic data reader *)

Section HistoricFacts.

Context (server : list string → string → Response)
        (csv_reader : list string → list (list string))
        (strptime : string → string → option datetime)
        (strftime : datetime → string → string).

Lemma empty_columns_from (headers : list string)
    (m : gmap string (list cell)) h :
  foldl (λ data header, <[header := []]> data) m headers !! h
  = if decide (h ∈ headers) then Some [] else m !! h.
Proof.
  revert m. induction headers as [|x headers IH]; intros m.
  - simpl. destruct (decide (h ∈ [])) as [H|H];
      [by apply elem_of_nil in H | done].
  - simpl. rewrite IH.
    destruct (decide (h ∈ headers)) as [H|H];
      destruct (decide (h ∈ x :: headers)) as [H0|H0]; try done.
    + exfalso. apply H0. by apply list_elem_of_further.
    + apply elem_of_cons in H0 as [->|?]; [|done].
      by rewrite lookup_insert_eq.
    + rewrite lookup_insert_ne; [done|]. intros ->. apply H0.
      apply list_elem_of_here.
Qed.

Lemma empty_columns_lookup (headers : list string) h :
  empty_columns headers !! h = if decide (h ∈ headers) then Some [] else None.
Proof. unfold empty_columns. rewrite empty_columns_from. by case_decide. Qed.

Lemma add_cell_spec headers j h c col (data : gmap string (list cell)) :
  headers !! j = Some h →
  data !! h = Some col →
  cell_ok strptime h c →
  ∃ v, spec_cell strptime h c = Some v ∧
       add_cell strptime headers j c data = Ok (<[h := col ++ [v]]> data).
Proof.
  intros Hj Hcol Hok. unfold add_cell, spec_cell. rewrite Hj.
  destruct (String.eqb_spec h "Date Time") as [E|N].
  - destruct (Hok E) as [Hdash [t Ht]].
    assert (Hs : (if contains "-" c
                  then match String.index 0 " -" c with
                       | Some i => Ok (String.substring 0 i c)
                       | None => Raise ValueError
                       end
                  else Ok c) = Ok (strip_suffix c)).
    { rewrite Hdash. unfold contains, strip_suffix.
      destruct (String.index 0 " -" c); reflexivity. }
    rewrite Hs, Ht, Hcol. simpl. eauto.
  - rewrite Hcol. eauto.
Qed.

Lemma add_row_spec headers row j0 (data : gmap string (list cell)) :
  NoDup headers →
  (∀ i c, row !! i = Some c →
          ∃ h, headers !! (j0 + i)%nat = Some h ∧ cell_ok strptime h c) →
  (∀ j h, headers !! j = Some h → is_Some (data !! h)) →
  ∃ data',
    add_row strptime headers j0 row data = Ok data' ∧
    (∀ j h, headers !! j = Some h →
       ∃ col extra,
         data !! h = Some col ∧ data' !! h = Some (col ++ extra) ∧
         Forall2 (λ c v, spec_cell strptime h c = Some v)
                 (row_part j0 j row) extra) ∧
    (∀ h, h ∉ headers → data' !! h = data !! h).
Proof.
  intros Hnd. revert j0 data.
  induction row as [|c row IH]; intros j0 data Hrow Hdata.
  - exists data. split; [reflexivity|]. split; [|done].
    intros j h Hj. destruct (Hdata j h Hj) as [col Hcol].
    exists col, []. rewrite app_nil_r. repeat split; [done..|].
    unfold row_part. case_decide; [|constructor].
    rewrite lookup_nil. constructor.
  - destruct (Hrow 0%nat c eq_refl) as [h0 [Hh0 Hok0]].
    rewrite Nat.add_0_r in Hh0.
    destruct (Hdata j0 h0 Hh0) as [col0 Hcol0].
    destruct (add_cell_spec headers j0 h0 c col0 data Hh0 Hcol0 Hok0)
      as [v [Hv Hadd]].
    destruct (IH (S j0) (<[h0 := col0 ++ [v]]> data)) as [data' [Hr [Hc Ho]]].
    { intros i c' Hi. destruct (Hrow (S i) c' Hi) as [h [Hh Hok]].
      exists h. split; [|done].
      by replace (S j0 + i)%nat with (j0 + S i)%nat by lia. }
    { intros j h Hj. destruct (decide (h0 = h)) as [->|Hne].
      - rewrite lookup_insert_eq. eauto.
      - rewrite lookup_insert_ne by done. eauto. }
    exists data'. simpl. rewrite Hadd. split; [exact Hr|]. split.
    + intros j h Hj. destruct (Hc j h Hj) as [col [extra [H1 [H2 H3]]]].
      destruct (decide (j = j0)) as [->|Hjne].
      * assert (h = h0) by congruence. subst h.
        rewrite lookup_insert_eq in H1. injection H1 as <-.
        unfold row_part in H3. case_decide; [lia|].
        inversion H3; subst. exists col0, [v]. rewrite app_nil_r in H2.
        repeat split; [done..|]. unfold row_part. case_decide; [|lia].
        rewrite Nat.sub_diag. simpl. by constructor.
      * assert (h0 ≠ h).
        { intros ->. apply Hjne. eapply NoDup_lookup; eauto. }
        rewrite lookup_insert_ne in H1 by done.
        exists col, extra. repeat split; [done..|].
        unfold row_part in *. repeat case_decide; try lia; [|done].
        replace (j - j0)%nat with (S (j - S j0)) by lia. exact H3.
    + intros h Hh. rewrite Ho by done. rewrite lookup_insert_ne; [done|].
      intros ->. apply Hh. by eapply list_elem_of_lookup_2.
Qed.

Lemma add_rows_spec headers rows (data : gmap string (list cell)) :
  NoDup headers →
  (∀ row i c, row ∈ rows → row !! i = Some c →
              ∃ h, headers !! i = Some h ∧ cell_ok strptime h c) →
  (∀ j h, headers !! j = Some h → is_Some (data !! h)) →
  ∃ data',
    add_rows strptime headers rows data = Ok data' ∧
    (∀ j h, headers !! j = Some h →
       ∃ col cols,
         data !! h = Some col ∧ data' !! h = Some (col ++ cols) ∧
         Forall2 (λ c v, spec_cell strptime h c = Some v)
                 (column j rows) cols) ∧
    (∀ h, h ∉ headers → data' !! h = data !! h).
Proof.
  intros Hnd. revert data.
  induction rows as [|row rows IH]; intros data Hrows Hdata.
  - exists data. split; [reflexivity|]. split; [|done].
    intros j h Hj. destruct (Hdata j h Hj) as [col Hcol].
    exists col, []. rewrite app_nil_r. repeat split; [done..|]. constructor.
  - destruct (add_row_spec headers row 0 data Hnd) as [data1 [Hr1 [Hc1 Ho1]]].
    { intros i c Hi. eapply Hrows; [apply list_elem_of_here | exact Hi]. }
    { exact Hdata. }
    destruct (IH data1) as [data' [Hr [Hc Ho]]].
    { intros r i c Hin. apply Hrows. by apply list_elem_of_further. }
    { intros j h Hj. destruct (Hc1 j h Hj) as [col [extra [_ [H2 _]]]].
      eauto. }
    exists data'. simpl. rewrite Hr1. split; [exact Hr|]. split.
    + intros j h Hj.
      destruct (Hc1 j h Hj) as [col [extra [H1 [H2 H3]]]].
      destruct (Hc j h Hj) as [col1 [cols [H4 [H5 H6]]]].
      rewrite H2 in H4. injection H4 as <-.
      exists col, (extra ++ cols). rewrite app_assoc.
      repeat split; [done..|].
      unfold column. simpl. unfold row_part in H3.
      case_decide; [|lia]. rewrite Nat.sub_0_r in H3.
      destruct (row !! j); simpl in *.
      * inversion H3 as [|? ? ? ? Hv Hnil]; subst. inversion Hnil; subst.
        simpl. by constructor.
      * inversion H3; subst. exact H6.
    + intros h Hh. rewrite Ho, Ho1; done.
Qed.

(** C9.  [get_historic_data] drops the last two lines of the CSV
    response, takes the first remaining row as the header, and returns a
    mapping from each header name to the cells of its column in row
    order: a cell of the "Date Time" column parsed as a timestamp of the
    format [%m/%d/%Y %I:%M:%S %p] after its " -" suffix is cut off, any
    other cell as the raw string. *)
Theorem historic_data_is_columnar (self : Node) (objid timeaverage : pyval)
    (startdate enddate : date_arg) (w : World)
    (headers : list string) (body : list (list string)) :
  let url :=
    request_url self
      (historic_url strftime objid startdate enddate timeaverage) true in
  let req := server (log w) url in
  status_code req = 200%Z →
  csv_reader (drop_last_two (split_on newline (text req))) = headers :: body →
  NoDup headers →
  (∀ row i c, row ∈ body → row !! i = Some c →
              ∃ h, headers !! i = Some h ∧ cell_ok strptime h c) →
  ∃ data,
    get_historic_data server csv_reader strptime strftime self objid
      startdate enddate timeaverage w = (log_request url w, Ok data) ∧
    (∀ j h, headers !! j = Some h →
       ∃ col, data !! h = Some col ∧
              Forall2 (λ c v, spec_cell strptime h c = Some v)
                      (column j body) col) ∧
    (∀ h, h ∉ headers → data !! h = None).
Proof.
  intros url req H200 Hcsv Hnd Hcells.
  destruct (add_rows_spec headers body (empty_columns headers) Hnd Hcells)
    as [data [Hr [Hc Ho]]].
  { intros j h Hj. rewrite empty_columns_lookup.
    rewrite decide_True by (by eapply list_elem_of_lookup_2). eauto. }
  exists data. split; [|split].
  - unfold get_historic_data. rewrite get_request_200 by assumption.
    fold url. fold req. rewrite Hcsv. simpl. by rewrite Hr.
  - intros j h Hj. destruct (Hc j h Hj) as [col [cols [H1 [H2 H3]]]].
    rewrite empty_columns_lookup in H1.
    rewrite decide_True in H1 by (by eapply list_elem_of_lookup_2).
    injection H1 as <-. eauto.
  - intros h Hh. rewrite Ho by done. rewrite empty_columns_lookup.
    by rewrite decide_False.
Qed.

End HistoricFacts.

(** * The confirmation of a deletion *)

Section DeleteFacts.
Context (server : list string → string → Response).

Lemma confirm_loop_declined inp out :
  (∀ l, l ∈ inp → upper l ≠ "Y") →
  match (confirm_loop inp out).2 with
  | Ok response => upper response ≠ "Y"
  | Raise _ => True
  end.
Proof.
  revert out. induction inp as [|line rest IH]; intros out Hno; [done|].
  simpl. case_bool_decide as Hd.
  - simpl. destruct (String.eqb_spec line "") as [->|Hne]; [done|].
    apply Hno, list_elem_of_here.
  - apply IH. intros l Hl. apply Hno. by apply list_elem_of_further.
Qed.

(** X1.  Without an answer that reads Y, a confirmed deletion sends
    nothing: whatever the lines on standard input (other answers, empty
    lines, the end of input), no request is made. *)
Theorem delete_unconfirmed_sends_nothing (self : Node) (w : World) :
  (∀ l, l ∈ stdin w → upper l ≠ "Y") →
  log (delete server self true w).1 = log w.
Proof.
  intros Hno. unfold delete, BaseConfig_delete.
  destruct (cls self); try done;
    (destruct (py_eq _ _); [done|];
     pose proof (confirm_loop_declined (stdin w) (stdout w) Hno) as Hc;
     destruct (confirm_loop _ _) as [[inp out] [response|e]]; [|done];
     simpl in Hc; destruct (String.eqb_spec (upper response) "Y"); done).
Qed.

Lemma confirm_loop_skips junk ans rest out :
  Forall (λ l, l ≠ "" ∧ upper l ∉ ["Y"; "N"]) junk →
  upper ans = "Y" →
  confirm_loop (junk ++ ans :: rest) out
  = (rest, out ++ replicate (S (length junk)) prompt, Ok ans).
Proof.
  intros Hj Ha. revert out. induction Hj as [|l junk [Hl1 Hl2] _ IH];
    intros out.
  - simpl. destruct (String.eqb_spec ans "") as [->|Hne]; [done|].
    rewrite bool_decide_true; [done|]. rewrite Ha. apply list_elem_of_here.
  - simpl. destruct (String.eqb_spec l "") as [->|_]; [done|].
    rewrite bool_decide_false by done. rewrite IH.
    by rewrite <- app_assoc.
Qed.

(** X2.  A confirmed deletion asks again after every answer that is
    neither empty nor Y or N in either case, and on the first Y sends
    the one request that deletes the object: one prompt per line read,
    the lines after the answer left unread. *)
Theorem delete_confirmed_sends_once (self : Node) (w : World)
    (junk rest : list string) (ans : string) :
  cls self ≠ CChannel →
  attr "type" self ≠ VStr "Root" →
  stdin w = junk ++ ans :: rest →
  Forall (λ l, l ≠ "" ∧ upper l ∉ ["Y"; "N"]) junk →
  upper ans = "Y" →
  let w' := (delete server self true w).1 in
  log w' = log w ++ [request_url self (delete_url self) true] ∧
  stdin w' = rest ∧
  stdout w' = stdout w ++ replicate (S (length junk)) prompt.
Proof.
  intros Hcls Hty Hin Hj Ha.
  assert (H : delete server self true w = BaseConfig_delete server self true w).
  { unfold delete. by destruct (cls self). }
  rewrite H. unfold BaseConfig_delete, py_eq.
  rewrite bool_decide_false by done.
  rewrite Hin, (confirm_loop_skips junk ans rest _ Hj Ha), Ha. simpl.
  pose proof (get_request_log server self (delete_url self) true
                (mkWorld (log w) rest
                   (stdout w ++ prompt :: replicate (length junk) prompt)
                   (next_oid w))) as Hl.
  destruct (get_request _ _ _ _ _) as [w2 [r|e]]; simpl in *; by rewrite Hl.
Qed.

End DeleteFacts.

(** * Status, acknowledgement, tags and host *)

Lemma lstrip_head (s : string) (c : ascii) (s' : string) : lstrip s = String c s' → is_space c = false.
Proof.
  induction s as [|x s IH]; [done|]. simpl.
  destruct (is_space x) eqn:Hx; [exact IH|]. by intros [= <- _].
Qed.

Lemma lstrip_fixed (s : string) : lstrip (lstrip s) = lstrip s.
Proof.
  destruct (lstrip s) as [|c s'] eqn:H; [done|].
  simpl. by rewrite (lstrip_head _ _ _ H).
Qed.

Lemma rstrip_fixed (s : string) : rstrip (rstrip s) = rstrip s.
Proof.
  induction s as [|x s IH]; [done|]. simpl.
  destruct (rstrip s) as [|y r] eqn:Hr.
  - destruct (is_space x) eqn:Hx; [done|]. simpl. by rewrite Hx.
  - simpl in *. by rewrite IH.
Qed.

Lemma rstrip_head (s : string) (c : ascii) (s' : string) :
  is_space c = false → ∃ r, rstrip (String c s') = String c r.
Proof.
  intros Hc. simpl. destruct (rstrip s') as [|y r]; [|by eexists].
  rewrite Hc. by eexists.
Qed.

Lemma strip_fixed (s : string) :
  lstrip (strip s) = strip s ∧ rstrip (strip s) = strip s.
Proof.
  unfold strip. split; [|apply rstrip_fixed].
  destruct (lstrip s) as [|c s'] eqn:H; [done|].
  pose proof (lstrip_head _ _ _ H) as Hc.
  destruct (rstrip_head s c s' Hc) as [r ->]. simpl. by rewrite Hc.
Qed.

Section StatusFacts.
Context (server : list string → string → Response) (lxml : string → Soup).

Lemma get_status_log self name w :
  log (get_status server lxml self name w).1.1
  = log w ++ [request_url self (status_url self name) true].
Proof.
  unfold get_status.
  pose proof (get_request_log server self (status_url self name) true w) as Hl.
  destruct (get_request _ _ _ _ _) as [w1 [[req|]|e]]; simpl in *;
    subst w1; try done.
  by destruct (find "result" _).
Qed.

Lemma get_status_ok self name w w' self' st :
  get_status server lxml self name w = (w', self', Ok st) →
  self' = setattr "status" (VStr st) self ∧ strip st = st.
Proof.
  unfold get_status.
  destruct (get_request _ _ _ _ _) as [w1 [[req|]|e]]; try done.
  destruct (find "result" _) as [result|]; [|done].
  intros [= <- <- <-]. split; [done|].
  unfold strip at 1. destruct (strip_fixed (get_text result)) as [-> ->].
  done.
Qed.

Lemma get_status_raise self name w w' self' e :
  get_status server lxml self name w = (w', self', Raise e) → self' = self.
Proof.
  unfold get_status.
  destruct (get_request _ _ _ _ _) as [w1 [[req|]|e']]; try by intros [= _ <- _].
  destruct (find "result" _) as [result|]; [done|]. by intros [= _ <- _].
Qed.

(** X3.  [get_status] always makes exactly one request.  When the
    answer has status 200 and a [result] element whose text is in ASCII,
    the call returns that text without the whitespace at its two ends,
    stores it in [status], whatever status was asked for by name, and
    changes no other field.  A call that raises leaves the object as it
    was. *)
Theorem get_status_stores_stripped (self : Node) (name : string) (w : World) :
  let url := request_url self (status_url self name) true in
  let req := server (log w) url in
  let out := get_status server lxml self name w in
  log out.1.1 = log w ++ [url] ∧
  (∀ result,
     status_code req = 200%Z →
     find "result" (lxml (text req)) = Some result →
     is_ascii (get_text result) = true →
     let st := strip (get_text result) in
     out.2 = Ok st ∧ attr "status" out.1.2 = VStr st ∧
     lstrip st = st ∧ rstrip st = st ∧
     ∀ k, k ≠ "status" → attr k out.1.2 = attr k self) ∧
  (∀ e, out.2 = Raise e → out.1.2 = self).
Proof.
  intros url req out. split; [apply get_status_log|]. split.
  - intros result H200 Hres _ st. subst out. unfold get_status.
    rewrite (get_request_200 server self (status_url self name) true w H200).
    fold url. fold req. rewrite Hres. cbn [fst snd]. fold st.
    split; [done|]. split; [apply attr_setattr_eq|].
    destruct (strip_fixed (get_text result)) as [H1 H2]. fold st in H1, H2.
    split; [exact H1|]. split; [exact H2|].
    intros k Hk. by apply attr_setattr_ne.
  - intros e He. subst out.
    destruct (get_status server lxml self name w) as [[w' self'] r] eqn:H.
    simpl in He. subst r. by eapply get_status_raise.
Qed.

Lemma get_request_raises self url api w e :
  (get_request server self url api w).2 = Raise e →
  status_code (server (log w) (request_url self url api)) = 401
  ∨ status_code (server (log w) (request_url self url api)) = 404.
Proof.
  unfold get_request.
  destruct (Z.eqb_spec (status_code (server (log w) (request_url self url api)))
              200); [done|].
  destruct (Z.eqb_spec (status_code (server (log w) (request_url self url api)))
              401); [by left|].
  destruct (Z.eqb_spec (status_code (server (log w) (request_url self url api)))
              404); [by right|done].
Qed.

(** X4.  [Sensor.acknowledge] asks for the status after every
    acknowledgement that did not raise, and only then: one request when
    the server answers the acknowledgement with 401 or 404 (the sensor is
    then left as it was), two otherwise, the acknowledgement first; when
    the call completes, [status] holds the answer to the second. *)
Theorem acknowledge_then_status (self : Node) (message : string) (w : World) :
  let out := acknowledge server lxml self message w in
  let ack := request_url self (acknowledge_url self message) true in
  let ask := request_url self (status_url self "status") true in
  let code := status_code (server (log w) ack) in
  (if bool_decide (code = 401 ∨ code = 404)
   then log out.1.1 = log w ++ [ack] ∧ out.1.2 = self ∧ out.2 ≠ Ok tt
   else log out.1.1 = log w ++ [ack; ask]) ∧
  (out.2 = Ok tt → ∃ st, attr "status" out.1.2 = VStr st ∧ strip st = st).
Proof.
  intros out ack ask code. subst out. unfold acknowledge.
  pose proof (get_request_log server self (acknowledge_url self message) true w)
    as Hl.
  pose proof (get_request_raises self (acknowledge_url self message) true w)
    as Hr.
  assert (Hok : ∀ r, (get_request server self (acknowledge_url self message)
                        true w).2 = Ok r → ¬ (code = 401 ∨ code = 404)).
  { unfold get_request. fold ack. fold code. intros r.
    destruct (Z.eqb_spec code 200) as [->|]; [intros _ [|]; done|].
    destruct (Z.eqb_spec code 401) as [->|]; [done|].
    destruct (Z.eqb_spec code 404) as [->|]; [done|].
    intros _ [|]; done. }
  fold ack in Hl, Hr.
  destruct (get_request _ _ _ _ _) as [w1 [r|e]]; simpl in *; subst w1.
  - rewrite bool_decide_false by (by eapply Hok).
    pose proof (get_status_log self "status" (log_request ack w)) as Hs.
    fold ask in Hs.
    destruct (get_status server lxml self "status" (log_request ack w))
      as [[w2 self2] [st|e]] eqn:H; simpl in *.
    + split; [by rewrite Hs, <- app_assoc|]. intros _.
      destruct (get_status_ok _ _ _ _ _ _ H) as [-> Hst].
      exists st. by rewrite attr_setattr_eq.
    + split; [by rewrite Hs, <- app_assoc | done].
  - rewrite bool_decide_true by (by eapply Hr). done.
Qed.

End StatusFacts.

(** * Tags, host and the marks of a pause *)

Lemma split_on_cons (c : ascii) (s : string) :
  ∃ h t, split_on c s = h :: t.
Proof.
  induction s as [|x s IH]; simpl; [by eexists _, _|].
  destruct (Ascii.eqb x c); [by eexists _, _|].
  destruct IH as [h [t ->]]. by eexists _, _.
Qed.

(** [sep.join(s.split(sep))] is [s]. *)
Lemma join_split_on (c : ascii) (s : string) :
  join (String c EmptyString) (split_on c s) = s.
Proof.
  induction s as [|x s IH]; [done|]. simpl.
  destruct (Ascii.eqb_spec x c) as [->|Hne].
  - destruct (split_on_cons c s) as [h [t Hs]]. rewrite Hs in *.
    change (join (String c EmptyString) ("" :: h :: t))
      with ("" +:+ String c EmptyString +:+ join (String c EmptyString) (h :: t)).
    by rewrite IH.
  - destruct (split_on_cons c s) as [h [t Hs]]. rewrite Hs in *.
    rewrite <- IH. simpl. by destruct t.
Qed.

Lemma string_app_assoc (a b c : string) : (a +:+ b) +:+ c = a +:+ (b +:+ c).
Proof.
  induction a as [|x a IH]; [done|].
  change (String x ((a +:+ b) +:+ c) = String x (a +:+ (b +:+ c))).
  by rewrite IH.
Qed.

Lemma string_app_nil_r (a : string) : a +:+ "" = a.
Proof.
  induction a as [|x a IH]; [done|].
  change (String x (a +:+ "") = String x a). by rewrite IH.
Qed.

Lemma join_app sep (l1 l2 : list string) :
  l1 ≠ [] →
  join sep (l1 ++ l2)
  = join sep l1 +:+ match l2 with [] => "" | _ :: _ => sep +:+ join sep l2 end.
Proof.
  induction l1 as [|x l1 IH]; [done|]. intros _.
  destruct l1 as [|y l1].
  - simpl. destruct l2; [by rewrite string_app_nil_r | done].
  - change (join sep ((x :: y :: l1) ++ l2))
      with (x +:+ sep +:+ join sep ((y :: l1) ++ l2)).
    rewrite IH by done.
    change (join sep (x :: y :: l1)) with (x +:+ sep +:+ join sep (y :: l1)).
    by rewrite !string_app_assoc.
Qed.

Section HostFacts.
Context (server : list string → string → Response).

Lemma request_url_attrs self self' url api :
  attr "base_url" self' = attr "base_url" self →
  attr "base_url_no_api" self' = attr "base_url_no_api" self →
  attr "url_auth" self' = attr "url_auth" self →
  request_url self' url api = request_url self url api.
Proof. unfold request_url. by intros -> -> ->. Qed.

Lemma setprop_url_attrs self self' name value :
  attr "type" self' = attr "type" self →
  attr "id" self' = attr "id" self →
  attr "sensorid" self' = attr "sensorid" self →
  attr "objid" self' = attr "objid" self →
  setprop_url self' name value = setprop_url self name value.
Proof. unfold setprop_url. by intros -> -> -> ->. Qed.

Lemma set_property_ok self name value w w' self' :
  set_property server self name value w = (w', self', Ok tt) →
  self' = setattr "name" value self ∧
  w' = log_request (request_url self (setprop_url self name value) true) w.
Proof.
  unfold set_property.
  pose proof (get_request_log server self (setprop_url self name value) true w)
    as Hl.
  destruct (get_request _ _ _ _ _) as [w1 [r|e]]; simpl in Hl; subst w1;
    [|done].
  by intros [= <- <-].
Qed.

(** X5.  [Device.set_host] records the new host twice, in [host] and,
    through [set_property], in [name]; the URLs the object requests stay
    those of the server it was built for, and so does the connection
    pack handed to the sensors it builds later. *)
Theorem set_host_keeps_connection (self self' : Node) (host : pyval)
    (w w' : World) :
  set_host server self host w = (w', self', Ok tt) →
  attr "host" self' = host ∧ attr "name" self' = host ∧
  confdata self' = confdata self ∧
  (∀ url api, request_url self' url api = request_url self url api) ∧
  log w' = log w ++ [request_url self (setprop_url self "host" host) true].
Proof.
  unfold set_host.
  destruct (set_property server self "host" host w) as [[w1 self1] [[]|e]] eqn:Hs;
    [|done].
  apply set_property_ok in Hs as [-> ->]. intros [= <- <-].
  split; [apply attr_setattr_eq|]. split.
  { rewrite attr_setattr_ne by done. apply attr_setattr_eq. }
  split; [done|]. split; [|done].
  intros url api. apply request_url_attrs; by rewrite !attr_setattr_ne.
Qed.

Lemma BaseConfig_pause_ok self d m w w' self' :
  BaseConfig_pause server self d m w = (w', self', Ok tt) →
  self' = setattr "status_raw" (VStr "7")
            (setattr "active" (VStr "false")
               (setattr "status" (VStr "Paused") self)).
Proof.
  unfold BaseConfig_pause.
  destruct (get_request _ _ _ _ _) as [w1 [r|e]]; [|done]. by intros [= _ <-].
Qed.

Lemma BaseConfig_resume_ok self w w' self' :
  BaseConfig_resume server self w = (w', self', Ok tt) →
  self' = setattr "status_raw" (VStr "?")
            (setattr "active" (VStr "true")
               (setattr "status" (VStr "?") self)) ∧
  w' = log_request
         (request_url self
            ("pause.htm?id=" +:+ py_str (attr "id" self) +:+ "&action=1") true)
         w.
Proof.
  unfold BaseConfig_resume.
  pose proof (get_request_log server self
                ("pause.htm?id=" +:+ py_str (attr "id" self) +:+ "&action=1")
                true w) as Hl.
  destruct (get_request _ _ _ _ _) as [w1 [r|e]]; simpl in Hl; subst w1;
    [|done].
  by intros [= <- <-].
Qed.

(** X6.  A resume does not bring back what a pause overwrote: after a
    pause and a resume that both went through, an object other than a
    channel has the status ["?"], is active, and differs from the
    object before the pause in [status], [active] and [status_raw]
    only; the resume addressed the same object id as the pause. *)
Theorem resume_after_pause (self s1 s2 : Node) (duration : Z)
    (message : string) (w w1 w2 : World) :
  cls self ≠ CChannel →
  pause server self duration message w = (w1, s1, Ok tt) →
  resume server s1 w1 = (w2, s2, Ok tt) →
  attr "status" s2 = VStr "?" ∧ attr "active" s2 = VStr "true" ∧
  attr "status_raw" s2 = VStr "?" ∧
  (∀ k, k ∉ ["status"; "active"; "status_raw"] → attr k s2 = attr k self) ∧
  log w2 = log w ++ [request_url self (pause_url self duration message) true;
                     request_url self
                       ("pause.htm?id=" +:+ py_str (attr "id" self)
                        +:+ "&action=1") true].
Proof.
  intros Hcls Hp Hr.
  assert (Hp' : BaseConfig_pause server self duration message w
                = (w1, s1, Ok tt)).
  { unfold pause in Hp. by destruct (cls self). }
  pose proof (get_request_log server self (pause_url self duration message)
                true w) as Hl.
  assert (Hw1 : w1 = log_request
                       (request_url self (pause_url self duration message) true)
                       w).
  { unfold BaseConfig_pause in Hp'.
    destruct (get_request _ _ _ _ _) as [w0 [r|e]]; simpl in Hl; subst w0;
      [|done]. by injection Hp' as <- _. }
  apply BaseConfig_pause_ok in Hp'. subst s1.
  assert (Hr' : BaseConfig_resume server
                  (setattr "status_raw" (VStr "7")
                     (setattr "active" (VStr "false")
                        (setattr "status" (VStr "Paused") self))) w1
                = (w2, s2, Ok tt)).
  { unfold resume in Hr. simpl in Hr. by destruct (cls self). }
  apply BaseConfig_resume_ok in Hr' as [-> ->]. subst w1.
  split; [|split; [|split; [|split]]].
  - rewrite !attr_setattr_ne by done. apply attr_setattr_eq.
  - rewrite attr_setattr_ne by done. apply attr_setattr_eq.
  - apply attr_setattr_eq.
  - intros k Hk. rewrite !attr_setattr_ne; [done|..];
      intros <-; apply Hk; set_solver.
  - simpl. rewrite <- app_assoc. simpl. do 3 f_equal.
    rewrite !attr_setattr_ne by done.
    apply request_url_attrs; by rewrite !attr_setattr_ne.
Qed.

End HostFacts.

Section TagFacts.
Context (server : list string → string → Response) (lxml : string → Soup).

Lemma get_property_ok self name w w' self' t :
  get_property server lxml self name w = (w', self', Ok t) →
  self' = setattr name (VStr t) self ∧
  w' = log_request (request_url self (getprop_url self name) true) w.
Proof.
  unfold get_property.
  pose proof (get_request_log server self (getprop_url self name) true w) as Hl.
  destruct (get_request _ _ _ _ _) as [w1 [[req|]|e]]; simpl in Hl; subst w1;
    try done.
  destruct (find "result" _) as [result|]; [|done].
  destruct (negb _); [|done]. by intros [= <- <- <-].
Qed.

(** X7.  [add_tags] without [clear_old] sends the tags it read followed
    by the new ones, joined by single spaces: two requests, the property
    read and then written.  Afterwards the local [tags] still holds the
    text that was read, and the new tag text sits in [name]. *)
Theorem add_tags_appends (self self' : Node) (tags : list string)
    (w w' : World) :
  add_tags server lxml self (TagList tags) false w = (w', self', Ok tt) →
  ∃ old,
    let new := old +:+ match tags with
                       | [] => ""
                       | _ :: _ => " " +:+ join " " tags
                       end in
    log w' = log w ++ [request_url self (getprop_url self "tags") true;
                       request_url self (setprop_url self "tags" (VStr new))
                         true] ∧
    attr "tags" self' = VStr old ∧
    attr "name" self' = VStr new.
Proof.
  unfold add_tags.
  destruct (get_property server lxml self "tags" w) as [[w1 self1] [t|e]] eqn:Hg;
    [|done].
  destruct (get_property_ok _ _ _ _ _ _ Hg) as [-> ->].
  intros Hs. apply (set_property_ok server) in Hs as [-> ->].
  exists t. simpl.
  assert (Hj : join " " (split_on " " t ++ tags)
               = t +:+ match tags with
                       | [] => ""
                       | _ :: _ => " " +:+ join " " tags
                       end).
  { destruct (split_on_cons " " t) as [h [tl Hsp]].
    rewrite join_app by (by rewrite Hsp).
    by rewrite (join_split_on " " t). }
  rewrite Hj. split; [|split].
  - rewrite <- app_assoc. simpl. do 2 f_equal.
    rewrite (request_url_attrs self (setattr "tags" (VStr t) self))
      by (by rewrite attr_setattr_ne).
    by rewrite (setprop_url_attrs self (setattr "tags" (VStr t) self))
      by (by rewrite attr_setattr_ne).
  - rewrite attr_setattr_ne by done. apply attr_setattr_eq.
  - apply attr_setattr_eq.
Qed.

End TagFacts.

(** * Channels, probes and the fields of a sensor *)

Lemma last_scalar_str k cs v :
  last_scalar k cs None = Some v → ∃ s, v = VStr s.
Proof.
  assert (G : ∀ cur, (∀ v0, cur = Some v0 → ∃ s, v0 = VStr s) →
                     last_scalar k cs cur = Some v → ∃ s, v = VStr s).
  { induction cs as [|c cs IH]; intros cur Hcur; simpl; [apply Hcur|].
    apply IH. destruct c as [t|nm a l]; [exact Hcur|].
    destruct (String.eqb nm k); [|exact Hcur].
    intros v0 [= <-]. by eexists. }
  apply G. done.
Qed.

Lemma attr_set_scalars k cs n :
  attr k (set_scalars cs n)
  = match last_scalar k cs None with
    | Some v => v
    | None => attr k n
    end.
Proof.
  unfold attr. rewrite attrs_set_scalars, last_scalar_cur.
  by destruct (last_scalar k cs None).
Qed.

(** ** The numeric reading of [lastvalue] *)

Lemma is_digit_dot : is_digit "." = false.
Proof. reflexivity. Qed.

(** A character that is neither a digit nor the dot does not occur in a
    text of digits and dots. *)
Lemma digits_dots_without (c : ascii) (s : string) :
  all_digits (remove_char "." s) = true →
  c ≠ "."%char → is_digit c = false →
  remove_char c s = s ∧ split_on c s = [s].
Proof.
  intros Hs Hc Hd. induction s as [|x s IH]; [done|].
  cbn [remove_char] in Hs.
  destruct (Ascii.eqb_spec x ".") as [->|Hx].
  - destruct (IH Hs) as [H1 H2]. cbn [remove_char split_on].
    destruct (Ascii.eqb_spec "." c) as [E|_]; [by subst c|].
    by rewrite H1, H2.
  - cbn [all_digits] in Hs. apply andb_prop in Hs as [Hdx Hs].
    destruct (IH Hs) as [H1 H2]. cbn [remove_char split_on].
    destruct (Ascii.eqb_spec x c) as [E|_]; [congruence|].
    by rewrite H1, H2.
Qed.

Lemma count_char_none (c : ascii) (s : string) :
  count_char c s = 0%nat → remove_char c s = s ∧ split_on c s = [s].
Proof.
  induction s as [|x s IH]; [done|]. cbn [count_char remove_char split_on].
  destruct (Ascii.eqb x c); [done|]. intros H.
  destruct (IH H) as [-> ->]. done.
Qed.

Lemma all_digits_no_dot (s : string) :
  all_digits s = true → count_char "." s = 0%nat.
Proof.
  induction s as [|x s IH]; [done|]. cbn [all_digits count_char].
  intros [Hx Hs]%andb_prop.
  destruct (Ascii.eqb_spec x ".") as [->|_]; [done|]. by apply IH.
Qed.

(** The branch never completes: on a text of digits and dots it ends in
    a ValueError when the text has two dots or more, in an OverflowError
    when the number before the dot has no finite double, and in an
    IndexError otherwise. *)
Lemma numeric_reading_raises (lv : string) :
  isdigit (remove_char "." lv) = true →
  numeric_reading lv
  = Raise (if (2 <=? count_char "." lv)%nat then ValueError
           else if (float_overflow <=? digits_value (whole_part lv) 0)%Z
                then OverflowError
                else IndexError).
Proof.
  intros Hd. unfold isdigit in Hd. apply andb_prop in Hd as [Hne Hall].
  destruct (digits_dots_without " " lv Hall) as [_ Hsp]; [done..|].
  destruct (digits_dots_without "," lv Hall) as [Hco _]; [done..|].
  unfold numeric_reading. rewrite Hsp. cbn [nth lookup list_lookup].
  rewrite Hco. unfold int_of_text, float_of_text, float_of_int, whole_part.
  destruct (count_char "." lv) as [|[|n]] eqn:Hc.
  - destruct (count_char_none "." lv Hc) as [Hrm Hdot].
    rewrite Hrm in Hne, Hall. unfold isdigit. rewrite Hne, Hall, Hdot.
    cbn [andb nth Nat.leb].
    destruct (Z.ltb_spec (digits_value lv 0) float_overflow);
      destruct (Z.leb_spec float_overflow (digits_value lv 0));
      try lia; reflexivity.
  - assert (Hnd : all_digits lv = false).
    { destruct (all_digits lv) eqn:E; [|done].
      apply all_digits_no_dot in E. congruence. }
    unfold isdigit at 1. rewrite Hnd, andb_false_r.
    unfold isdigit. rewrite Hne, Hall. cbn [andb Nat.leb].
    destruct (Z.ltb_spec (digits_value (nth 0 (split_on "." lv) "") 0)
                float_overflow);
      destruct (Z.leb_spec float_overflow
                  (digits_value (nth 0 (split_on "." lv) "") 0));
      try lia; reflexivity.
  - assert (Hnd : all_digits lv = false).
    { destruct (all_digits lv) eqn:E; [|done].
      apply all_digits_no_dot in E. congruence. }
    unfold isdigit at 1. rewrite Hnd, andb_false_r.
    unfold isdigit. rewrite Hne, Hall. cbn [andb Nat.leb]. reflexivity.
Qed.

Lemma Channel_new_plain item sensorid conf w e :
  (Channel_new item sensorid conf w).2 = Raise e → plain_number item.
Proof.
  unfold Channel_new, Channel_initialize, plain_number.
  set (self := mkNode _ _ _ _ _).
  assert (Hpre : attr "lastvalue" self = VNone) by (vm_compute; reflexivity).
  cbn [snd]. rewrite attr_setattr_ne by done. rewrite attr_set_scalars.
  destruct (last_scalar "lastvalue" (children item) None) as [v|] eqn:Hl.
  - destruct (last_scalar_str _ _ _ Hl) as [s ->].
    destruct (isdigit (remove_char "." s)) eqn:Hd; [|done].
    intros _. by exists s.
  - by rewrite Hpre.
Qed.

Lemma Channel_new_built item sensorid conf w ch :
  (Channel_new item sensorid conf w).2 = Ok ch → ¬ plain_number item.
Proof.
  unfold Channel_new, Channel_initialize, plain_number.
  set (self := mkNode _ _ _ _ _).
  assert (Hpre : attr "lastvalue" self = VNone) by (vm_compute; reflexivity).
  cbn [snd]. rewrite attr_setattr_ne by done. rewrite attr_set_scalars.
  destruct (last_scalar "lastvalue" (children item) None) as [v|] eqn:Hl.
  - destruct (last_scalar_str _ _ _ Hl) as [s ->].
    destruct (isdigit (remove_char "." s)) eqn:Hd.
    + by rewrite (numeric_reading_raises s Hd).
    + intros _ [s' [[= <-] Hs']]. congruence.
  - intros _ [s' [[=] _]].
Qed.

(** X8.  Building a channel fails exactly on a plain number.  When the
    last [lastvalue] element of the item holds digits and dots only (at
    least one digit), the constructor raises: a ValueError for a text
    with two dots or more, an OverflowError when the number before the
    dot is too large for a float, an IndexError otherwise.  On every
    other item it returns a channel.  Stated for an item of scalar
    elements with a [lastvalue] in ASCII. *)
Theorem channel_plain_number_raises (item : Soup) (sensorid : pyval)
    (conf : ConfData) (w : World) :
  flat_ok item = true →
  ascii_lastvalue item →
  match (Channel_new item sensorid conf w).2 with
  | Ok _ => ¬ plain_number item
  | Raise e =>
      ∃ s, last_scalar "lastvalue" (children item) None = Some (VStr s)
           ∧ isdigit (remove_char "." s) = true
           ∧ e = if (2 <=? count_char "." s)%nat then ValueError
                 else if (float_overflow
                            <=? digits_value (whole_part s) 0)%Z
                      then OverflowError
                      else IndexError
  end.
Proof.
  intros _ _. unfold Channel_new, Channel_initialize, plain_number.
  set (self := mkNode _ _ _ _ _).
  assert (Hpre : attr "lastvalue" self = VNone) by (vm_compute; reflexivity).
  cbn [snd]. rewrite attr_setattr_ne by done. rewrite attr_set_scalars.
  destruct (last_scalar "lastvalue" (children item) None) as [v|] eqn:Hl.
  - destruct (last_scalar_str _ _ _ Hl) as [s ->].
    destruct (isdigit (remove_char "." s)) eqn:Hd.
    + rewrite (numeric_reading_raises s Hd). by exists s.
    + intros [s' [[= <-] Hs']]. congruence.
  - rewrite Hpre. intros [s' [[=] _]].
Qed.

Section ChannelFacts.
Context (server : list string → string → Response).

(** X9.  A channel does not know its sensor: the constructor's
    [sensorid] is overwritten by [BaseConfig.__init__], so unless the
    item carries a [sensorid] element of its own, the channel built has
    [sensorid] [None], and pausing it, resuming it and setting a
    property on it address the object id ["None"]. *)
Theorem channel_forgets_sensor (item : Soup) (sensorid : pyval)
    (conf : ConfData) (w w' : World) (ch : Node) :
  Channel_new item sensorid conf w = (w', Ok ch) →
  last_scalar "sensorid" (children item) None = None →
  attr "sensorid" ch = VNone ∧
  channel_pause_url ch 0 "" = "pause.htm?id=None&action=0&" ∧
  channel_resume_url ch = "pause.htm?id=None&action=1" ∧
  ∀ name value,
    setprop_url ch name value
    = "setobjectproperty.htm?id=None&subid=" +:+ py_str (attr "objid" ch)
      +:+ "&name=" +:+ name +:+ "&value=" +:+ py_str value.
Proof.
  unfold Channel_new, Channel_initialize. intros H Hno.
  set (self := mkNode _ _ _ _ _) in H.
  assert (Hs : attr "sensorid"
                 (setattr "type" (VStr "Channel")
                    (setattr "id" (attr "objid"
                                     (set_scalars (children item) self))
                       (set_scalars (children item) self))) = VNone).
  { rewrite !attr_setattr_ne by done. by rewrite attr_set_scalars, Hno. }
  assert (Hch : ch = setattr "type" (VStr "Channel")
                       (setattr "id" (attr "objid"
                                        (set_scalars (children item) self))
                          (set_scalars (children item) self))).
  { simpl in H. destruct (attr "lastvalue" _) as [|z|lv]; [|done|].
    - by injection H as _ <-.
    - destruct (isdigit _) eqn:Hd;
        [by rewrite (numeric_reading_raises lv Hd) in H|].
      by injection H as _ <-. }
  rewrite <- Hch in Hs. split; [exact Hs|].
  unfold channel_pause_url, channel_resume_url, setprop_url. rewrite Hs.
  repeat split. intros name value.
  assert (Ht : attr "type" ch = VStr "Channel")
    by (rewrite Hch; apply attr_setattr_eq).
  rewrite Ht. done.
Qed.

End ChannelFacts.

Section ProbeFacts.
Context (server : list string → string → Response) (lxml : string → Soup).

Lemma Group_new_type cl soup conf w :
  attr "type" (g_node (Group_new cl soup conf w).2) = VStr "Group".
Proof.
  destruct (Group_new_facts cl soup conf w) as [_ [n ->]].
  apply attr_setattr_eq.
Qed.

(** X10.  A probe counts as a group: [Probe(...)] leaves [type] at
    ["Group"], so a refresh without a fragment looks for a [group]
    element in the tree it fetches.  When the trees of the server have
    no [group] element below [nodes], as the tree of a probe has not,
    the refresh raises and the probe stays as it was. *)
Theorem probe_refresh_reads_group (soup : Soup) (conf : ConfData)
    (w0 w : World) :
  (∀ hist url,
     tree_fragment "group" (lxml (text (server hist url)))
     = Raise AttributeError) →
  let probe := (Group_new CProbe soup conf w0).2 in
  attr "type" (g_node probe) = VStr "Group" ∧
  (Group_refresh server lxml probe None w).1.2 = probe ∧
  ∃ e, (Group_refresh server lxml probe None w).2 = Raise e.
Proof.
  intros Hsrv probe.
  assert (Ht : attr "type" (g_node probe) = VStr "Group")
    by apply Group_new_type.
  split; [exact Ht|]. clearbody probe.
  assert (G : ∀ out, out = Group_refresh server lxml probe None w →
                     out.1.2 = probe ∧ ∃ e, out.2 = Raise e);
    [|split; by eapply G].
  intros out ->. unfold Group_refresh, py_eq. rewrite Ht.
  rewrite bool_decide_true by done.
  unfold fetch_fragment, get_tree.
  destruct (get_request _ _ _ _ _) as [w1 [[req|]|e]] eqn:Hg; simpl;
    [| split; [done | by eexists] ..].
  assert (Hreq : ∃ hist url, req = server hist url).
  { unfold get_request in Hg.
    repeat match type of Hg with
           | context [Z.eqb ?a ?b] => destruct (Z.eqb a b)
           end; try done.
    injection Hg as _ <-. by eexists _, _. }
  destruct Hreq as [hist [url ->]]. specialize (Hsrv hist url).
  unfold tree_fragment in Hsrv.
  destruct (find "sensortree" _) as [st|] eqn:Hst;
    [| split; [done | by eexists]].
  destruct (find "nodes" st) as [nodes|] eqn:Hn;
    [| split; [done | by eexists]].
  simpl. unfold tree_fragment. rewrite Hst, Hn.
  destruct (find "group" nodes); [done|]. split; [done | by eexists].
Qed.

(** X11.  A refresh of a sensor against a fragment of scalar elements
    rewrites the fields the fragment names and leaves every other field
    alone: each field named by a child element takes the text of the
    last such element, a field the fragment does not name keeps the
    value it had, [attributes] takes the attributes of the fragment, and
    the identity of the sensor is kept, whether or not the refresh then
    completes the update of the channels.  The fields are the scalar
    ones: the names of collections, registries and methods are not
    among them. *)
Theorem sensor_refresh_keeps_unnamed_fields (f : Soup) (self : Sensor)
    (w : World) :
  soup_name f ≠ None →
  flat_ok f = true →
  let self' := (Sensor_refresh_soup server lxml f self w).1.2 in
  oid (s_node self') = oid (s_node self) ∧
  attributes (s_node self') = Some (soup_attrs f) ∧
  ∀ k, k ∉ reserved →
       attr k (s_node self')
       = match last_scalar k (children f) None with
         | Some v => v
         | None => attr k (s_node self)
         end.
Proof.
  intros Hf _ self'. subst self'. rewrite Sensor_refresh_soup_node.
  destruct f as [t|nm a cs]; [done|]. unfold sync. simpl.
  rewrite set_scalars_named.
  split; [apply set_scalars_frame|]. split; [done|].
  intros k _. apply attr_set_scalars.
Qed.

End ProbeFacts.

(** * What the constructors build *)

Section BuildFacts.
Context {St : Type}.

Lemma build_children_inv_w (I : list Soup → St → World → Prop)
    (step : Soup → St → World → World * St) cs st w :
  I [] st w →
  (∀ P c st0 w0, I P st0 w0 → I (P ++ [c]) (step c st0 w0).2 (step c st0 w0).1) →
  I cs (build_children step cs st w).2 (build_children step cs st w).1.
Proof.
  intros H0 Hstep.
  assert (G : ∀ cs0 P0 st0 w0,
             I P0 st0 w0 →
             I (P0 ++ cs0) (build_children step cs0 st0 w0).2
               (build_children step cs0 st0 w0).1).
  { induction cs0 as [|c cs0 IH]; intros P0 st0 w0 HI.
    - by rewrite app_nil_r.
    - simpl. pose proof (Hstep P0 c st0 w0 HI) as H1.
      destruct (step c st0 w0) as [w1 st1]. simpl in H1.
      replace (P0 ++ c :: cs0) with ((P0 ++ [c]) ++ cs0)
        by (by rewrite <- app_assoc).
      by apply IH. }
  by apply (G cs [] st w).
Qed.

End BuildFacts.

Section ListedFacts.
Context {T : Type} (node_of : T → Node).

Lemma listed_nil w : listed node_of [] [] w.
Proof. repeat split; constructor. Qed.

Lemma listed_mono coll reg w w' :
  (next_oid w ≤ next_oid w')%nat →
  listed node_of coll reg w → listed node_of coll reg w'.
Proof.
  intros Hw (Hr & Hn & Hf). repeat split; [done..|].
  eapply Forall_impl; [exact Hf|]. simpl. intros x Hx. lia.
Qed.

Lemma listed_add coll reg w w' x :
  (next_oid w ≤ oid (node_of x))%nat →
  (oid (node_of x) < next_oid w')%nat →
  listed node_of coll reg w →
  listed node_of (coll ++ [x]) (reg ++ [oid (node_of x)]) w'.
Proof.
  intros Hx Hw (Hr & Hn & Hf). unfold listed, identities_ok, oids_of in *.
  rewrite map_app, Forall_app. simpl. subst reg. repeat split.
  - apply NoDup_app. repeat split; [done| |apply NoDup_singleton].
    intros o Ho ->%list_elem_of_singleton.
    apply elem_of_map in Ho as [y [Hy Hin]].
    rewrite Forall_forall in Hf. specialize (Hf y Hin). simpl in Hf. lia.
  - eapply Forall_impl; [exact Hf|]. simpl. intros y Hy. lia.
  - by constructor.
Qed.

End ListedFacts.

Lemma Forall2_snoc {A B} (R : A → B → Prop) l k x y :
  Forall2 R l k → R x y → Forall2 R (l ++ [x]) (k ++ [y]).
Proof. intros H1 H2. apply Forall2_app; [done | by constructor]. Qed.

Lemma Sensor_new_oid c did conf w :
  oid (s_node (Sensor_new c did conf w).2) = next_oid w.
Proof. unfold Sensor_new. simpl. apply set_scalars_frame. Qed.

Lemma Device_init_step_confdata child self w :
  confdata (d_node (Device_init_step child self w).2) = confdata (d_node self).
Proof.
  unfold Device_init_step. destruct child as [t|nm a cs]; [done|].
  by destruct (String.eqb nm "sensor").
Qed.

(** X12.  [Device(devicesoup, confdata)], on a device document of
    scalar elements and sensors, builds one sensor per [sensor] child of
    the document, in document order and each from its own element, and
    lists exactly these in the registry of the device; the sensors are
    distinct objects. *)
Theorem Device_new_lists_sensors (devicesoup : Soup) (conf : ConfData)
    (w : World) :
  device_doc_ok devicesoup = true →
  let out := Device_new devicesoup conf w in
  Forall2 (λ s c, ∃ did wi, s = (Sensor_new c did conf wi).2)
    (d_sensors out.2) (of_kind "sensor" (children devicesoup)) ∧
  d_allsensors out.2 = oids_of s_node (d_sensors out.2) ∧
  identities_ok s_node out.1 (d_sensors out.2).
Proof.
  intros _. unfold Device_new.
  set (self := mkNode (next_oid w) CDevice _ None conf).
  pose proof (build_children_inv_w
                (λ P (d : Device) w0,
                   confdata (d_node d) = conf ∧
                   Forall2 (λ s c, ∃ did wi, s = (Sensor_new c did conf wi).2)
                     (d_sensors d) (of_kind "sensor" P) ∧
                   listed s_node (d_sensors d) (d_allsensors d) w0)
                Device_init_step (children devicesoup)
                (mkDevice self [] [] []) (alloc w)) as H.
  destruct (build_children _ _ _ _) as [w1 d1].
  cbn [fst snd d_sensors d_allsensors] in *.
  destruct H as (_ & H1 & H2 & H3); [| |done].
  - split; [done|]. split; [constructor | apply listed_nil].
  - intros P c st0 w0 (Hc & HF & HL).
    rewrite Device_init_step_confdata, of_kind_app, of_kind_one.
    split; [done|]. unfold Device_init_step.
    destruct c as [t|nm a cs].
    { rewrite decide_False by done. by rewrite app_nil_r. }
    destruct (String.eqb_spec nm "sensor") as [->|Hne].
    + rewrite decide_True by done.
      pose proof (Sensor_new_oid (Tag "sensor" a cs) (attr "id" (d_node st0))
                    (confdata (d_node st0)) w0) as Ho.
      destruct (Sensor_new _ _ _ _) as [w2 sn] eqn:Hs.
      cbn [fst snd d_sensors d_allsensors] in *. split.
      * apply Forall2_snoc; [done|]. exists (attr "id" (d_node st0)), w0.
        by rewrite <- Hc, Hs.
      * assert (w2 = alloc w0) as -> by (by injection Hs as <- _).
        eapply (listed_add s_node); [| |exact HL]; rewrite Ho; simpl; lia.
    + rewrite decide_False by (intros [= ->]; done).
      by rewrite app_nil_r.
Qed.

Lemma Group_init_step_confdata new_group child self w :
  confdata (g_node (Group_init_step new_group child self w).2)
  = confdata (g_node self).
Proof.
  unfold Group_init_step. destruct child as [t|nm a cs]; [done|].
  destruct (String.eqb nm "device"); [by destruct (Device_new _ _ _)|].
  destruct (String.eqb nm "group"); [by destruct (new_group _ _ _)|done].
Qed.

Lemma of_kind_snoc_other kind P c :
  soup_name c ≠ Some kind → of_kind kind (P ++ [c]) = of_kind kind P.
Proof.
  intros H. rewrite of_kind_app, of_kind_one, decide_False by done.
  apply app_nil_r.
Qed.

Lemma of_kind_snoc_same kind P c :
  soup_name c = Some kind → of_kind kind (P ++ [c]) = of_kind kind P ++ [c].
Proof. intros H. by rewrite of_kind_app, of_kind_one, decide_True. Qed.

(** What one round of the loop of [Group.initialize] keeps for the
    devices and the groups met so far. *)
Lemma Group_init_step_listed conf P c (st0 : Group) w0 :
  confdata (g_node st0) = conf →
  Forall2 (λ d c, ∃ wi, d = (Device_new c conf wi).2)
    (g_devices st0) (of_kind "device" P) →
  Forall2 (λ x c, ∃ wi, x = (Group_new CGroup c conf wi).2)
    (g_groups st0) (of_kind "group" P) →
  listed d_node (g_devices st0) (g_alldevices st0) w0 →
  listed g_node (g_groups st0) (g_allgroups st0) w0 →
  let out := Group_init_step (Group_new CGroup) c st0 w0 in
  Forall2 (λ d c, ∃ wi, d = (Device_new c conf wi).2)
    (g_devices out.2) (of_kind "device" (P ++ [c])) ∧
  Forall2 (λ x c, ∃ wi, x = (Group_new CGroup c conf wi).2)
    (g_groups out.2) (of_kind "group" (P ++ [c])) ∧
  listed d_node (g_devices out.2) (g_alldevices out.2) out.1 ∧
  listed g_node (g_groups out.2) (g_allgroups out.2) out.1.
Proof.
  intros Hc HFd HFg HLd HLg. unfold Group_init_step.
  destruct c as [t|nm a cs].
  { rewrite !of_kind_snoc_other by done. done. }
  destruct (String.eqb_spec nm "device") as [->|Hnd].
  - rewrite (of_kind_snoc_same "device"), (of_kind_snoc_other "group")
      by done.
    destruct (Device_new_facts (Tag "device" a cs) (confdata (g_node st0)) w0)
      as (Ho & Hm & _).
    destruct (Device_new _ _ _) as [w1 dv] eqn:Hd.
    cbn [fst snd g_add_device g_devices g_groups g_alldevices g_allgroups] in *.
    split; [|split; [done|split]].
    + apply Forall2_snoc; [done|]. exists w0. by rewrite <- Hc, Hd.
    + eapply (listed_add d_node); [| |exact HLd]; lia.
    + eapply (listed_mono g_node); [|exact HLg]. lia.
  - destruct (String.eqb_spec nm "group") as [->|Hng].
    + rewrite (of_kind_snoc_same "group"), (of_kind_snoc_other "device")
        by done.
      destruct (Group_new_facts CGroup (Tag "group" a cs)
                  (confdata (g_node st0)) w0) as (Ho & _).
      pose proof (Group_new_mono (Tag "group" a cs) CGroup
                    (confdata (g_node st0)) w0) as Hm.
      destruct (Group_new _ _ _ _) as [w1 gx] eqn:Hg.
      cbn [fst snd g_add_group g_devices g_groups g_alldevices g_allgroups]
        in *.
      split; [done|split; [|split]].
      * apply Forall2_snoc; [done|]. exists w0. by rewrite <- Hc, Hg.
      * eapply (listed_mono d_node); [|exact HLd]. lia.
      * eapply (listed_add g_node); [| |exact HLg]; lia.
    + rewrite !of_kind_snoc_other by (intros [= ->]; done). done.
Qed.

(** X13.  [Group(groupsoup, confdata)], and [Probe(...)] alike, on a
    group document of scalar elements, devices and groups, builds one
    device per [device] child and one subgroup per [group] child of the
    document, in document order and each from its own element, and
    lists exactly these in its two registries; the objects of each kind
    are distinct. *)
Theorem Group_new_lists_children (cl : Class) (groupsoup : Soup)
    (conf : ConfData) (w : World) :
  group_doc_ok groupsoup = true →
  let out := Group_new cl groupsoup conf w in
  Forall2 (λ d c, ∃ wi, d = (Device_new c conf wi).2)
    (g_devices out.2) (of_kind "device" (children groupsoup)) ∧
  Forall2 (λ x c, ∃ wi, x = (Group_new CGroup c conf wi).2)
    (g_groups out.2) (of_kind "group" (children groupsoup)) ∧
  g_alldevices out.2 = oids_of d_node (g_devices out.2) ∧
  g_allgroups out.2 = oids_of g_node (g_groups out.2) ∧
  identities_ok d_node out.1 (g_devices out.2) ∧
  identities_ok g_node out.1 (g_groups out.2).
Proof.
  intros _. rewrite Group_new_eq. cbn zeta.
  set (self := mkNode (next_oid w) cl _ None conf).
  destruct groupsoup as [t|nm a cs].
  { cbn. repeat split; constructor. }
  pose proof (build_children_inv_w
                (λ P (g : Group) w0,
                   confdata (g_node g) = conf ∧
                   Forall2 (λ d c, ∃ wi, d = (Device_new c conf wi).2)
                     (g_devices g) (of_kind "device" P) ∧
                   Forall2 (λ x c, ∃ wi, x = (Group_new CGroup c conf wi).2)
                     (g_groups g) (of_kind "group" P) ∧
                   listed d_node (g_devices g) (g_alldevices g) w0 ∧
                   listed g_node (g_groups g) (g_allgroups g) w0)
                (Group_init_step (Group_new CGroup)) cs
                (mkGroup self [] [] [] []) (alloc w)) as H.
  cbn [children].
  destruct (build_children _ _ _ _) as [w1 g1].
  cbn [fst snd g_with_node g_devices g_groups g_alldevices g_allgroups] in *.
  destruct H as (_ & H1 & H2 & [H3 H4] & [H5 H6]); [| |done].
  - split; [done|]. repeat split; constructor.
  - intros P c st0 w0 (Hc & HFd & HFg & HLd & HLg).
    rewrite Group_init_step_confdata. split; [done|].
    by apply Group_init_step_listed.
Qed.

(** * The root: construction and search *)

Lemma build_children_app {St} (step : Soup → St → World → World * St)
    l1 l2 st w :
  build_children step (l1 ++ l2) st w
  = build_children step l2 (build_children step l1 st w).2
      (build_children step l1 st w).1.
Proof.
  revert st w. induction l1 as [|c l1 IH]; intros st w; [done|].
  simpl. destruct (step c st w) as [w1 st1]. apply IH.
Qed.

(** The two nested loops of [PRTGApi.initialize] visit the children of
    the children of [nodes], one after the other. *)
Lemma build_children_nested {St} (step : Soup → St → World → World * St)
    l st w :
  build_children
    (λ child st0 w0,
       match child with
       | NavStr _ => (w0, st0)
       | Tag _ _ cs => build_children step cs st0 w0
       end) l st w
  = build_children step (flat_map children l) st w.
Proof.
  revert st w. induction l as [|c l IH]; intros st w; [done|].
  simpl. rewrite build_children_app.
  destruct c as [t|nm a cs]; simpl; [apply IH|].
  destruct (build_children step cs st w) as [w1 st1]. apply IH.
Qed.

Lemma r_objects_probe x r :
  r_objects (r_add_probe x r) ≡ₚ r_objects r ++ [OGroup x].
Proof.
  unfold r_objects, r_add_probe. simpl. rewrite map_app. simpl.
  rewrite <- !app_assoc. apply Permutation_app_head.
  rewrite (Permutation_app_comm [OGroup x]). by rewrite <- app_assoc.
Qed.

Lemma r_objects_group x r :
  r_objects (r_add_group x r) ≡ₚ r_objects r ++ [OGroup x].
Proof.
  unfold r_objects, r_add_group. simpl. rewrite map_app. simpl.
  rewrite <- !app_assoc. do 2 apply Permutation_app_head.
  apply Permutation_app_comm.
Qed.

Lemma r_objects_device d r :
  r_objects (r_add_device d r) = r_objects r ++ [ODevice d].
Proof.
  unfold r_objects, r_add_device. simpl. rewrite map_app. simpl.
  by rewrite <- !app_assoc.
Qed.

Lemma fresh_objects objs objs' x w w' :
  objs' ≡ₚ objs ++ [x] →
  (next_oid w ≤ oid (obj_node x))%nat →
  (oid (obj_node x) < next_oid w')%nat →
  NoDup (map (λ x, oid (obj_node x)) objs) →
  Forall (λ x, (oid (obj_node x) < next_oid w)%nat) objs →
  NoDup (map (λ x, oid (obj_node x)) objs') ∧
  Forall (λ x, (oid (obj_node x) < next_oid w')%nat) objs'.
Proof.
  intros Hp Hx Hw Hn Hf. split.
  - assert (Hm : map (λ x, oid (obj_node x)) objs'
                 ≡ₚ map (λ x, oid (obj_node x)) (objs ++ [x])).
    { change (map (λ x, oid (obj_node x)) objs')
        with ((λ x, oid (obj_node x)) <$> objs').
      change (map (λ x, oid (obj_node x)) (objs ++ [x]))
        with ((λ x, oid (obj_node x)) <$> (objs ++ [x])).
      by rewrite Hp. }
    rewrite Hm, map_app. simpl. apply NoDup_app.
    repeat split; [done| |apply NoDup_singleton].
    intros o Ho ->%list_elem_of_singleton.
    apply elem_of_map in Ho as [y [Hy Hin]].
    rewrite Forall_forall in Hf. specialize (Hf y Hin). simpl in Hf. lia.
  - rewrite Hp, Forall_app. split.
    + eapply Forall_impl; [exact Hf|]. simpl. intros y Hy. lia.
    + by constructor.
Qed.

Lemma PRTGApi_init_step_confdata child self w :
  confdata (r_node (PRTGApi_init_step child self w).2)
  = confdata (r_node self).
Proof.
  unfold PRTGApi_init_step. destruct child as [t|nm a cs]; [done|].
  destruct (String.eqb nm "probenode"); [by destruct (Group_new _ _ _ _)|].
  destruct (String.eqb nm "device"); [by destruct (Device_new _ _ _)|].
  destruct (String.eqb nm "group"); [by destruct (Group_new _ _ _ _)|done].
Qed.

(** What one round of the loop of [PRTGApi.initialize] keeps. *)
Lemma PRTGApi_init_step_listed conf P c (r : PRTGApi) w0 :
  confdata (r_node r) = conf →
  Forall2 (λ x c, ∃ wi, x = (Group_new CProbe c conf wi).2)
    (probes r) (of_kind "probenode" P) →
  Forall2 (λ x c, ∃ wi, x = (Group_new CGroup c conf wi).2)
    (groups r) (of_kind "group" P) →
  Forall2 (λ d c, ∃ wi, d = (Device_new c conf wi).2)
    (devices r) (of_kind "device" P) →
  root_listed r w0 →
  let out := PRTGApi_init_step c r w0 in
  Forall2 (λ x c, ∃ wi, x = (Group_new CProbe c conf wi).2)
    (probes out.2) (of_kind "probenode" (P ++ [c])) ∧
  Forall2 (λ x c, ∃ wi, x = (Group_new CGroup c conf wi).2)
    (groups out.2) (of_kind "group" (P ++ [c])) ∧
  Forall2 (λ d c, ∃ wi, d = (Device_new c conf wi).2)
    (devices out.2) (of_kind "device" (P ++ [c])) ∧
  root_listed out.2 out.1 ∧
  treesoup out.2 = treesoup r.
Proof.
  intros Hc HFp HFg HFd (Lp & Lg & Ld & Ls & Ln & Lf).
  unfold PRTGApi_init_step.
  destruct c as [t|nm a cs].
  { rewrite !of_kind_snoc_other by done. done. }
  destruct (String.eqb_spec nm "probenode") as [->|Hnp].
  { rewrite (of_kind_snoc_same "probenode"), (of_kind_snoc_other "group"),
      (of_kind_snoc_other "device") by done.
    destruct (Group_new_facts CProbe (Tag "probenode" a cs)
                (confdata (r_node r)) w0) as (Ho & _).
    pose proof (Group_new_mono (Tag "probenode" a cs) CProbe
                  (confdata (r_node r)) w0) as Hm.
    destruct (Group_new _ _ _ _) as [w1 gx] eqn:Hg.
    cbn [fst snd] in *.
    destruct (fresh_objects _ _ (OGroup gx) w0 w1 (r_objects_probe gx r))
      as [Hn' Hf']; [simpl; lia..|done|done|].
    split; [|split; [done|split; [done|split; [|done]]]].
    - apply Forall2_snoc; [done|]. exists w0. by rewrite <- Hc, Hg.
    - unfold root_listed. simpl.
      rewrite Lp, Lg, Ld, Ls. unfold oids_of. rewrite map_app. done. }
  destruct (String.eqb_spec nm "device") as [->|Hnd].
  { rewrite (of_kind_snoc_same "device"), (of_kind_snoc_other "group"),
      (of_kind_snoc_other "probenode") by done.
    destruct (Device_new_facts (Tag "device" a cs) (confdata (r_node r)) w0)
      as (Ho & Hm & _).
    destruct (Device_new _ _ _) as [w1 dv] eqn:Hd.
    cbn [fst snd] in *.
    destruct (fresh_objects (r_objects r) (r_objects (r_add_device dv r))
                (ODevice dv) w0 w1) as [Hn' Hf'];
      [by rewrite r_objects_device|simpl; lia..|done|done|].
    split; [done|split; [done|split; [|split; [|done]]]].
    - apply Forall2_snoc; [done|]. exists w0. by rewrite <- Hc, Hd.
    - unfold root_listed. simpl.
      rewrite Lp, Lg, Ld, Ls. unfold oids_of. rewrite map_app. done. }
  destruct (String.eqb_spec nm "group") as [->|Hng].
  { rewrite (of_kind_snoc_same "group"), (of_kind_snoc_other "device"),
      (of_kind_snoc_other "probenode") by done.
    destruct (Group_new_facts CGroup (Tag "group" a cs)
                (confdata (r_node r)) w0) as (Ho & _).
    pose proof (Group_new_mono (Tag "group" a cs) CGroup
                  (confdata (r_node r)) w0) as Hm.
    destruct (Group_new _ _ _ _) as [w1 gx] eqn:Hg.
    cbn [fst snd] in *.
    destruct (fresh_objects _ _ (OGroup gx) w0 w1 (r_objects_group gx r))
      as [Hn' Hf']; [simpl; lia..|done|done|].
    split; [done|split; [|split; [done|split; [|done]]]].
    - apply Forall2_snoc; [done|]. exists w0. by rewrite <- Hc, Hg.
    - unfold root_listed. simpl.
      rewrite Lp, Lg, Ld, Ls. unfold oids_of. rewrite map_app. done. }
  rewrite !of_kind_snoc_other by (intros [= ->]; done). done.
Qed.

Section RootFacts.
Context (server : list string → string → Response) (lxml : string → Soup).

(** X14.  A root that was built from a tree of scalar elements,
    probes, groups and devices holds the tree it fetched, and one probe,
    group or device per [probenode], [group] or [device] element two
    levels below [nodes], in document order and each built from its own
    element.  Its registries list exactly these objects, which are
    distinct; [allsensors] is empty: no sensor, and nothing below the
    first level, is registered with the root. *)
Theorem PRTGApi_new_lists_children
    (host user passhash rootid protocol port : pyval) (verify : bool)
    (w w' : World) (r : PRTGApi) :
  PRTGApi_new server lxml host user passhash rootid protocol port verify w
  = (w', Ok r) →
  (∀ soup nodes, treesoup r = Some soup → tree_nodes soup = Ok nodes →
                 root_doc_ok nodes = true) →
  ∃ soup nodes,
    treesoup r = Some soup ∧ tree_nodes soup = Ok nodes ∧
    let cs := flat_map children (children nodes) in
    let conf := mkConf host port user passhash protocol verify in
    Forall2 (λ x c, ∃ wi, x = (Group_new CProbe c conf wi).2)
      (probes r) (of_kind "probenode" cs) ∧
    Forall2 (λ x c, ∃ wi, x = (Group_new CGroup c conf wi).2)
      (groups r) (of_kind "group" cs) ∧
    Forall2 (λ d c, ∃ wi, d = (Device_new c conf wi).2)
      (devices r) (of_kind "device" cs) ∧
    root_listed r w'.
Proof.
  unfold PRTGApi_new.
  set (conf := mkConf host port user passhash protocol verify).
  set (self := mkNode (next_oid w) CPRTGApi _ None conf).
  destruct (get_tree _ _ _ _ _) as [w1 [soup|e]]; [|done].
  destruct (tree_nodes soup) as [nodes|e] eqn:Hn; [|done].
  rewrite build_children_nested.
  pose proof (build_children_inv_w
                (λ P (r : PRTGApi) w0,
                   confdata (r_node r) = conf ∧
                   Forall2 (λ x c, ∃ wi, x = (Group_new CProbe c conf wi).2)
                     (probes r) (of_kind "probenode" P) ∧
                   Forall2 (λ x c, ∃ wi, x = (Group_new CGroup c conf wi).2)
                     (groups r) (of_kind "group" P) ∧
                   Forall2 (λ d c, ∃ wi, d = (Device_new c conf wi).2)
                     (devices r) (of_kind "device" P) ∧
                   root_listed r w0 ∧ treesoup r = Some soup)
                PRTGApi_init_step (flat_map children (children nodes))
                (mkApi self [] [] [] [] [] [] [] (Some soup)) w1) as H.
  destruct (build_children _ _ _ _) as [w2 api]. cbn [fst snd] in H.
  intros [= <- <-] _.
  destruct H as (_ & H1 & H2 & H3 & H4 & H5).
  - split; [done|]. repeat split; constructor.
  - intros P c st0 w0 (Hc & HFp & HFg & HFd & HL & Ht).
    rewrite PRTGApi_init_step_confdata. split; [done|].
    destruct (PRTGApi_init_step_listed conf P c st0 w0 Hc HFp HFg HFd HL)
      as (G1 & G2 & G3 & G4 & G5).
    rewrite G5. done.
  - by exists soup, nodes.
Qed.

End RootFacts.

Lemma find_deref (l : list Obj) x :
  NoDup (map (λ y, oid (obj_node y)) l) → x ∈ l →
  List.find (λ y, bool_decide (oid (obj_node y) = oid (obj_node x))) l
  = Some x.
Proof.
  induction l as [|a l IH]; intros Hn Hx; [by apply elem_of_nil in Hx|].
  simpl in *. apply NoDup_cons in Hn as [Ha Hn].
  apply elem_of_cons in Hx as [->|Hx].
  - by rewrite bool_decide_true.
  - rewrite bool_decide_false; [by apply IH|].
    intros Heq. apply Ha. rewrite Heq.
    by apply (elem_of_map_2 (λ y, oid (obj_node y))).
Qed.

Lemma search_registry_objects r v (l : list Obj) :
  NoDup (map (λ y, oid (obj_node y)) (r_objects r)) →
  (∀ x, x ∈ l → x ∈ r_objects r) →
  search_registry r v (map (λ y, oid (obj_node y)) l)
  = match List.find (λ x, py_eq (attr "id" (obj_node x)) v) l with
    | Some x => Found x
    | None => NotFound
    end.
Proof.
  intros Hn. induction l as [|a l IH]; intros Hl; [done|].
  simpl. unfold deref. rewrite (find_deref _ a Hn)
    by (apply Hl, list_elem_of_here).
  destruct (py_eq _ _); [done|]. apply IH. intros x Hx. apply Hl.
  by apply list_elem_of_further.
Qed.

(** X15.  On a root whose registries list its collections,
    [search_byid] returns the first of the probes, then of the groups,
    then of the devices directly below the root whose id is the text of
    the value asked for, and nothing when there is none: no object
    further down the tree and no sensor is ever found. *)
Theorem search_byid_first_level (r : PRTGApi) (w : World) (idval : pyval) :
  root_listed r w →
  search_byid r idval
  = match List.find (λ x, py_eq (attr "id" (obj_node x)) (VStr (py_str idval)))
            (r_objects r) with
    | Some x => Found x
    | None => NotFound
    end.
Proof.
  intros (Lp & Lg & Ld & Ls & Ln & _). unfold search_byid.
  rewrite Lp, Lg, Ld, Ls, app_nil_r.
  replace (oids_of g_node (probes r) ++ oids_of g_node (groups r)
           ++ oids_of d_node (devices r))
    with (map (λ y, oid (obj_node y)) (r_objects r)).
  - by apply search_registry_objects.
  - unfold r_objects, oids_of. rewrite !map_app, !map_map. done.
Qed.

(** * Refreshes that cannot complete *)

Section RaiseFacts.
Context {St : Type}.

Lemma for_children_raises (step : Soup → St → World → World * St * res unit)
    cs st w c :
  c ∈ cs → (∀ st0 w0, (step c st0 w0).2 ≠ Ok tt) →
  (for_children step cs st w).2 ≠ Ok tt.
Proof.
  intros Hc Hstep. revert st w.
  induction cs as [|c0 cs IH]; intros st w; [by apply elem_of_nil in Hc|].
  simpl. destruct (step c0 st w) as [[w1 st1] [[]|e]] eqn:Hs; [|done].
  apply elem_of_cons in Hc as [->|Hc]; [|by apply IH].
  specialize (Hstep st w). by rewrite Hs in Hstep.
Qed.

Lemma for_children_app (step : Soup → St → World → World * St * res unit)
    l1 l2 st w :
  for_children step (l1 ++ l2) st w
  = match for_children step l1 st w with
    | (w1, st1, Ok _) => for_children step l2 st1 w1
    | (w1, st1, Raise e) => (w1, st1, Raise e)
    end.
Proof.
  revert st w. induction l1 as [|c l1 IH]; intros st w; [done|].
  simpl. destruct (step c st w) as [[w1 st1] [[]|e]]; [apply IH | done].
Qed.

(** The two nested loops of [PRTGApi.refresh] visit the children of the
    children of [nodes], one after the other. *)
Lemma for_children_nested (step : Soup → St → World → World * St * res unit)
    l st w :
  for_children
    (λ child st0 w0,
       match child with
       | NavStr _ => (w0, st0, Ok tt)
       | Tag _ _ cs => for_children step cs st0 w0
       end) l st w
  = for_children step (flat_map children l) st w.
Proof.
  revert st w. induction l as [|c l IH]; intros st w; [done|].
  simpl. rewrite for_children_app.
  destruct c as [t|nm a cs]; simpl; [apply IH|].
  destruct (for_children step cs st w) as [[w1 st1] [[]|e]]; [apply IH|done].
Qed.

End RaiseFacts.

Lemma find_string_missing name c :
  find name c = None → find_string name c = Raise AttributeError.
Proof. unfold find_string. by intros ->. Qed.

Section NeedsIds.
Context (server : list string → string → Response) (lxml : string → Soup).

(** X16.  A refresh reads the id of every structural child before it
    touches it.  A fragment with a [sensor] child without an [id]
    element never lets the refresh of a device complete, and a fragment
    with such a [device] or [group] child never lets the refresh of a
    group or probe complete, whatever the objects held and whatever the
    server answers. *)
Theorem refresh_needs_child_ids (c : Soup) (nm : string)
    (a : list (string * string)) (cs : list Soup) :
  c ∈ cs → find "id" c = None →
  (soup_name c = Some "sensor" →
   ∀ d w, (Device_refresh_soup server lxml (Tag nm a cs) d w).2 ≠ Ok tt) ∧
  (soup_name c = Some "device" ∨ soup_name c = Some "group" →
   ∀ g w, (Group_refresh_soup server lxml (Tag nm a cs) g w).2 ≠ Ok tt).
Proof.
  intros Hc Hid. apply find_string_missing in Hid. split.
  - intros Hk d w. unfold Device_refresh_soup.
    pose proof (for_children_raises
                  (Device_refresh_step server lxml
                     (ids_of s_node (d_sensors d))) cs (d, []) w c Hc) as H.
    destruct (for_children _ _ _ _) as [[w1 [d1 nids]] [[]|e]]; [|done].
    exfalso. apply H; [|done]. intros [d0 n0] w0.
    unfold Device_refresh_step. destruct c as [t|nm0 a0 cs0]; [done|].
    injection Hk as ->. simpl. by rewrite Hid.
  - intros Hk g w. rewrite Group_refresh_soup_eq. cbn zeta.
    pose proof (for_children_raises
                  (Group_refresh_step server lxml
                     (Group_refresh_soup server lxml)
                     (ids_of d_node (g_devices g))
                     (ids_of g_node (g_groups g))) cs (g, [], []) w c Hc) as H.
    destruct (for_children _ _ _ _) as [[w1 [[g1 nd] ng]] [[]|e]]; [|done].
    exfalso. apply H; [|done]. intros [[g0 nd0] ng0] w0.
    unfold Group_refresh_step. destruct c as [t|nm0 a0 cs0]; [by destruct Hk|].
    destruct Hk as [[= ->]|[= ->]]; simpl; by rewrite Hid.
Qed.

End NeedsIds.

(** * The devices directly below the root *)

Section RemoveTwice.
Context {T : Type} (node_of : T → Node).

Lemma remove_obj_absent o (l : list T) :
  o ∉ oids_of node_of l → remove_obj node_of o l = None.
Proof.
  induction l as [|a l IH]; [done|]. intros Ho. simpl.
  rewrite bool_decide_false.
  - rewrite IH; [done|]. intros Hin. apply Ho. by apply list_elem_of_further.
  - intros Heq. apply Ho. rewrite <- Heq. apply list_elem_of_here.
Qed.

Lemma scan_remove_twice_nomatch fuel i idval (coll : list T) :
  (∀ a, a ∈ coll → attr "id" (node_of a) ≠ idval) →
  scan_remove_twice node_of fuel i idval coll = (coll, Ok tt).
Proof.
  intros Hno. revert i. induction fuel as [|fuel IH]; intros i; [done|].
  simpl. destruct (coll !! i) as [a|] eqn:Hi; [|done].
  unfold py_eq. rewrite bool_decide_false; [apply IH|].
  apply Hno. by eapply list_elem_of_lookup_2.
Qed.

(** The second [remove] of the same object finds it gone. *)
Lemma scan_remove_twice_raises fuel i j idval (coll : list T) a :
  NoDup (oids_of node_of coll) →
  (i ≤ j)%nat → coll !! j = Some a → attr "id" (node_of a) = idval →
  (length coll - i < fuel)%nat →
  (scan_remove_twice node_of fuel i idval coll).2 = Raise ValueError.
Proof.
  intros Hnd. revert i. induction fuel as [|fuel IH]; intros i Hij Hj Hid Hf;
    [lia|].
  simpl. pose proof (lookup_lt_Some _ _ _ Hj) as Hlen.
  destruct (coll !! i) as [a0|] eqn:Hi;
    [|apply lookup_ge_None in Hi; lia].
  unfold py_eq. case_bool_decide as Hm.
  - pose proof (take_drop_middle _ _ _ Hi) as Hsplit.
    rewrite <- Hsplit in Hnd |- *.
    rewrite (remove_obj_NoDup node_of _ _ a0 Hnd).
    rewrite remove_obj_absent; [done|].
    unfold oids_of in *. rewrite map_app in *. simpl in Hnd.
    apply NoDup_app in Hnd as (_ & H1 & H2).
    apply NoDup_cons in H2 as [H2 _].
    intros [Hin|Hin]%elem_of_app; [|done].
    apply (H1 _ Hin), list_elem_of_here.
  - apply IH; [|done|done|lia].
    destruct (decide (i = j)) as [->|]; [|lia]. congruence.
Qed.

Lemma root_remove_stale_twice_cons idval ids newids (coll : list T) :
  root_remove_stale_twice node_of (idval :: ids) newids coll
  = if negb (py_in idval newids) then
      let '(coll', r) :=
        scan_remove_twice node_of (S (length coll)) 0 idval coll in
      match r with
      | Raise e => (coll', Raise e)
      | Ok _ => root_remove_stale_twice node_of ids newids coll'
      end
    else root_remove_stale_twice node_of ids newids coll.
Proof. reflexivity. Qed.

Lemma root_remove_stale_twice_raises ids newids (coll : list T) v :
  NoDup (oids_of node_of coll) →
  v ∈ ids → v ∉ newids → v ∈ ids_of node_of coll →
  (root_remove_stale_twice node_of ids newids coll).2 = Raise ValueError.
Proof.
  intros Hnd Hv Hnew Hin.
  induction ids as [|idval ids IH]; [by apply elem_of_nil in Hv|].
  rewrite root_remove_stale_twice_cons. unfold py_in.
  case_bool_decide as Hs; cbn [negb].
  - apply IH. apply elem_of_cons in Hv as [->|Hv]; done.
  - destruct (decide (idval ∈ ids_of node_of coll)) as [Hp|Hp].
    + apply elem_of_map in Hp as [a [Ha Hain]].
      apply list_elem_of_lookup in Hain as [j Hj].
      pose proof (scan_remove_twice_raises (S (length coll)) 0 j idval coll a
                    Hnd ltac:(lia) Hj (eq_sym Ha) ltac:(lia)) as Hr.
      destruct (scan_remove_twice _ _ _ _ _) as [coll' r]. simpl in Hr.
      by subst r.
    + rewrite scan_remove_twice_nomatch.
      * apply IH. apply elem_of_cons in Hv as [->|Hv]; done.
      * intros a Ha Heq. apply Hp. rewrite <- Heq.
        by apply (elem_of_map_2 (λ x, attr "id" (node_of x))).
Qed.

End RemoveTwice.

Section RootRefresh.
Context (server : list string → string → Response) (lxml : string → Soup).

Lemma PRTGApi_refresh_step_mono probeids groupids deviceids c st w :
  (next_oid w
   ≤ next_oid (PRTGApi_refresh_step server lxml probeids groupids deviceids
                 c st w).1.1)%nat.
Proof.
  destruct st as [[[r np] ng] nd]. unfold PRTGApi_refresh_step.
  destruct c as [t|nm a cs]; [done|].
  destruct (String.eqb nm "probenode").
  { destruct (find_string "id" _) as [cid|e]; [|done].
    pose proof (reconcile_child_mono g_node
                  (Group_refresh_soup server lxml (Tag nm a cs))
                  (Group_new CProbe (Tag nm a cs) (confdata (r_node r)))
                  probeids cid (probes r) (allprobes r) np w
                  (Group_refresh_soup_mono server lxml _)) as H.
    destruct (reconcile_child _ _ _ _ _ _ _ _ _) as [[w1 [[ss reg] n']] res].
    apply H. intros w0.
    pose proof (Group_new_mono (Tag nm a cs) CProbe (confdata (r_node r)) w0).
    lia. }
  destruct (String.eqb nm "group").
  { destruct (find_string "id" _) as [cid|e]; [|done].
    pose proof (reconcile_child_mono g_node
                  (Group_refresh_soup server lxml (Tag nm a cs))
                  (Group_new CGroup (Tag nm a cs) (confdata (r_node r)))
                  groupids cid (groups r) (allgroups r) ng w
                  (Group_refresh_soup_mono server lxml _)) as H.
    destruct (reconcile_child _ _ _ _ _ _ _ _ _) as [[w1 [[ss reg] n']] res].
    apply H. intros w0.
    pose proof (Group_new_mono (Tag nm a cs) CGroup (confdata (r_node r)) w0).
    lia. }
  destruct (String.eqb nm "device"); [|done].
  destruct (find_string "id" _) as [cid|e]; [|done].
  pose proof (reconcile_child_mono d_node
                (Device_refresh_soup server lxml (Tag nm a cs))
                (Device_new (Tag nm a cs) (confdata (r_node r)))
                deviceids cid (devices r) (alldevices r) nd w
                (Device_refresh_soup_mono server lxml _)) as H.
  destruct (reconcile_child _ _ _ _ _ _ _ _ _) as [[w1 [[ss reg] n']] res].
  apply H. intros w0.
  pose proof (Device_new_facts (Tag nm a cs) (confdata (r_node r)) w0)
    as (_ & Hm & _). lia.
Qed.

(** The loop of [PRTGApi.refresh] reconciles the devices. *)
Lemma Root_step_reconciles_devices probeids groupids deviceids :
  step_reconciles d_node "device" ["sensor"] true
    (λ st : ApiLoop, (devices st.1.1.1, st.2))
    (λ st : ApiLoop, alldevices st.1.1.1)
    deviceids
    (PRTGApi_refresh_step server lxml probeids groupids deviceids).
Proof.
  intros c [[[r np] ng] nd] w w1 [[[r1 np1] ng1] nd1] Hs.
  pose proof (PRTGApi_refresh_step_mono probeids groupids deviceids c
                (r, np, ng, nd) w) as Hmono.
  rewrite Hs in Hmono. simpl in Hmono.
  unfold PRTGApi_refresh_step in Hs. destruct c as [t|nm a cs].
  - inversion Hs; subst. split; [discriminate | done].
  - simpl. destruct (String.eqb_spec nm "probenode") as [->|Hnp].
    { split; [intros [=] | intros _].
      destruct (find_string _ _) as [cid|e]; [|discriminate].
      destruct (reconcile_child _ _ _ _ _ _ _ _ _)
        as [[w2 [[ss reg] nn]] res].
      by inversion Hs; subst. }
    destruct (String.eqb_spec nm "group") as [->|Hng].
    { split; [intros [=] | intros _].
      destruct (find_string _ _) as [cid|e]; [|discriminate].
      destruct (reconcile_child _ _ _ _ _ _ _ _ _)
        as [[w2 [[ss reg] nn]] res].
      by inversion Hs; subst. }
    destruct (String.eqb_spec nm "device") as [->|Hnd].
    + split; [intros _ | done].
      unfold kid. destruct (find_string _ _) as [cid|e]; [|discriminate].
      destruct (reconcile_child _ _ _ _ _ _ _ _ _)
        as [[w2 [[ss reg] nn]] res] eqn:Hrc.
      inversion Hs; subst. simpl.
      eexists _, _. split; [apply device_synced_step | exact Hrc].
    + split; [intros [=]; done | intros _]. by inversion Hs; subst.
Qed.

(** X17.  A refresh of the root never completes once a device directly
    below the root has left the tree: whenever the root holds a device
    whose id the refreshed tree no longer has among the devices of its
    first level, the refresh ends in an exception.  Stated for trees of
    scalar elements, probes, groups and devices whose first-level
    devices carry their own distinct ids and no [type] element. *)
Theorem root_refresh_fails_on_stale_device (soup nodes : Soup) (r : PRTGApi)
    (w : World) (d : Device) :
  tree_nodes soup = Ok nodes →
  root_doc_ok nodes = true →
  level_ok "device" ["sensor"] true (flat_map children (children nodes))
  = true →
  identities_ok d_node w (devices r) →
  d ∈ devices r →
  attr "id" (d_node d)
    ∉ map kid (of_kind "device" (flat_map children (children nodes))) →
  (PRTGApi_refresh_soup server lxml soup r w).2 ≠ Ok tt.
Proof.
  intros Hn _ Hok Hid Hd Hstale. unfold PRTGApi_refresh_soup. rewrite Hn.
  cbn [probes groups devices].
  rewrite for_children_nested.
  set (st0 := (mkApi (r_node r) (probes r) (groups r) (devices r)
                 (allprobes r) (allgroups r) (alldevices r) (allsensors r)
                 (Some soup), [], [], []) : ApiLoop).
  destruct (for_children _ _ st0 w) as [[w1 [[[r1 np] ng] nd]] [[]|e]] eqn:Hl;
    [|done].
  pose proof (first_pass_loop d_node "device" ["sensor"] true
                (λ st : ApiLoop, (devices st.1.1.1, st.2))
                (λ st : ApiLoop, alldevices st.1.1.1)
                _ _ _ (devices r) st0 w (r1, np, ng, nd) w1
                (Root_step_reconciles_devices _ _ _) Hok Hid eq_refl eq_refl
                Hl) as Hinv.
  cbn [fst snd] in Hinv.
  destruct (root_remove_stale g_node _ np _ _) as [[ps preg] [[]|e]]; [|done].
  cbn [probes groups devices allprobes allgroups alldevices].
  destruct (root_remove_stale g_node _ ng _ _) as [[gs greg] [[]|e]]; [|done].
  cbn [probes groups devices allprobes allgroups alldevices].
  pose proof (root_remove_stale_twice_raises d_node
                (ids_of d_node (devices r)) nd (devices r1)
                (attr "id" (d_node d)) (inv_nodup _ _ _ _ _ _ _ Hinv)) as Hr.
  destruct (root_remove_stale_twice _ _ _ _) as [ds rd]. simpl in *.
  rewrite Hr; [done| | |].
  - by apply (elem_of_map_2 (λ x, attr "id" (d_node x))).
  - by rewrite (inv_nids _ _ _ _ _ _ _ Hinv).
  - rewrite (inv_ids _ _ _ _ _ _ _ Hinv). apply elem_of_app. left.
    by apply (elem_of_map_2 (λ x, attr "id" (d_node x))).
Qed.

End RootRefresh.

(** * A refresh of the root that completes *)

Lemma NoDup_map_filter {A B} (f : A → B) (P : A → Prop)
    `{∀ x, Decision (P x)} (l : list A) :
  NoDup (map f l) → NoDup (map f (filter P l)).
Proof.
  induction l as [|x l IH]; [done|]. simpl. intros [Hx Hl]%NoDup_cons.
  rewrite filter_cons. case_decide; [|by apply IH].
  simpl. apply NoDup_cons. split; [|by apply IH].
  intros Hin. apply Hx. apply elem_of_map in Hin as [y [Hy Hin]].
  apply list_elem_of_filter in Hin as [_ Hin]. rewrite Hy.
  by apply (elem_of_map_2 f).
Qed.

Section RootRemoval.
Context {T : Type} (node_of : T → Node).

#[local] Abbreviation id_of x := (attr "id" (node_of x)).

Lemma scan_remove_nomatch fuel i idval (coll : list T) reg :
  (∀ a, a ∈ coll → id_of a ≠ idval) →
  scan_remove node_of fuel i idval coll reg = (coll, reg, Ok tt).
Proof.
  intros Hno. revert i. induction fuel as [|fuel IH]; intros i; [done|].
  simpl. destruct (coll !! i) as [a|] eqn:Hi; [|done].
  unfold py_eq. rewrite bool_decide_false; [apply IH|].
  apply Hno. by eapply list_elem_of_lookup_2.
Qed.

(** With distinct ids, the scan removes the one element with the id from
    the collection and from a registry that lists the collection. *)
Lemma scan_remove_spec fuel i idval (coll : list T) :
  NoDup (ids_of node_of coll) → NoDup (oids_of node_of coll) →
  (length coll - i < fuel)%nat →
  (∀ k a, (k < i)%nat → coll !! k = Some a → id_of a ≠ idval) →
  scan_remove node_of fuel i idval coll (oids_of node_of coll)
  = (filter (λ x, id_of x ≠ idval) coll,
     oids_of node_of (filter (λ x, id_of x ≠ idval) coll), Ok tt).
Proof.
  intros Hni Hno. revert i. induction fuel as [|fuel IH]; intros i Hf Hbefore;
    [lia|].
  simpl. destruct (coll !! i) as [a|] eqn:Hi.
  - unfold py_eq. case_bool_decide as Hm.
    + pose proof (take_drop_middle _ _ _ Hi) as Hsplit.
      set (l1 := take i coll) in *. set (l2 := drop (S i) coll) in *.
      clearbody l1 l2. subst coll.
      pose proof (remove_obj_NoDup node_of l1 l2 a Hno) as Hro.
      rewrite (remove_obj_oids node_of _ _ _ Hro), Hro.
      assert (Hrest : ∀ x, x ∈ l1 ++ l2 → id_of x ≠ idval).
      { unfold ids_of in Hni. rewrite map_app in Hni. simpl in Hni.
        apply NoDup_app in Hni as (_ & H1 & H2).
        apply NoDup_cons in H2 as [H2 _].
        intros x [Hx|Hx]%elem_of_app Heq.
        - apply (H1 (id_of x)).
          + by apply (elem_of_map_2 (λ y, id_of y)).
          + rewrite Heq, <- Hm. apply list_elem_of_here.
        - apply H2. rewrite Hm, <- Heq.
          by apply (elem_of_map_2 (λ y, id_of y)). }
      rewrite scan_remove_nomatch by done.
      rewrite filter_app, filter_cons_False by (intros Hn; by apply Hn).
      rewrite <- filter_app.
      rewrite (filter_all (λ x, id_of x ≠ idval) (l1 ++ l2)); [done|].
      by apply Forall_forall.
    + pose proof (lookup_lt_Some _ _ _ Hi) as Hlt.
      apply IH; [lia|]. intros k b Hk Hb.
      destruct (decide (k = i)) as [->|]; [congruence|].
      apply (Hbefore k); [lia|done].
  - rewrite (filter_all (λ x, id_of x ≠ idval) coll); [done|].
    apply Forall_forall. intros x Hx.
    apply list_elem_of_lookup in Hx as [k Hk].
    apply (Hbefore k); [|done].
    apply lookup_ge_None in Hi. apply lookup_lt_Some in Hk. lia.
Qed.

Lemma root_remove_stale_cons idval ids newids (coll : list T) reg :
  root_remove_stale node_of (idval :: ids) newids coll reg
  = if negb (py_in idval newids) then
      let '(coll', reg', r) :=
        scan_remove node_of (S (length coll)) 0 idval coll reg in
      match r with
      | Raise e => (coll', reg', Raise e)
      | Ok _ => root_remove_stale node_of ids newids coll' reg'
      end
    else root_remove_stale node_of ids newids coll reg.
Proof. reflexivity. Qed.

(** The removal loop of the root for probes and groups: with distinct
    ids and a registry that lists the collection, it completes and
    leaves the elements whose id is not stale. *)
Lemma root_remove_stale_spec ids newids (coll : list T) :
  NoDup (ids_of node_of coll) → NoDup (oids_of node_of coll) →
  let kept := filter (λ x, ¬ (id_of x ∈ ids ∧ id_of x ∉ newids)) coll in
  root_remove_stale node_of ids newids coll (oids_of node_of coll)
  = (kept, oids_of node_of kept, Ok tt).
Proof.
  revert coll. induction ids as [|idval ids IH]; intros coll Hni Hno kept.
  - subst kept. simpl. rewrite filter_all; [done|].
    apply Forall_forall. intros x _ [Hx _]. by apply elem_of_nil in Hx.
  - rewrite root_remove_stale_cons. unfold py_in.
    case_bool_decide as Hs; cbn [negb].
    + rewrite IH by done. subst kept. cbn zeta.
      assert (Hf : filter (λ x, ¬ (id_of x ∈ ids ∧ id_of x ∉ newids)) coll
                   = filter (λ x, ¬ (id_of x ∈ idval :: ids
                                     ∧ id_of x ∉ newids)) coll).
      { apply list_filter_iff. intros x. split.
        - intros Hx [[->|Hin]%elem_of_cons Hnn]; [done|]. by apply Hx.
        - intros Hx [Hin Hnn]. apply Hx. split; [|done].
          by apply list_elem_of_further. }
      by rewrite Hf.
    + rewrite scan_remove_spec; [|done|done|lia|intros k a Hk; lia].
      rewrite IH.
      * subst kept. cbn zeta. rewrite list_filter_filter.
        assert (Hf : filter (λ x, ¬ (id_of x ∈ ids ∧ id_of x ∉ newids)
                                  ∧ id_of x ≠ idval) coll
                     = filter (λ x, ¬ (id_of x ∈ idval :: ids
                                       ∧ id_of x ∉ newids)) coll).
        { apply list_filter_iff. intros x. split.
          - intros [Hx Hne] [[Heq|Hin]%elem_of_cons Hnn]; [done|].
            by apply Hx.
          - intros Hx. split.
            + intros [Hin Hnn]. apply Hx. split; [|done].
              by apply list_elem_of_further.
            + intros Heq. apply Hx. rewrite Heq. split; [|done].
              apply list_elem_of_here. }
        by rewrite Hf.
      * by apply NoDup_map_filter.
      * by apply NoDup_map_filter.
Qed.

Lemma root_remove_stale_twice_noop ids newids (coll : list T) :
  (∀ v, v ∈ ids → v ∉ newids → v ∉ ids_of node_of coll) →
  root_remove_stale_twice node_of ids newids coll = (coll, Ok tt).
Proof.
  induction ids as [|idval ids IH]; intros Hno; [done|].
  rewrite root_remove_stale_twice_cons. unfold py_in.
  case_bool_decide as Hs; cbn [negb].
  - apply IH. intros v Hv. apply Hno. by apply list_elem_of_further.
  - rewrite scan_remove_twice_nomatch.
    + apply IH. intros v Hv. apply Hno. by apply list_elem_of_further.
    + intros a Ha Heq. apply (Hno idval (list_elem_of_here _ _) Hs).
      rewrite <- Heq. by apply (elem_of_map_2 (λ x, id_of x)).
Qed.

End RootRemoval.

Section KeptFacts.
Context {T : Type} (node_of : T → Node) (sync_of : Soup → Node → Node).

#[local] Abbreviation id_of' x := (attr "id" (node_of x)).

(** What is left of a collection after a first pass, once the elements
    with a stale id are gone. *)
Lemma kept_after_pass ids0 kcs (coll : list T) nids w :
  inv1 node_of sync_of ids0 kcs coll nids w →
  NoDup ids0 → NoDup (map kid kcs) →
  let kept := filter (λ x, ¬ (id_of' x ∈ ids0 ∧ id_of' x ∉ nids)) coll in
  ids_of node_of kept ≡ₚ map kid kcs ∧
  identities_ok node_of w kept ∧
  (∀ c x, c ∈ kcs → x ∈ kept → id_of' x = kid c →
          sync_of c (node_of x) = node_of x).
Proof.
  intros [H1 H2 H3 H4 H5] Hn0 Hnk kept. subst nids.
  assert (Hnc : NoDup (ids_of node_of coll)).
  { rewrite H2. apply NoDup_app.
    repeat split; [done| |by apply NoDup_filter].
    intros v Hv Hv'. by apply list_elem_of_filter in Hv' as [Hv' _]. }
  split; [|split; [split|]].
  - apply NoDup_Permutation; [by apply NoDup_map_filter | done |].
    intros v. split.
    + intros Hv. apply elem_of_map in Hv as [x [-> Hx]].
      apply list_elem_of_filter in Hx as [Hk Hx].
      assert (Hin : id_of' x ∈ ids_of node_of coll)
        by (by apply (elem_of_map_2 (λ y, id_of' y))).
      rewrite H2 in Hin. apply elem_of_app in Hin as [Hin|Hin].
      * destruct (decide (id_of' x ∈ map kid kcs)) as [|Hnn]; [done|].
        exfalso. by apply Hk.
      * by apply list_elem_of_filter in Hin as [_ Hin].
    + intros Hv.
      assert (Hin : v ∈ ids_of node_of coll).
      { rewrite H2. destruct (decide (v ∈ ids0)) as [Hi|Hi].
        - apply elem_of_app. by left.
        - apply elem_of_app. right. by apply list_elem_of_filter. }
      apply elem_of_map in Hin as [x [-> Hx]].
      apply (elem_of_map_2 (λ y, id_of' y)).
      apply list_elem_of_filter. split; [|done]. by intros [_ Hnn].
  - by apply NoDup_map_filter.
  - apply Forall_forall. intros x [_ Hx]%list_elem_of_filter.
    rewrite Forall_forall in H4. by apply H4.
  - intros c x Hc [_ Hx]%list_elem_of_filter Hid. by apply H5.
Qed.

End KeptFacts.

Section RootCompletes.
Context (server : list string → string → Response) (lxml : string → Soup).

(** The loop of [PRTGApi.refresh] reconciles the probes and the
    groups. *)
Lemma Root_step_reconciles_probes probeids groupids deviceids :
  step_reconciles g_node "probenode" ["device"; "group"] true
    (λ st : ApiLoop, (probes st.1.1.1, st.1.1.2))
    (λ st : ApiLoop, allprobes st.1.1.1)
    probeids
    (PRTGApi_refresh_step server lxml probeids groupids deviceids).
Proof.
  intros c [[[r np] ng] nd] w w1 [[[r1 np1] ng1] nd1] Hs.
  pose proof (PRTGApi_refresh_step_mono server lxml probeids groupids deviceids
                c (r, np, ng, nd) w) as Hmono.
  rewrite Hs in Hmono. simpl in Hmono.
  unfold PRTGApi_refresh_step in Hs. destruct c as [t|nm a cs].
  - inversion Hs; subst. split; [discriminate | done].
  - simpl. destruct (String.eqb_spec nm "probenode") as [->|Hnp].
    { split; [intros _ | done].
      unfold kid. destruct (find_string _ _) as [cid|e]; [|discriminate].
      destruct (reconcile_child _ _ _ _ _ _ _ _ _)
        as [[w2 [[ss reg] nn]] res] eqn:Hrc.
      inversion Hs; subst. simpl.
      eexists _, _. split; [apply group_synced_step | exact Hrc]. }
    split; [intros [=]; done | intros _].
    destruct (String.eqb nm "group").
    { destruct (find_string _ _) as [cid|e]; [|discriminate].
      destruct (reconcile_child _ _ _ _ _ _ _ _ _)
        as [[w2 [[ss reg] nn]] res].
      by inversion Hs; subst. }
    destruct (String.eqb nm "device").
    { destruct (find_string _ _) as [cid|e]; [|discriminate].
      destruct (reconcile_child _ _ _ _ _ _ _ _ _)
        as [[w2 [[ss reg] nn]] res].
      by inversion Hs; subst. }
    by inversion Hs; subst.
Qed.

Lemma Root_step_reconciles_groups probeids groupids deviceids :
  step_reconciles g_node "group" ["device"; "group"] true
    (λ st : ApiLoop, (groups st.1.1.1, st.1.2))
    (λ st : ApiLoop, allgroups st.1.1.1)
    groupids
    (PRTGApi_refresh_step server lxml probeids groupids deviceids).
Proof.
  intros c [[[r np] ng] nd] w w1 [[[r1 np1] ng1] nd1] Hs.
  pose proof (PRTGApi_refresh_step_mono server lxml probeids groupids deviceids
                c (r, np, ng, nd) w) as Hmono.
  rewrite Hs in Hmono. simpl in Hmono.
  unfold PRTGApi_refresh_step in Hs. destruct c as [t|nm a cs].
  - inversion Hs; subst. split; [discriminate | done].
  - simpl. destruct (String.eqb_spec nm "probenode") as [->|Hnp].
    { split; [intros [=] | intros _].
      destruct (find_string _ _) as [cid|e]; [|discriminate].
      destruct (reconcile_child _ _ _ _ _ _ _ _ _)
        as [[w2 [[ss reg] nn]] res].
      by inversion Hs; subst. }
    destruct (String.eqb_spec nm "group") as [->|Hng].
    { split; [intros _ | done].
      unfold kid. destruct (find_string _ _) as [cid|e]; [|discriminate].
      destruct (reconcile_child _ _ _ _ _ _ _ _ _)
        as [[w2 [[ss reg] nn]] res] eqn:Hrc.
      inversion Hs; subst. simpl.
      eexists _, _. split; [apply group_synced_step | exact Hrc]. }
    split; [intros [=]; done | intros _].
    destruct (String.eqb nm "device").
    { destruct (find_string _ _) as [cid|e]; [|discriminate].
      destruct (reconcile_child _ _ _ _ _ _ _ _ _)
        as [[w2 [[ss reg] nn]] res].
      by inversion Hs; subst. }
    by inversion Hs; subst.
Qed.

(** One refresh of the root that completes. *)
Lemma root_pass (soup nodes : Soup) (r r' : PRTGApi) (w w' : World) :
  tree_nodes soup = Ok nodes →
  let cs := flat_map children (children nodes) in
  level_ok "probenode" ["device"; "group"] true cs = true →
  level_ok "group" ["device"; "group"] true cs = true →
  level_ok "device" ["sensor"] true cs = true →
  listed g_node (probes r) (allprobes r) w →
  listed g_node (groups r) (allgroups r) w →
  listed d_node (devices r) (alldevices r) w →
  NoDup (ids_of g_node (probes r)) →
  NoDup (ids_of g_node (groups r)) →
  NoDup (ids_of d_node (devices r)) →
  PRTGApi_refresh_soup server lxml soup r w = (w', r', Ok tt) →
  settled g_node ["device"; "group"] (of_kind "probenode" cs)
    (probes r') (allprobes r') w' ∧
  settled g_node ["device"; "group"] (of_kind "group" cs)
    (groups r') (allgroups r') w' ∧
  settled d_node ["sensor"] (of_kind "device" cs)
    (devices r') (alldevices r') w'.
Proof.
  intros Hn cs Hokp Hokg Hokd [Hrp Hip] [Hrg Hig] [Hrd Hidd] Hnp Hng Hnd.
  unfold PRTGApi_refresh_soup. rewrite Hn. cbn [probes groups devices].
  rewrite for_children_nested. fold cs.
  set (st0 := (mkApi (r_node r) (probes r) (groups r) (devices r)
                 (allprobes r) (allgroups r) (alldevices r) (allsensors r)
                 (Some soup), [], [], []) : ApiLoop).
  destruct (for_children _ cs st0 w) as [[w1 [[[r1 np] ng] nd]] [[]|e]] eqn:Hl;
    [|done].
  pose proof (first_pass_loop g_node "probenode" ["device"; "group"] true
                (λ st : ApiLoop, (probes st.1.1.1, st.1.1.2))
                (λ st : ApiLoop, allprobes st.1.1.1)
                _ _ _ (probes r) st0 w (r1, np, ng, nd) w1
                (Root_step_reconciles_probes _ _ _) Hokp Hip eq_refl eq_refl
                Hl) as Hinvp.
  pose proof (first_pass_loop g_node "group" ["device"; "group"] true
                (λ st : ApiLoop, (groups st.1.1.1, st.1.2))
                (λ st : ApiLoop, allgroups st.1.1.1)
                _ _ _ (groups r) st0 w (r1, np, ng, nd) w1
                (Root_step_reconciles_groups _ _ _) Hokg Hig eq_refl eq_refl
                Hl) as Hinvg.
  pose proof (first_pass_loop d_node "device" ["sensor"] true
                (λ st : ApiLoop, (devices st.1.1.1, st.2))
                (λ st : ApiLoop, alldevices st.1.1.1)
                _ _ _ (devices r) st0 w (r1, np, ng, nd) w1
                (Root_step_reconciles_devices server lxml _ _ _) Hokd Hidd
                eq_refl eq_refl Hl) as Hinvd.
  pose proof (first_pass_registry g_node "probenode" ["device"; "group"] true
                (λ st : ApiLoop, (probes st.1.1.1, st.1.1.2))
                (λ st : ApiLoop, allprobes st.1.1.1)
                _ _ cs st0 w (r1, np, ng, nd) w1
                (Root_step_reconciles_probes _ _ _) Hokp Hrp Hl) as Hregp.
  pose proof (first_pass_registry g_node "group" ["device"; "group"] true
                (λ st : ApiLoop, (groups st.1.1.1, st.1.2))
                (λ st : ApiLoop, allgroups st.1.1.1)
                _ _ cs st0 w (r1, np, ng, nd) w1
                (Root_step_reconciles_groups _ _ _) Hokg Hrg Hl) as Hregg.
  pose proof (first_pass_registry d_node "device" ["sensor"] true
                (λ st : ApiLoop, (devices st.1.1.1, st.2))
                (λ st : ApiLoop, alldevices st.1.1.1)
                _ _ cs st0 w (r1, np, ng, nd) w1
                (Root_step_reconciles_devices server lxml _ _ _) Hokd Hrd Hl)
    as Hregd.
  cbn [fst snd] in Hinvp, Hinvg, Hinvd, Hregp, Hregg, Hregd.
  assert (Hkp : NoDup (map kid (of_kind "probenode" cs))).
  { unfold level_ok in Hokp. apply andb_prop in Hokp as [_ Hokp].
    by apply bool_decide_eq_true in Hokp. }
  assert (Hkg : NoDup (map kid (of_kind "group" cs))).
  { unfold level_ok in Hokg. apply andb_prop in Hokg as [_ Hokg].
    by apply bool_decide_eq_true in Hokg. }
  assert (Hkd : NoDup (map kid (of_kind "device" cs))).
  { unfold level_ok in Hokd. apply andb_prop in Hokd as [_ Hokd].
    by apply bool_decide_eq_true in Hokd. }
  assert (Hnip : NoDup (ids_of g_node (probes r1))).
  { rewrite (inv_ids _ _ _ _ _ _ _ Hinvp). apply NoDup_app.
    repeat split; [done| |by apply NoDup_filter].
    intros v Hv Hv'. by apply list_elem_of_filter in Hv' as [Hv' _]. }
  assert (Hnig : NoDup (ids_of g_node (groups r1))).
  { rewrite (inv_ids _ _ _ _ _ _ _ Hinvg). apply NoDup_app.
    repeat split; [done| |by apply NoDup_filter].
    intros v Hv Hv'. by apply list_elem_of_filter in Hv' as [Hv' _]. }
  rewrite Hregp, (root_remove_stale_spec g_node _ np (probes r1) Hnip
                    (inv_nodup _ _ _ _ _ _ _ Hinvp)).
  cbn [probes groups devices allprobes allgroups alldevices].
  rewrite Hregg, (root_remove_stale_spec g_node _ ng (groups r1) Hnig
                    (inv_nodup _ _ _ _ _ _ _ Hinvg)).
  cbn [probes groups devices allprobes allgroups alldevices].
  destruct (root_remove_stale_twice d_node _ nd (devices r1)) as [ds rd] eqn:Hrt.
  intros [= <- <- ->].
  cbn [probes groups devices allprobes allgroups alldevices].
  destruct (kept_after_pass g_node _ _ _ _ _ _ Hinvp Hnp Hkp) as (P1 & P2 & P3).
  destruct (kept_after_pass g_node _ _ _ _ _ _ Hinvg Hng Hkg) as (G1 & G2 & G3).
  destruct (kept_after_pass d_node _ _ _ _ _ _ Hinvd Hnd Hkd) as (D1 & D2 & D3).
  cbn zeta in P1, P2, P3, G1, G2, G3, D1, D2, D3.
  assert (Hstale : ∀ v, v ∈ ids_of d_node (devices r) → v ∉ nd →
                        v ∉ ids_of d_node (devices r1)).
  { intros v Hv Hnew Hin.
    pose proof (root_remove_stale_twice_raises d_node _ nd (devices r1) v
                  (inv_nodup _ _ _ _ _ _ _ Hinvd) Hv Hnew Hin) as Hr.
    by rewrite Hrt in Hr. }
  rewrite (root_remove_stale_twice_noop d_node _ _ _ Hstale) in Hrt.
  injection Hrt as <-.
  assert (Hall : filter (λ x, ¬ (attr "id" (d_node x)
                                   ∈ ids_of d_node (devices r)
                                 ∧ attr "id" (d_node x) ∉ nd)) (devices r1)
                 = devices r1).
  { apply filter_all. apply Forall_forall. intros x Hx [Hin Hnn].
    apply (Hstale _ Hin Hnn).
    by apply (elem_of_map_2 (λ y, attr "id" (d_node y))). }
  rewrite Hall in D1, D2, D3.
  destruct P2 as [P2 P2'], G2 as [G2 G2'], D2 as [D2 D2'].
  unfold settled, listed, identities_ok. repeat split; assumption.
Qed.

(** X18.  A refresh of the root that completes leaves, for each of the
    three kinds, exactly one object per id the first level of the tree
    has of that kind, and registries that list these objects, provided
    the root started with distinct ids and with registries that list
    its collections.  Stated for trees of scalar elements, probes,
    groups and devices whose first-level probes, groups and devices
    carry their own distinct ids and no [type] element. *)
Theorem root_refresh_membership (soup nodes : Soup) (r r' : PRTGApi)
    (w w' : World) :
  tree_nodes soup = Ok nodes →
  root_doc_ok nodes = true →
  let cs := flat_map children (children nodes) in
  level_ok "probenode" ["device"; "group"] true cs = true →
  level_ok "group" ["device"; "group"] true cs = true →
  level_ok "device" ["sensor"] true cs = true →
  listed g_node (probes r) (allprobes r) w →
  listed g_node (groups r) (allgroups r) w →
  listed d_node (devices r) (alldevices r) w →
  NoDup (ids_of g_node (probes r)) →
  NoDup (ids_of g_node (groups r)) →
  NoDup (ids_of d_node (devices r)) →
  PRTGApi_refresh_soup server lxml soup r w = (w', r', Ok tt) →
  ids_of g_node (probes r') ≡ₚ map kid (of_kind "probenode" cs) ∧
  ids_of g_node (groups r') ≡ₚ map kid (of_kind "group" cs) ∧
  ids_of d_node (devices r') ≡ₚ map kid (of_kind "device" cs) ∧
  listed g_node (probes r') (allprobes r') w' ∧
  listed g_node (groups r') (allgroups r') w' ∧
  listed d_node (devices r') (alldevices r') w'.
Proof.
  intros Hn _ cs Hokp Hokg Hokd Hlp Hlg Hld Hnp Hng Hnd Hrun.
  destruct (root_pass soup nodes r r' w w' Hn Hokp Hokg Hokd Hlp Hlg Hld
              Hnp Hng Hnd Hrun)
    as ((P1 & P2 & _) & (G1 & G2 & _) & (D1 & D2 & _)).
  done.
Qed.

End RootCompletes.

(** * Tables and channel lists that are returned *)

Section TableFacts.
Context (server : list string → string → Response)
        (csv_reader : list string → list (list string))
        (strptime : string → string → option datetime)
        (strftime : datetime → string → string).

Lemma add_cell_bound headers j c (data data' : gmap string (list cell)) :
  add_cell strptime headers j c data = Ok data' → (j < length headers)%nat.
Proof.
  unfold add_cell. destruct (headers !! j) as [h|] eqn:Hj; [|done].
  intros _. by eapply lookup_lt_Some.
Qed.

Lemma add_row_bound headers j row (data data' : gmap string (list cell)) :
  add_row strptime headers j row data = Ok data' →
  (j + length row ≤ length headers)%nat ∨ row = [].
Proof.
  revert j data. induction row as [|c row IH]; intros j data H; [by right|].
  left. simpl in H.
  destruct (add_cell strptime headers j c data) as [d1|e] eqn:Hc; [|done].
  apply add_cell_bound in Hc.
  destruct (IH _ _ H) as [Hl| ->]; simpl; lia.
Qed.

Lemma add_rows_bound headers rows (data data' : gmap string (list cell)) :
  add_rows strptime headers rows data = Ok data' →
  Forall (λ row, (length row ≤ length headers)%nat) rows.
Proof.
  revert data. induction rows as [|row rows IH]; intros data H; [constructor|].
  simpl in H.
  destruct (add_row strptime headers 0 row data) as [d1|e] eqn:Hr; [|done].
  constructor; [|by eapply IH].
  apply add_row_bound in Hr as [Hr| ->]; simpl in *; lia.
Qed.

(** X19.  [get_historic_data] returns a table only for rows that fit
    the header: when a row of the answer has more cells than the header
    row, the call raises instead (the cell has no header to go under),
    also when the extra cells come after rows that were read. *)
Theorem historic_rows_fit_header (self : Node) (objid timeaverage : pyval)
    (startdate enddate : date_arg) (w w' : World)
    (data : gmap string (list cell))
    (headers : list string) (body : list (list string)) :
  let url :=
    request_url self
      (historic_url strftime objid startdate enddate timeaverage) true in
  csv_reader (drop_last_two (split_on newline (text (server (log w) url))))
  = headers :: body →
  get_historic_data server csv_reader strptime strftime self objid
    startdate enddate timeaverage w = (w', Ok data) →
  Forall (λ row, (length row ≤ length headers)%nat) body.
Proof.
  intros url Hcsv. unfold get_historic_data.
  assert (Hreq : ∀ req,
             (get_request server self
                (historic_url strftime objid startdate enddate timeaverage)
                true w).2 = Ok (Some req) →
             req = server (log w) url).
  { intros req. unfold get_request. fold url.
    repeat match goal with
           | |- context [Z.eqb ?a ?b] => destruct (Z.eqb a b)
           end; simpl; intros Heq; first [done | by injection Heq as <-]. }
  destruct (get_request _ _ _ _ _) as [w1 [[req|]|e]]; [|done..].
  rewrite (Hreq req eq_refl), Hcsv. simpl. intros [= _ H].
  by eapply add_rows_bound.
Qed.

End TableFacts.

Section ChannelList.
Context (server : list string → string → Response) (lxml : string → Soup).

Lemma Channel_new_world item sid conf w :
  (Channel_new item sid conf w).1 = alloc w.
Proof. done. Qed.

(** The loop that builds the channels stops at the first item that is a
    plain number and keeps what it built before. *)
Lemma append_channels_spec items self w :
  let out := append_channels items self w in
  ∃ built rest new,
    items = built ++ rest ∧
    s_channels out.1.2 = s_channels self ++ new ∧
    Forall2 (λ ch item,
               ∃ wi, Channel_new item (attr "id" (s_node self))
                       (confdata (s_node self)) wi = (alloc wi, Ok ch))
      new built ∧
    Forall (λ item, ¬ plain_number item) built ∧
    match out.2 with
    | Ok _ => rest = []
    | Raise _ => ∃ item rest', rest = item :: rest' ∧ plain_number item
    end.
Proof.
  revert self w. induction items as [|item items IH]; intros self w.
  - exists [], [], []. simpl. rewrite app_nil_r. repeat split; constructor.
  - cbn zeta. cbn [append_channels].
    pose proof (Channel_new_plain item (attr "id" (s_node self))
                  (confdata (s_node self)) w) as Hp.
    pose proof (Channel_new_built item (attr "id" (s_node self))
                  (confdata (s_node self)) w) as Hb.
    pose proof (Channel_new_world item (attr "id" (s_node self))
                  (confdata (s_node self)) w) as Hw.
    destruct (Channel_new item _ _ w) as [w1 [ch|e]] eqn:Hn; simpl in Hw;
      subst w1.
    + destruct (IH (mkSensor (s_node self) (s_channels self ++ [ch]))
                  (alloc w)) as (built & rest & new & -> & Hs & HF & HN & Hr).
      cbn [s_node s_channels] in *.
      exists (item :: built), rest, (ch :: new).
      split; [done|]. split; [rewrite Hs; by rewrite <- app_assoc|].
      split; [constructor; [by exists w | done]|].
      split; [constructor; [by eapply Hb | done]|]. exact Hr.
    + exists [], (item :: items), []. simpl. rewrite app_nil_r.
      split; [done|]. split; [done|]. split; [constructor|].
      split; [constructor|]. exists item, items. split; [done|].
      by eapply Hp.
Qed.

(** X20.  A first [get_channels] builds the channels item by item, in
    document order, and stops at the first item whose [lastvalue] is a
    plain number: no item before it is one, the call then raises, and
    the sensor keeps the channels of the items before that one, so that
    later calls only refresh those.  A call that completes has built one
    channel per item, none of which is a plain number.  Stated for
    items of scalar elements whose [lastvalue] is in ASCII. *)
Theorem get_channels_builds_in_order (self : Sensor) (w : World) :
  s_channels self = [] →
  let url := request_url (s_node self) (channel_url (s_node self)) true in
  let req := server (log w) url in
  status_code req = 200 →
  let items := find_all "item" (lxml (text req)) in
  Forall (λ item, flat_ok item = true ∧ ascii_lastvalue item) items →
  let out := Sensor_get_channels server lxml self w in
  ∃ built rest,
    items = built ++ rest ∧
    Forall2 (λ ch item,
               ∃ wi, Channel_new item (attr "id" (s_node self))
                       (confdata (s_node self)) wi = (alloc wi, Ok ch))
      (s_channels out.1.2) built ∧
    Forall (λ item, ¬ plain_number item) built ∧
    match out.2 with
    | Ok _ => rest = []
    | Raise _ => ∃ item rest', rest = item :: rest' ∧ plain_number item
    end.
Proof.
  intros Hnone url req H200 items _ out. subst out.
  unfold Sensor_get_channels.
  rewrite (get_request_200 server (s_node self) (channel_url (s_node self))
             true w H200). rewrite Hnone.
  fold url. fold req. fold items.
  destruct (append_channels_spec items self (log_request url w))
    as (built & rest & new & Hi & Hs & HF & HN & Hr).
  rewrite Hnone in Hs. simpl in Hs. exists built, rest.
  split; [done|]. rewrite Hs. split; [done|]. split; done.
Qed.

End ChannelList.

(** * The root refreshed twice *)

Section SecondPass.
Context {T St : Type} (node_of : T → Node).
Context (kind : string) (kinds : list string) (typed : bool).
Context (proj : St → list T * list pyval) (preg : St → list nat).

Lemma ids_of_nodes (l k : list T) :
  map node_of l = map node_of k →
  ids_of node_of l = ids_of node_of k ∧ oids_of node_of l = oids_of node_of k.
Proof.
  intros H. unfold ids_of, oids_of.
  rewrite <- (map_map node_of (λ n, attr "id" n) l),
          <- (map_map node_of (λ n, attr "id" n) k),
          <- (map_map node_of oid l), <- (map_map node_of oid k).
  by rewrite H.
Qed.

(** A second pass over the children a collection is settled with keeps
    every node, and none of the removal loops of the root then finds a
    stale id. *)
Lemma second_pass_settled step cs (coll : list T) reg st0 w st' w' :
  step_reconciles node_of kind kinds typed proj preg (ids_of node_of coll)
    step →
  level_ok kind kinds typed cs = true →
  settled node_of kinds (of_kind kind cs) coll reg w →
  proj st0 = (coll, []) → preg st0 = reg →
  for_children step cs st0 w = (w', st', Ok tt) →
  map node_of (proj st').1 = map node_of coll ∧
  root_remove_stale node_of (ids_of node_of coll) (proj st').2 (proj st').1
    (preg st') = ((proj st').1, preg st', Ok tt) ∧
  root_remove_stale_twice node_of (ids_of node_of coll) (proj st').2
    (proj st').1 = ((proj st').1, Ok tt).
Proof.
  intros Hstep Hok (Hperm & (Hreg & Hnd & Hfr) & Hsync) Hp0 Hr0 Hrun.
  assert (Hpres : ∀ c, c ∈ of_kind kind cs → kid c ∈ ids_of node_of coll).
  { intros c Hc. rewrite Hperm. by apply elem_of_map_2. }
  destruct (second_pass_loop node_of kind kinds typed proj preg _ step cs coll
              st0 w st' w' Hstep Hok Hp0 Hpres Hsync Hrun) as [G1 G2].
  assert (Hregs : preg st' = oids_of node_of (proj st').1).
  { eapply first_pass_registry; [exact Hstep|exact Hok| |exact Hrun].
    by rewrite Hp0, Hr0. }
  destruct (ids_of_nodes _ _ G1) as [Hids Hoids].
  assert (Hk : NoDup (map kid (of_kind kind cs))).
  { unfold level_ok in Hok. apply andb_prop in Hok as [_ Hok].
    by apply bool_decide_eq_true in Hok. }
  assert (Hall : ∀ v, v ∈ ids_of node_of coll → v ∈ (proj st').2).
  { intros v Hv. rewrite G2, <- Hperm. done. }
  split; [exact G1|]. split.
  - rewrite Hregs at 1.
    rewrite root_remove_stale_spec.
    + cbn zeta.
      rewrite (filter_all _ (proj st').1).
      * by rewrite <- Hregs.
      * apply Forall_forall. intros x Hx [Hin Hnn]. apply Hnn. by apply Hall.
    + rewrite Hids, Hperm. done.
    + by rewrite Hoids.
  - apply root_remove_stale_twice_noop. intros v Hv Hnn. exfalso.
    apply Hnn. by apply Hall.
Qed.

End SecondPass.

Section RootTwice.
Context (server : list string → string → Response) (lxml : string → Soup).

(** Two refreshes of the root against the same tree. *)
Lemma root_refresh_twice_nodes (soup nodes : Soup)
    (r r1 r2 : PRTGApi) (w w1 w2 : World) :
  tree_nodes soup = Ok nodes →
  let cs := flat_map children (children nodes) in
  level_ok "probenode" ["device"; "group"] true cs = true →
  level_ok "group" ["device"; "group"] true cs = true →
  level_ok "device" ["sensor"] true cs = true →
  listed g_node (probes r) (allprobes r) w →
  listed g_node (groups r) (allgroups r) w →
  listed d_node (devices r) (alldevices r) w →
  NoDup (ids_of g_node (probes r)) →
  NoDup (ids_of g_node (groups r)) →
  NoDup (ids_of d_node (devices r)) →
  PRTGApi_refresh_soup server lxml soup r w = (w1, r1, Ok tt) →
  PRTGApi_refresh_soup server lxml soup r1 w1 = (w2, r2, Ok tt) →
  map g_node (probes r2) = map g_node (probes r1) ∧
  map g_node (groups r2) = map g_node (groups r1) ∧
  map d_node (devices r2) = map d_node (devices r1).
Proof.
  intros Hn cs Hokp Hokg Hokd Hlp Hlg Hld Hnp Hng Hnd Hrun1.
  destruct (root_pass server lxml soup nodes r r1 w w1 Hn Hokp Hokg Hokd
              Hlp Hlg Hld Hnp Hng Hnd Hrun1) as (Sp & Sg & Sd).
  fold cs in Sp, Sg, Sd. clear Hrun1.
  unfold PRTGApi_refresh_soup. rewrite Hn. cbn [probes groups devices].
  rewrite for_children_nested. fold cs.
  set (st0 := (mkApi (r_node r1) (probes r1) (groups r1) (devices r1)
                 (allprobes r1) (allgroups r1) (alldevices r1)
                 (allsensors r1) (Some soup), [], [], []) : ApiLoop).
  destruct (for_children _ cs st0 w1) as [[wb [[[rb np] ng] nd]] [[]|e]]
    eqn:Hl; [|done].
  destruct (second_pass_settled g_node "probenode" ["device"; "group"] true
              (λ st : ApiLoop, (probes st.1.1.1, st.1.1.2))
              (λ st : ApiLoop, allprobes st.1.1.1)
              _ cs (probes r1) (allprobes r1) st0 w1 (rb, np, ng, nd) wb
              (Root_step_reconciles_probes server lxml _ _ _) Hokp Sp
              eq_refl eq_refl Hl) as (P1 & P2 & _).
  destruct (second_pass_settled g_node "group" ["device"; "group"] true
              (λ st : ApiLoop, (groups st.1.1.1, st.1.2))
              (λ st : ApiLoop, allgroups st.1.1.1)
              _ cs (groups r1) (allgroups r1) st0 w1 (rb, np, ng, nd) wb
              (Root_step_reconciles_groups server lxml _ _ _) Hokg Sg
              eq_refl eq_refl Hl) as (G1 & G2 & _).
  destruct (second_pass_settled d_node "device" ["sensor"] true
              (λ st : ApiLoop, (devices st.1.1.1, st.2))
              (λ st : ApiLoop, alldevices st.1.1.1)
              _ cs (devices r1) (alldevices r1) st0 w1 (rb, np, ng, nd) wb
              (Root_step_reconciles_devices server lxml _ _ _) Hokd Sd
              eq_refl eq_refl Hl) as (D1 & _ & D2).
  cbn [fst snd] in P1, P2, G1, G2, D1, D2.
  rewrite P2. cbn [probes groups devices allprobes allgroups alldevices].
  rewrite G2. cbn [probes groups devices allprobes allgroups alldevices].
  rewrite D2. intros [= _ <-].
  cbn [probes groups devices]. done.
Qed.

Lemma settled_members {T} (node_of : T → Node) (kinds : list string)
    (kcs : list Soup) (coll : list T) (reg : list nat) (w0 : World) :
  settled node_of kinds kcs coll reg w0 →
  identities_ok node_of w0 coll ∧
  ∀ c, c ∈ kcs →
       ∃ x, x ∈ coll ∧ attr "id" (node_of x) = kid c
            ∧ sync kinds c (node_of x) = node_of x.
Proof.
  intros (Hp & (_ & Hid) & Hs). split; [exact Hid|]. intros c Hc.
  assert (Hk : kid c ∈ ids_of node_of coll).
  { rewrite Hp. by apply elem_of_map_2. }
  apply elem_of_map in Hk as [x [Hx Hin]].
  exists x. split; [done|]. split; [done|]. by apply Hs.
Qed.

(** X21.  Refreshing the root twice against the same tree reuses its
    children.  When both refreshes complete, every probe, group and
    device of the first level of the tree has after the first refresh a
    local object with its id, and the second refresh keeps that object at
    its place with every field as it was; the three collections hold
    after the second refresh the objects they held after the first, none
    built during the second.  Stated for trees of scalar elements,
    probes, groups and devices whose first-level probes, groups and
    devices carry their own distinct ids and no [type] element, and a
    root that started with distinct ids and registries that list its
    collections. *)
Theorem root_refresh_twice_reuses_children (soup nodes : Soup)
    (r r1 r2 : PRTGApi) (w w1 w2 : World) :
  tree_nodes soup = Ok nodes →
  root_doc_ok nodes = true →
  let cs := flat_map children (children nodes) in
  level_ok "probenode" ["device"; "group"] true cs = true →
  level_ok "group" ["device"; "group"] true cs = true →
  level_ok "device" ["sensor"] true cs = true →
  listed g_node (probes r) (allprobes r) w →
  listed g_node (groups r) (allgroups r) w →
  listed d_node (devices r) (alldevices r) w →
  NoDup (ids_of g_node (probes r)) →
  NoDup (ids_of g_node (groups r)) →
  NoDup (ids_of d_node (devices r)) →
  PRTGApi_refresh_soup server lxml soup r w = (w1, r1, Ok tt) →
  PRTGApi_refresh_soup server lxml soup r1 w1 = (w2, r2, Ok tt) →
  reused g_node ["device"; "group"] (of_kind "probenode" cs) w1
    (probes r1) (probes r2) ∧
  reused g_node ["device"; "group"] (of_kind "group" cs) w1
    (groups r1) (groups r2) ∧
  reused d_node ["sensor"] (of_kind "device" cs) w1
    (devices r1) (devices r2).
Proof.
  intros Hn _ cs Hokp Hokg Hokd Hlp Hlg Hld Hnp Hng Hnd Hrun1 Hrun2.
  destruct (root_pass server lxml soup nodes r r1 w w1 Hn Hokp Hokg Hokd
              Hlp Hlg Hld Hnp Hng Hnd Hrun1) as (Sp & Sg & Sd).
  destruct (root_refresh_twice_nodes soup nodes r r1 r2 w w1 w2 Hn Hokp Hokg
              Hokd Hlp Hlg Hld Hnp Hng Hnd Hrun1 Hrun2) as (Mp & Mg & Md).
  destruct (settled_members _ _ _ _ _ _ Sp) as [Ip Ep].
  destruct (settled_members _ _ _ _ _ _ Sg) as [Ig Eg].
  destruct (settled_members _ _ _ _ _ _ Sd) as [Id Ed].
  split; [|split].
  - by apply (reused_intro g_node ["device"; "group"]).
  - by apply (reused_intro g_node ["device"; "group"]).
  - by apply (reused_intro d_node ["sensor"]).
Qed.

End RootTwice.

(** * Witnesses and evaluations on the example inputs *)

(** C5: the server answers 500; nothing is raised and no result comes
    back. *)
Lemma get_request_500_returns_nothing :
  let out := get_request (reply 500 "Internal Server Error")
               (s_node sensor_ex) "getobjectstatus.htm?id=2001" true
               world_ex in
  out.2 = Ok None ∧ ¬ ∃ e, out.2 = Raise e.
Proof. split; [reflexivity | intros [e He]; discriminate He]. Qed.

Lemma pause_updates_unless_raised_witness :
  attr "status" (pause (reply 500 "") (s_node sensor_ex) 0 "" world_ex).1.2
  = VStr "Paused" ∧
  (pause (reply 401 "") (s_node sensor_ex) 0 "" world_ex).1.2
  = s_node sensor_ex ∧
  (pause (reply 200 "") channel_ex 0 "" world_ex).1.2 = channel_ex.
Proof.
  split; [|split].
  - destruct (pause_updates_unless_raised (reply 500 "")
                (s_node sensor_ex) 0 "" world_ex) as [H _].
    destruct H as (_ & _ & _ & H); [discriminate|].
    apply H; vm_compute; discriminate.
  - destruct (pause_updates_unless_raised (reply 401 "")
                (s_node sensor_ex) 0 "" world_ex) as [H _].
    destruct H as (_ & H & _); [discriminate|].
    apply H. reflexivity.
  - destruct (pause_updates_unless_raised (reply 200 "")
                channel_ex 0 "" world_ex) as [_ H].
    destruct H as (H & _); [vm_compute; reflexivity|]. exact H.
Defined.

(** C4: the local update is not tied to remote success, and not every
    node makes it.  A sensor whose pause request is answered with 500 is
    nevertheless set to "Paused"; a channel whose request is answered
    with 200 keeps the status it had. *)
Lemma pause_update_not_tied_to_success :
  (let out := pause (reply 500 "") (s_node sensor_ex) 0 "" world_ex in
   out.2 = Ok tt ∧ attr "status" (s_node sensor_ex) = VStr "Up"
   ∧ attr "status" out.1.2 = VStr "Paused"
   ∧ attr "active" out.1.2 = VStr "false"
   ∧ attr "status_raw" out.1.2 = VStr "7") ∧
  (let made := Channel_new (item_el "0" "Ping Time" "12 msec") (VStr "2001")
                 conf_ex world_ex in
   match made.2 with
   | Raise _ => False
   | Ok ch =>
       cls ch = CChannel ∧
       let out := pause (reply 200 "") ch 0 "" made.1 in
       out.2 = Ok tt ∧ out.1.2 = ch ∧ attr "status" out.1.2 = VNone
       ∧ attr "status" out.1.2 ≠ VStr "Paused"
   end).
Proof.
  split.
  - vm_compute. repeat split.
  - vm_compute. repeat split; discriminate.
Qed.

Lemma get_property_not_found_witness :
  (get_property (reply 200 "") (parsed (result_doc "(Property not found)"))
     (s_node sensor_ex) "nosuchprop" world_ex).1.2 = s_node sensor_ex ∧
  (get_property (reply 200 "") (parsed (result_doc "60"))
     (s_node sensor_ex) "interval" world_ex).2 = Ok "60".
Proof.
  split.
  - destruct (get_property_not_found (reply 200 "")
                (parsed (result_doc "(Property not found)"))
                (s_node sensor_ex) "nosuchprop" world_ex
                (Tag "result" [] [NavStr "(Property not found)"]))
      as [H _]; [reflexivity | reflexivity |].
    rewrite H; reflexivity.
  - destruct (get_property_not_found (reply 200 "")
                (parsed (result_doc "60"))
                (s_node sensor_ex) "interval" world_ex
                (Tag "result" [] [NavStr "60"]))
      as [_ H]; [reflexivity | reflexivity |].
    destruct H as [H _]; [discriminate|]. rewrite H. reflexivity.
Defined.

Lemma set_property_overwrites_name_witness :
  attr "name"
    (set_interval (reply 200 "") (s_node sensor_ex) (VInt 300) world_ex).1.2
  = VInt 300.
Proof.
  eapply (proj2 (set_property_overwrites_name (reply 200 "")
                   (s_node sensor_ex) _ "interval" (VInt 300) world_ex _)).
  reflexivity.
Defined.

(** C6: the root client built by [PRTGApi(...)] carries no [type] "Root";
    [delete(confirm=False)] on it sends the delete request. *)
Lemma root_delete_sends_request :
  let made := PRTGApi_new (reply 200 "") (parsed root_doc_ex)
                (VStr "prtg.example") (VStr "admin") (VStr "0000") (VInt 0)
                (VStr "https") (VStr "443") true world_ex in
  match made.2 with
  | Raise _ => False
  | Ok root =>
      attr "type" (r_node root) = VNone ∧
      delete (reply 200 "") (r_node root) false made.1
      = (log_request
           "https://prtg.example:443/api/deleteobject.htm?id=0&approve=1&username=admin&passhash=0000"
           made.1, Ok None) ∧
      delete (reply 200 "") (r_node root) true
        (mkWorld (log made.1) ["y"] [] (next_oid made.1))
      = (mkWorld
           (log made.1 ++
            ["https://prtg.example:443/api/deleteobject.htm?id=0&approve=1&username=admin&passhash=0000"])
           [] [prompt] (next_oid made.1), Ok None)
  end.
Proof. vm_compute. repeat split. Qed.

(** C7: after a refresh that turns the only Up sensor Down and brings a
    new sensor, bucket Up still lists the former and no bucket lists the
    latter. *)
Lemma device_index_stale_after_refresh :
  let made := Device_new
                (device_el "20" "A" [sensor_el "2001" "Ping" "Up"])
                conf_ex world_ex in
  let out := Device_refresh (reply 200 "") (parsed (document []))
               made.2
               (Some (device_el "20" "A" [sensor_el "2001" "Ping" "Down";
                                          sensor_el "2003" "SSH" "Down"]))
               made.1 in
  out.2 = Ok tt ∧
  map (λ s, (oid (s_node s), attr "status" (s_node s))) (d_sensors out.1.2)
  = [(1%nat, VStr "Down"); (2%nat, VStr "Down")] ∧
  bucket (VStr "Up") (d_sensors_by_status out.1.2) = [1%nat] ∧
  bucket (VStr "Down") (d_sensors_by_status out.1.2) = [].
Proof. vm_compute. repeat split. Qed.

Lemma device_index_built_at_construction_witness :
  let made := (Device_new device_doc_ex conf_ex world_ex).2 in
  bucket (VStr "Up") (d_sensors_by_status made) = [1%nat] ∧
  bucket (VStr "Unusual") (d_sensors_by_status made) = [2%nat] ∧
  d_sensors_by_status
    (Device_refresh (reply 200 "") (parsed (document [])) made
       (Some (device_el "20" "A" [])) world_ex).1.2
  = d_sensors_by_status made.
Proof.
  pose proof (device_index_built_at_construction (reply 200 "")
                (parsed (document [])) device_doc_ex conf_ex
                (Device_new device_doc_ex conf_ex world_ex).2
                (Some (device_el "20" "A" [])) world_ex world_ex
                eq_refl eq_refl) as [_ [_ [Hb Hr]]].
  split; [rewrite Hb; reflexivity|]. split; [rewrite Hb; reflexivity|].
  exact Hr.
Defined.

Lemma cached_channels_never_pruned_witness :
  map (attr "objid") (s_channels sensor_fetched_ex.2) = [VStr "0"; VStr "1"] ∧
  match s_channels sensor_fetched_ex.2 !! 1%nat with
  | None => False
  | Some ch =>
      s_channels
        (Sensor_get_channels two_tables_ex table_parser_ex
           sensor_fetched_ex.2 sensor_fetched_ex.1).1.2 !! 1%nat = Some ch ∧
      s_channels
        (Sensor_refresh two_tables_ex table_parser_ex sensor_fetched_ex.2
           (Some (sensor_el "2001" "Ping" "Down"))
           sensor_fetched_ex.1).1.2 !! 1%nat = Some ch
  end.
Proof.
  split; [vm_compute; reflexivity|].
  destruct (s_channels sensor_fetched_ex.2 !! 1%nat) as [ch|] eqn:Hch;
    [|vm_compute in Hch; discriminate Hch].
  destruct (cached_channels_never_pruned two_tables_ex table_parser_ex
              sensor_fetched_ex.2 (Some (sensor_el "2001" "Ping" "Down"))
              sensor_fetched_ex.1) as (_ & _ & H).
  - intros E. vm_compute in E. discriminate E.
  - reflexivity.
  - intros hist url item Hitem. unfold two_tables_ex, table_parser_ex in Hitem.
    destruct hist; cbn in Hitem.
    + apply elem_of_cons in Hitem as [->|Hitem]; [reflexivity|].
      apply list_elem_of_singleton in Hitem as ->. reflexivity.
    + apply list_elem_of_singleton in Hitem as ->. reflexivity.
  - destruct (H 1%nat ch Hch) as [Hg Hr]. split.
    + apply Hg. intros item Hitem. vm_compute in Hch. injection Hch as <-.
      vm_compute in Hitem.
      apply list_elem_of_singleton in Hitem as ->. discriminate.
    + apply Hr. intros item Hitem. vm_compute in Hch. injection Hch as <-.
      vm_compute in Hitem.
      apply list_elem_of_singleton in Hitem as ->. discriminate.
Defined.

Lemma historic_data_is_columnar_witness :
  let out := get_historic_data (reply 200 csv_ex) csv_reader_ex strptime_ex
               strftime_ex (s_node sensor_ex) (VInt 2001)
               (ADate (mkDatetime 2020 1 2 0 0 0))
               (AValue (VStr "2020-01-03-00-00-00")) (VInt 0) world_ex in
  (∃ data col, out.2 = Ok data ∧ data !! "Date Time" = Some col
               ∧ length col = 2%nat) ∧
  out.2 = Ok (<["Date Time" := [CTime (mkDatetime 2020 1 2 10 0 0);
                                CTime (mkDatetime 2020 1 2 23 30 0)]]>
              (<["Value" := [CStr "5 %"; CStr "7 %"]]> ∅)).
Proof.
  split; [|vm_compute; reflexivity].
  destruct (historic_data_is_columnar (reply 200 csv_ex) csv_reader_ex
              strptime_ex strftime_ex (s_node sensor_ex) (VInt 2001) (VInt 0)
              (ADate (mkDatetime 2020 1 2 0 0 0))
              (AValue (VStr "2020-01-03-00-00-00")) world_ex
              ["Date Time"; "Value"]
              [["01/02/2020 10:00:00 AM"; "5 %"];
               ["01/02/2020 11:30:00 PM - DST"; "7 %"]])
    as [data [Hout [Hcols _]]].
  - reflexivity.
  - vm_compute. reflexivity.
  - apply (bool_decide_unpack _). reflexivity.
  - intros row i c Hrow Hi.
    repeat (apply elem_of_cons in Hrow as [->|Hrow]);
      [| |by apply elem_of_nil in Hrow];
      (destruct i as [|[|i]]; simpl in Hi; try discriminate Hi;
       injection Hi as <-; eexists; (split; [reflexivity|]);
       intros E; try discriminate E;
       split; [vm_compute; reflexivity | vm_compute; eauto]).
  - destruct (Hcols 0%nat "Date Time" eq_refl) as [col [Hcol Hall]].
    exists data, col. rewrite Hout. repeat split; [done|].
    apply Forall2_length in Hall. rewrite <- Hall. reflexivity.
Defined.

(** The example of the specification: of two devices the later fragment
    keeps one, renamed. *)
Lemma group_refresh_keeps_renamed_device :
  let made := Group_new CGroup group_doc_ex conf_ex world_ex in
  let out := Group_refresh (reply 200 "") (parsed (document [])) made.2
               (Some (group_el "group" "10" "Servers"
                        [device_el "20" "A-renamed" []])) made.1 in
  map (λ d, (oid (d_node d), attr "id" (d_node d), attr "name" (d_node d)))
      (g_devices made.2)
  = [(1%nat, VStr "20", VStr "A"); (3%nat, VStr "21", VStr "B")] ∧
  out.2 = Ok tt ∧
  map (λ d, (oid (d_node d), attr "id" (d_node d), attr "name" (d_node d)))
      (g_devices out.1.2)
  = [(1%nat, VStr "20", VStr "A-renamed")] ∧
  g_alldevices out.1.2 = [1%nat].
Proof. vm_compute. repeat split. Qed.

(** The same group against the later fragment: the refresh completes,
    device 21 is gone from the collection and from the registry, device
    22 is in both. *)
Lemma Group_refresh_membership_witness :
  let made := Group_new CGroup group_doc_ex conf_ex world_ex in
  ∃ w1 g1,
    Group_refresh_soup (reply 200 "") (parsed (document []))
      group_doc_later_ex made.2 made.1 = (w1, g1, Ok tt) ∧
    ids_of d_node (g_devices g1) ≡ₚ [VStr "20"; VStr "22"] ∧
    ids_of g_node (g_groups g1) ≡ₚ [VStr "30"] ∧
    g_alldevices g1 = oids_of d_node (g_devices g1) ∧
    g_allgroups g1 = oids_of g_node (g_groups g1).
Proof.
  intros made.
  pose (loop :=
          for_children
            (Group_refresh_step (reply 200 "") (parsed (document []))
               (Group_refresh_soup (reply 200 "") (parsed (document [])))
               (ids_of d_node (g_devices made.2))
               (ids_of g_node (g_groups made.2)))
            (children group_doc_later_ex) (made.2, [], []) made.1).
  destruct (Group_refresh_membership (reply 200 "") (parsed (document []))
              "group" (soup_attrs group_doc_later_ex)
              (children group_doc_later_ex) made.2 made.1 loop.1.1 loop.1.2)
    as [g1 H].
  - vm_compute. reflexivity.
  - unfold identities_ok. apply (bool_decide_unpack _). vm_compute.
    reflexivity.
  - unfold identities_ok. apply (bool_decide_unpack _). vm_compute.
    reflexivity.
  - apply (bool_decide_unpack _). vm_compute. reflexivity.
  - apply (bool_decide_unpack _). vm_compute. reflexivity.
  - vm_compute. reflexivity.
  - vm_compute. reflexivity.
  - vm_compute. reflexivity.
  - exists loop.1.1, g1. exact H.
Defined.



(** C1: a device directly under the root that the later tree no longer
    has.  The removal loop calls [self.devices.remove] twice: the refresh
    raises ValueError and the device stays in [alldevices]. *)
Lemma root_refresh_stale_device_raises :
  let made := PRTGApi_new (reply 200 "") (parsed root_full_ex)
                (VStr "prtg.example") (VStr "admin") (VStr "0000") (VInt 0)
                (VStr "https") (VStr "443") true world_ex in
  match made.2 with
  | Raise _ => False
  | Ok root =>
      map (λ d, (oid (d_node d), attr "id" (d_node d))) (devices root)
      = [(2%nat, VStr "20")] ∧
      alldevices root = [2%nat] ∧
      let out := PRTGApi_refresh (reply 200 "") (parsed root_full_ex) root
                   (Some root_later_ex) made.1 in
      out.2 = Raise ValueError ∧ devices out.1.2 = [] ∧
      alldevices out.1.2 = [2%nat]
  end.
Proof. vm_compute. repeat split. Qed.

(** * The further properties on the example inputs *)

Lemma delete_unconfirmed_sends_nothing_witness :
  let w := mkWorld [] ["maybe"; ""; "later"] [] 0 in
  log (delete (reply 200 "") (s_node sensor_ex) true w).1 = log w.
Proof.
  intros w.
  apply (delete_unconfirmed_sends_nothing (reply 200 "") (s_node sensor_ex) w).
  apply Forall_forall. apply (bool_decide_unpack _). vm_compute. reflexivity.
Defined.

Lemma delete_confirmed_sends_once_witness :
  let self := s_node sensor_ex in
  let w := mkWorld [] ["maybe"; "y"; "later"] [] 0 in
  let w' := (delete (reply 200 "") self true w).1 in
  log w' = log w ++ [request_url self (delete_url self) true] ∧
  stdin w' = ["later"] ∧
  stdout w' = stdout w ++ replicate (S (length ["maybe"])) prompt.
Proof.
  intros self w.
  apply (delete_confirmed_sends_once (reply 200 "") self w ["maybe"] ["later"]
           "y").
  - vm_compute. discriminate.
  - vm_compute. discriminate.
  - reflexivity.
  - apply (bool_decide_unpack _). vm_compute. reflexivity.
  - reflexivity.
Defined.

Lemma add_tags_appends_witness :
  let self := s_node sensor_ex in
  let out := add_tags (reply 200 "") (parsed (result_doc "web prod")) self
               (TagList ["dmz"; "linux"]) false world_ex in
  ∃ old,
    let new := old +:+ " " +:+ join " " ["dmz"; "linux"] in
    log out.1.1
    = log world_ex ++ [request_url self (getprop_url self "tags") true;
                       request_url self (setprop_url self "tags" (VStr new))
                         true] ∧
    attr "tags" out.1.2 = VStr old ∧
    attr "name" out.1.2 = VStr new.
Proof.
  intros self out.
  apply (add_tags_appends (reply 200 "") (parsed (result_doc "web prod")) self
           out.1.2 ["dmz"; "linux"] world_ex out.1.1).
  vm_compute. reflexivity.
Defined.

Lemma set_host_keeps_connection_witness :
  let self := d_node device_made_ex.2 in
  let out := set_host (reply 200 "") self (VStr "10.9.9.9") world_ex in
  attr "host" out.1.2 = VStr "10.9.9.9" ∧
  attr "name" out.1.2 = VStr "10.9.9.9" ∧
  confdata out.1.2 = confdata self ∧
  (∀ url api, request_url out.1.2 url api = request_url self url api) ∧
  log out.1.1
  = log world_ex
    ++ [request_url self (setprop_url self "host" (VStr "10.9.9.9")) true].
Proof.
  intros self out.
  apply (set_host_keeps_connection (reply 200 "") self out.1.2
           (VStr "10.9.9.9") world_ex out.1.1).
  vm_compute. reflexivity.
Defined.

Lemma resume_after_pause_witness :
  let self := s_node sensor_ex in
  let p := pause (reply 200 "") self 0 "" world_ex in
  let q := resume (reply 200 "") p.1.2 p.1.1 in
  attr "status" q.1.2 = VStr "?" ∧ attr "active" q.1.2 = VStr "true" ∧
  attr "status_raw" q.1.2 = VStr "?" ∧
  (∀ k, k ∉ ["status"; "active"; "status_raw"] →
        attr k q.1.2 = attr k self) ∧
  log q.1.1
  = log world_ex ++ [request_url self (pause_url self 0 "") true;
                     request_url self
                       ("pause.htm?id=" +:+ py_str (attr "id" self)
                        +:+ "&action=1") true].
Proof.
  intros self p q.
  apply (resume_after_pause (reply 200 "") self p.1.2 q.1.2 0 "" world_ex
           p.1.1 q.1.1).
  - vm_compute. discriminate.
  - vm_compute. reflexivity.
  - vm_compute. reflexivity.
Defined.

Lemma channel_forgets_sensor_witness :
  attr "sensorid" channel_ex = VNone ∧
  channel_pause_url channel_ex 0 "" = "pause.htm?id=None&action=0&" ∧
  channel_resume_url channel_ex = "pause.htm?id=None&action=1" ∧
  ∀ name value,
    setprop_url channel_ex name value
    = "setobjectproperty.htm?id=None&subid="
      +:+ py_str (attr "objid" channel_ex)
      +:+ "&name=" +:+ name +:+ "&value=" +:+ py_str value.
Proof.
  apply (channel_forgets_sensor (item_el "0" "Ping Time" "12 msec")
           (VStr "2001") conf_ex world_ex (alloc world_ex) channel_ex).
  - vm_compute. reflexivity.
  - reflexivity.
Defined.

Lemma probe_refresh_reads_group_witness :
  let probe := (Group_new CProbe probe_el_ex conf_ex world_ex).2 in
  attr "type" (g_node probe) = VStr "Group" ∧
  (Group_refresh (reply 200 "") (parsed probe_tree_ex) probe None
     world_ex).1.2 = probe ∧
  ∃ e, (Group_refresh (reply 200 "") (parsed probe_tree_ex) probe None
          world_ex).2 = Raise e.
Proof.
  apply (probe_refresh_reads_group (reply 200 "") (parsed probe_tree_ex)
           probe_el_ex conf_ex world_ex world_ex).
  intros hist url. vm_compute. reflexivity.
Defined.

Lemma sensor_refresh_keeps_unnamed_fields_witness :
  let f := Tag "sensor" [("id", "2001")] [el "status" "Down"] in
  let self' := (Sensor_refresh_soup (reply 200 "") (parsed (document [])) f
                  sensor_ex world_ex).1.2 in
  oid (s_node self') = oid (s_node sensor_ex) ∧
  attributes (s_node self') = Some (soup_attrs f) ∧
  ∀ k, k ∉ reserved →
       attr k (s_node self')
       = match last_scalar k (children f) None with
         | Some v => v
         | None => attr k (s_node sensor_ex)
         end.
Proof.
  intros f.
  apply (sensor_refresh_keeps_unnamed_fields (reply 200 "")
           (parsed (document [])) f sensor_ex world_ex).
  - discriminate.
  - reflexivity.
Defined.

Lemma PRTGApi_new_lists_children_witness :
  ∃ soup nodes,
    treesoup root_ex = Some soup ∧ tree_nodes soup = Ok nodes ∧
    let cs := flat_map children (children nodes) in
    let conf := mkConf (VStr "prtg.example") (VStr "443") (VStr "admin")
                  (VStr "0000") (VStr "https") true in
    Forall2 (λ x c, ∃ wi, x = (Group_new CProbe c conf wi).2)
      (probes root_ex) (of_kind "probenode" cs) ∧
    Forall2 (λ x c, ∃ wi, x = (Group_new CGroup c conf wi).2)
      (groups root_ex) (of_kind "group" cs) ∧
    Forall2 (λ d c, ∃ wi, d = (Device_new c conf wi).2)
      (devices root_ex) (of_kind "device" cs) ∧
    root_listed root_ex root_made_ex.1.
Proof.
  apply (PRTGApi_new_lists_children (reply 200 "") (parsed root_full_ex)
           (VStr "prtg.example") (VStr "admin") (VStr "0000") (VInt 0)
           (VStr "https") (VStr "443") true world_ex root_made_ex.1 root_ex).
  - vm_compute. reflexivity.
  - intros soup nodes Hs Hn. vm_compute in Hs. injection Hs as <-.
    vm_compute in Hn. injection Hn as <-. vm_compute. reflexivity.
Defined.

Lemma search_byid_first_level_witness :
  search_byid root_ex (VInt 20)
  = match List.find (λ x, py_eq (attr "id" (obj_node x))
                            (VStr (py_str (VInt 20))))
            (r_objects root_ex) with
    | Some x => Found x
    | None => NotFound
    end.
Proof.
  apply (search_byid_first_level root_ex root_made_ex.1 (VInt 20)).
  unfold root_listed.
  split; [vm_compute; reflexivity|].
  split; [vm_compute; reflexivity|].
  split; [vm_compute; reflexivity|].
  split; [vm_compute; reflexivity|].
  split; apply (bool_decide_unpack _); vm_compute; reflexivity.
Defined.

Lemma refresh_needs_child_ids_witness :
  (soup_name anonymous_sensor_ex = Some "sensor" →
   ∀ d w, (Device_refresh_soup (reply 200 "") (parsed (document []))
             (Tag "device" [] [el "id" "20"; anonymous_sensor_ex]) d w).2
          ≠ Ok tt) ∧
  (soup_name anonymous_sensor_ex = Some "device"
   ∨ soup_name anonymous_sensor_ex = Some "group" →
   ∀ g w, (Group_refresh_soup (reply 200 "") (parsed (document []))
             (Tag "device" [] [el "id" "20"; anonymous_sensor_ex]) g w).2
          ≠ Ok tt).
Proof.
  apply (refresh_needs_child_ids (reply 200 "") (parsed (document []))
           anonymous_sensor_ex "device" [] [el "id" "20"; anonymous_sensor_ex]).
  - apply (list_elem_of_lookup_2 _ 1%nat). reflexivity.
  - reflexivity.
Defined.

Lemma root_refresh_fails_on_stale_device_witness :
  (PRTGApi_refresh_soup (reply 200 "") (parsed root_full_ex) root_later_ex
     root_ex root_made_ex.1).2 ≠ Ok tt.
Proof.
  apply (root_refresh_fails_on_stale_device (reply 200 "")
           (parsed root_full_ex) root_later_ex nodes_later_ex root_ex
           root_made_ex.1 root_device_ex).
  - vm_compute. reflexivity.
  - vm_compute. reflexivity.
  - vm_compute. reflexivity.
  - unfold identities_ok. apply (bool_decide_unpack _). vm_compute.
    reflexivity.
  - apply (list_elem_of_lookup_2 _ 0%nat). vm_compute. reflexivity.
  - apply (bool_decide_unpack _). vm_compute. reflexivity.
Defined.

Lemma root_refresh_membership_witness :
  let cs := flat_map children (children nodes_moved_ex) in
  let out := PRTGApi_refresh_soup (reply 200 "") (parsed root_full_ex)
               root_moved_ex root_ex root_made_ex.1 in
  ids_of g_node (probes out.1.2) ≡ₚ map kid (of_kind "probenode" cs) ∧
  ids_of g_node (groups out.1.2) ≡ₚ map kid (of_kind "group" cs) ∧
  ids_of d_node (devices out.1.2) ≡ₚ map kid (of_kind "device" cs) ∧
  listed g_node (probes out.1.2) (allprobes out.1.2) out.1.1 ∧
  listed g_node (groups out.1.2) (allgroups out.1.2) out.1.1 ∧
  listed d_node (devices out.1.2) (alldevices out.1.2) out.1.1.
Proof.
  intros cs out.
  apply (root_refresh_membership (reply 200 "") (parsed root_full_ex)
           root_moved_ex nodes_moved_ex root_ex out.1.2 root_made_ex.1
           out.1.1).
  - vm_compute. reflexivity.
  - vm_compute. reflexivity.
  - vm_compute. reflexivity.
  - vm_compute. reflexivity.
  - vm_compute. reflexivity.
  - split; [vm_compute; reflexivity|].
    unfold identities_ok. apply (bool_decide_unpack _). vm_compute.
    reflexivity.
  - split; [vm_compute; reflexivity|].
    unfold identities_ok. apply (bool_decide_unpack _). vm_compute.
    reflexivity.
  - split; [vm_compute; reflexivity|].
    unfold identities_ok. apply (bool_decide_unpack _). vm_compute.
    reflexivity.
  - apply (bool_decide_unpack _). vm_compute. reflexivity.
  - apply (bool_decide_unpack _). vm_compute. reflexivity.
  - apply (bool_decide_unpack _). vm_compute. reflexivity.
  - vm_compute. reflexivity.
Defined.

Lemma root_refresh_twice_reuses_children_witness :
  let cs := flat_map children (children nodes_moved_ex) in
  let first := PRTGApi_refresh_soup (reply 200 "") (parsed root_full_ex)
                 root_moved_ex root_ex root_made_ex.1 in
  let second := PRTGApi_refresh_soup (reply 200 "") (parsed root_full_ex)
                  root_moved_ex first.1.2 first.1.1 in
  reused g_node ["device"; "group"] (of_kind "probenode" cs) first.1.1
    (probes first.1.2) (probes second.1.2) ∧
  reused g_node ["device"; "group"] (of_kind "group" cs) first.1.1
    (groups first.1.2) (groups second.1.2) ∧
  reused d_node ["sensor"] (of_kind "device" cs) first.1.1
    (devices first.1.2) (devices second.1.2).
Proof.
  intros cs first second.
  apply (root_refresh_twice_reuses_children (reply 200 "")
           (parsed root_full_ex) root_moved_ex nodes_moved_ex root_ex
           first.1.2 second.1.2 root_made_ex.1 first.1.1 second.1.1).
  - vm_compute. reflexivity.
  - vm_compute. reflexivity.
  - vm_compute. reflexivity.
  - vm_compute. reflexivity.
  - vm_compute. reflexivity.
  - split; [vm_compute; reflexivity|].
    unfold identities_ok. apply (bool_decide_unpack _). vm_compute.
    reflexivity.
  - split; [vm_compute; reflexivity|].
    unfold identities_ok. apply (bool_decide_unpack _). vm_compute.
    reflexivity.
  - split; [vm_compute; reflexivity|].
    unfold identities_ok. apply (bool_decide_unpack _). vm_compute.
    reflexivity.
  - apply (bool_decide_unpack _). vm_compute. reflexivity.
  - apply (bool_decide_unpack _). vm_compute. reflexivity.
  - apply (bool_decide_unpack _). vm_compute. reflexivity.
  - vm_compute. reflexivity.
  - vm_compute. reflexivity.
Defined.

Lemma historic_rows_fit_header_witness :
  Forall (λ row : list string, (length row ≤ length ["Date Time"; "Value"])%nat)
    [["01/02/2020 10:00:00 AM"; "5 %"];
     ["01/02/2020 11:30:00 PM - DST"; "7 %"]].
Proof.
  apply (historic_rows_fit_header (reply 200 csv_ex) csv_reader_ex strptime_ex
           strftime_ex (s_node sensor_ex) (VInt 2001) (VInt 0)
           (ADate (mkDatetime 2020 1 2 0 0 0))
           (AValue (VStr "2020-01-03-00-00-00")) world_ex historic_ex.1
           (match historic_ex.2 with Ok data => data | Raise _ => ∅ end)).
  - vm_compute. reflexivity.
  - vm_compute. reflexivity.
Defined.

Lemma get_channels_builds_in_order_witness :
  let lx := parsed channels_plain_ex in
  let out := Sensor_get_channels (reply 200 "") lx sensor_ex world_ex in
  ∃ built rest,
    find_all "item" channels_plain_ex = built ++ rest ∧
    Forall2 (λ ch item,
               ∃ wi, Channel_new item (attr "id" (s_node sensor_ex))
                       (confdata (s_node sensor_ex)) wi = (alloc wi, Ok ch))
      (s_channels out.1.2) built ∧
    Forall (λ item, ¬ plain_number item) built ∧
    match out.2 with
    | Ok _ => rest = []
    | Raise _ => ∃ item rest', rest = item :: rest' ∧ plain_number item
    end.
Proof.
  intros lx out.
  apply (get_channels_builds_in_order (reply 200 "") lx sensor_ex world_ex).
  - reflexivity.
  - reflexivity.
  - apply Forall_forall. intros item Hitem. vm_compute in Hitem.
    apply elem_of_cons in Hitem as [->|Hitem];
      [|apply elem_of_cons in Hitem as [->|Hitem];
        [|apply list_elem_of_singleton in Hitem as ->]];
      (split; [reflexivity|]); intros s Hs; vm_compute in Hs;
      injection Hs as <-; reflexivity.
Defined.

Lemma Device_refresh_membership_witness :
  let d := device_made_ex.2 in
  let loop := for_children
                (Device_refresh_step (reply 200 "") (parsed (document []))
                   (ids_of s_node (d_sensors d)))
                (children device_later_ex) (d, []) device_made_ex.1 in
  ∃ d1,
    Device_refresh_soup (reply 200 "") (parsed (document []))
      (Tag "device" (soup_attrs device_later_ex) (children device_later_ex))
      d device_made_ex.1 = (loop.1.1, d1, Ok tt) ∧
    ids_of s_node (d_sensors d1)
      ≡ₚ map kid (of_kind "sensor" (children device_later_ex)) ∧
    d_allsensors d1 = oids_of s_node (d_sensors d1) ∧
    NoDup (oids_of s_node (d_sensors d1)).
Proof.
  intros d loop.
  apply (Device_refresh_membership (reply 200 "") (parsed (document []))
           "device" (soup_attrs device_later_ex) (children device_later_ex)
           d device_made_ex.1 loop.1.1 loop.1.2).
  - vm_compute. reflexivity.
  - unfold identities_ok. apply (bool_decide_unpack _). vm_compute.
    reflexivity.
  - apply (bool_decide_unpack _). vm_compute. reflexivity.
  - vm_compute. reflexivity.
  - vm_compute. reflexivity.
Defined.

Lemma get_status_stores_stripped_witness :
  let out := get_status (reply 200 "") (parsed (result_doc "  Up
 ")) (s_node sensor_ex) "status" world_ex in
  out.2 = Ok "Up" ∧ attr "status" out.1.2 = VStr "Up".
Proof.
  intros out.
  destruct (get_status_stores_stripped (reply 200 "")
              (parsed (result_doc "  Up
 ")) (s_node sensor_ex) "status" world_ex) as (_ & H & _).
  destruct (H (Tag "result" [] [NavStr "  Up
 "])) as (H1 & H2 & _); [reflexivity..|].
  split; [exact H1 | exact H2].
Defined.

Lemma channel_plain_number_raises_witness :
  (Channel_new (item_el "1" "Packet Loss" "0") (VStr "2001") conf_ex
     world_ex).2 = Raise IndexError.
Proof.
  pose proof (channel_plain_number_raises (item_el "1" "Packet Loss" "0")
                (VStr "2001") conf_ex world_ex) as H.
  destruct (Channel_new (item_el "1" "Packet Loss" "0") (VStr "2001") conf_ex
              world_ex).2 as [ch|e].
  - exfalso. apply H.
    + reflexivity.
    + intros s Hs. vm_compute in Hs. injection Hs as <-. reflexivity.
    + exists "0". split; reflexivity.
  - destruct H as (s & Hs & _ & ->).
    + reflexivity.
    + intros s Hs. vm_compute in Hs. injection Hs as <-. reflexivity.
    + vm_compute in Hs. injection Hs as <-. reflexivity.
Defined.

Lemma Device_new_lists_sensors_witness :
  let out := Device_new device_doc_ex conf_ex world_ex in
  Forall2 (λ s c, ∃ did wi, s = (Sensor_new c did conf_ex wi).2)
    (d_sensors out.2) (of_kind "sensor" (children device_doc_ex)) ∧
  d_allsensors out.2 = oids_of s_node (d_sensors out.2) ∧
  identities_ok s_node out.1 (d_sensors out.2).
Proof.
  apply (Device_new_lists_sensors device_doc_ex conf_ex world_ex).
  reflexivity.
Defined.

Lemma Group_new_lists_children_witness :
  let out := Group_new CGroup group_doc_ex conf_ex world_ex in
  Forall2 (λ d c, ∃ wi, d = (Device_new c conf_ex wi).2)
    (g_devices out.2) (of_kind "device" (children group_doc_ex)) ∧
  Forall2 (λ x c, ∃ wi, x = (Group_new CGroup c conf_ex wi).2)
    (g_groups out.2) (of_kind "group" (children group_doc_ex)) ∧
  g_alldevices out.2 = oids_of d_node (g_devices out.2) ∧
  g_allgroups out.2 = oids_of g_node (g_groups out.2) ∧
  identities_ok d_node out.1 (g_devices out.2) ∧
  identities_ok g_node out.1 (g_groups out.2).
Proof.
  apply (Group_new_lists_children CGroup group_doc_ex conf_ex world_ex).
  reflexivity.
Defined.
